(** * IndexCoord: the index-build coordinator of milvus

    A shallow embedding of package [indexcoord] as it is found in
    [internal/indexnode/metrics_info.go]: the [IndexCoord] type, its client
    RPCs, its assignment and recycle loops, and [getSystemInfoMetrics].

    The coordinator talks to three external collaborators: the registry
    (etcd), the blob store (MinIO) and the worker nodes (IndexNode RPC).
    Their answers are collected in one record, [Env]; every function that
    calls out takes the [Env] as its first argument, and every theorem
    quantifies over it.  Calls that leave the coordinator are recorded in
    an event trace so that the order and the arguments of the calls can be
    stated.

    Go's [int64] is [Z]; the one place where the code adds to an [int64]
    ([Version + 1]) has its wrap-around written out ([wrap64]). *)

From Stdlib Require Import ZArith String List Lia Sorted.
From Stdlib Require Import DecimalString DecimalPos DecimalZ.
From stdpp Require Import base gmap list strings.

#[local] Open Scope Z_scope.

(** ** Basic types *)

Definition UniqueID := Z.

(** Go's [error]: [nil] is [None], otherwise the message. *)
Definition error := option string.

Definition two63 : Z := 2 ^ 63.
Definition two64 : Z := 2 ^ 64.

(** Two's-complement wrap-around of an [int64] result. *)
Definition wrap64 (z : Z) : Z := (z + two63) mod two64 - two63.

(** [strconv.Itoa] / [strconv.FormatInt(_, 10)]. *)
Definition Itoa (z : Z) : string := NilZero.string_of_int (Z.to_int z).

(** ** Protobuf messages (only the fields the coordinator reads or writes) *)

Module commonpb.

Inductive ErrorCode := ErrorCode_Success | ErrorCode_UnexpectedError.

Inductive IndexState :=
| IndexState_IndexStateNone
| IndexState_Unissued
| IndexState_InProgress
| IndexState_Finished
| IndexState_Failed.

#[global] Instance ErrorCode_eq_dec : EqDecision ErrorCode.
Proof. solve_decision. Defined.

#[global] Instance IndexState_eq_dec : EqDecision IndexState.
Proof. solve_decision. Defined.

Record Status := { ErrorCode_ : ErrorCode; Reason : string }.

Record KeyValuePair := { Key : string; Value : string }.

End commonpb.

Module internalpb.

Inductive StateCode :=
| StateCode_Initializing
| StateCode_Healthy
| StateCode_Abnormal.

#[global] Instance StateCode_eq_dec : EqDecision StateCode.
Proof. solve_decision. Defined.

Record ComponentInfo :=
    { NodeID : UniqueID; Role : string; StateCode_ : StateCode }.

Record ComponentStates :=
    { State : ComponentInfo;
      SubcomponentStates : list ComponentInfo;
      Status : commonpb.Status }.

End internalpb.

Module BuildIndexRequest.
Record t :=
    { IndexBuildID : UniqueID;
      IndexName : string;
      IndexID : UniqueID;
      DataPaths : list string;
      TypeParams : list commonpb.KeyValuePair;
      IndexParams : list commonpb.KeyValuePair }.
End BuildIndexRequest.

Module BuildIndexResponse.
Record t := { Status : commonpb.Status; IndexBuildID : UniqueID }.
End BuildIndexResponse.

Module CreateIndexRequest.
Record t :=
    { IndexBuildID : UniqueID;
      IndexName : string;
      IndexID : UniqueID;
      Version : Z;
      MetaPath : string;
      DataPaths : list string;
      TypeParams : list commonpb.KeyValuePair;
      IndexParams : list commonpb.KeyValuePair }.
End CreateIndexRequest.

Module IndexMeta.
Record t :=
    { IndexBuildID : UniqueID;
      State : commonpb.IndexState;
      Req : BuildIndexRequest.t;
      IndexFilePaths : list string;
      MarkDeleted : bool;
      NodeID : UniqueID;
      Version : Z;
      Recycled : bool }.
End IndexMeta.

Module IndexInfo.
Record t :=
    { State : commonpb.IndexState; IndexBuildID : UniqueID }.
End IndexInfo.

Module IndexFilePathInfo.
Record t :=
    { IndexBuildID : UniqueID; IndexFilePaths : list string }.
End IndexFilePathInfo.

Module GetIndexStatesResponse.
Record t := { Status : commonpb.Status; States : list IndexInfo.t }.
End GetIndexStatesResponse.

Module GetIndexFilePathsResponse.
Record t :=
    { Status : commonpb.Status; FilePaths : list IndexFilePathInfo.t }.
End GetIndexFilePathsResponse.

Module GetMetricsResponse.
Record t :=
    { Status : commonpb.Status; Response : string; ComponentName : string }.
End GetMetricsResponse.

(** The in-memory entry of the metadata table: the record and the registry
    revision it was read at. *)
Record Meta := { indexMeta : IndexMeta.t; revision : Z }.

(** A Go result pair [(value, error)] in which exactly one side is set. *)
Inductive result (A : Type) : Type :=
| ok (a : A)
| fail (msg : string).
Arguments ok {A} a.
Arguments fail {A} msg.

(** ** Metrics documents ([util/metricsinfo]; only their shape) *)

Module metricsinfo.

Record BaseComponentInfos :=
  { HasError : bool; ErrorReason : string; Name : string }.

Record IndexNodeInfos := { NodeBase : BaseComponentInfos }.

Record IndexCoordInfos := { CoordBase : BaseComponentInfos }.

Record IndexClusterTopology :=
  { Self : IndexCoordInfos; ConnectedNodes : list IndexNodeInfos }.

Record ConnTopology :=
  { ConnName : string; ConnectedComponents : list string }.

Record IndexCoordTopology :=
  { Cluster : IndexClusterTopology; Connections : ConnTopology }.

End metricsinfo.

(** What one worker answered to the metrics fan-out: a response or an
    error, never both. *)
Definition nodeMetricsResult := result GetMetricsResponse.t.

(** A registered worker session. *)
Record Session := { ServerID : UniqueID; Address : string }.

(** ** The external collaborators

    Each field is the answer the collaborator gives to one call.  The
    registry's [saveIndexMeta] stands for the compare-and-swap write of one
    record including its bounded retries: [None] is success, [Some msg]
    the conflict that is reported after the retries are used up. *)
Record Env :=
  { (* registry *)
    saveIndexMeta : Meta -> error;
    GetSessions : list Session * error;
    (* allocator *)
    AllocOne : result UniqueID;
    (* admission queue *)
    ctxDone : bool;
    enqueueFull : error;
    (* blob store *)
    RemoveWithPrefix : string -> error;
    (* worker RPCs, by the server id the client handle is connected to *)
    CreateIndex : UniqueID -> CreateIndexRequest.t -> result commonpb.Status;
    GetMetricsRPC : UniqueID -> string -> nodeMetricsResult;
    (* util/metricsinfo and the message helpers of errors.go *)
    ParseMetricType : string -> result string;
    SystemInfoMetrics : string;
    MsgUnimplementedMetric : string;
    ConstructComponentName : string -> UniqueID -> string;
    MarshalTopology : metricsinfo.IndexCoordTopology -> result string;
    UnmarshalComponentInfos : string -> result metricsinfo.IndexNodeInfos;
    msgIndexCoordIsUnhealthy : UniqueID -> string }.

(** ** Calls that leave the coordinator, in the order they are made *)

Inductive Event :=
| EvUpdateVersion (indexBuildID : UniqueID) (err : error)
| EvCreateIndex (nodeID : UniqueID) (req : CreateIndexRequest.t) (accepted : bool)
| EvBuildIndex (indexBuildID nodeID : UniqueID) (err : error)
| EvIncPriority (nodeID : UniqueID) (delta : Z)
| EvRemoveWithPrefix (prefix : string) (err : error)
| EvDeleteIndex (indexBuildID : UniqueID)
| EvUpdateRecycleState (indexBuildID : UniqueID) (err : error).

(** ** The metadata table ([meta_table.go])

    [indexBuildID2Meta] is a Go map from the build id to the cached record.
    The coordinator only calls into the table; the bodies below follow the
    description of each operation. *)

Module metaTable.

Definition setVersion (m : IndexMeta.t) (v : Z) : IndexMeta.t :=
  {| IndexMeta.IndexBuildID := IndexMeta.IndexBuildID m;
     IndexMeta.State := IndexMeta.State m;
     IndexMeta.Req := IndexMeta.Req m;
     IndexMeta.IndexFilePaths := IndexMeta.IndexFilePaths m;
     IndexMeta.MarkDeleted := IndexMeta.MarkDeleted m;
     IndexMeta.NodeID := IndexMeta.NodeID m;
     IndexMeta.Version := v;
     IndexMeta.Recycled := IndexMeta.Recycled m |}.

Definition setAssigned (m : IndexMeta.t) (nodeID : UniqueID) : IndexMeta.t :=
  {| IndexMeta.IndexBuildID := IndexMeta.IndexBuildID m;
     IndexMeta.State := commonpb.IndexState_InProgress;
     IndexMeta.Req := IndexMeta.Req m;
     IndexMeta.IndexFilePaths := IndexMeta.IndexFilePaths m;
     IndexMeta.MarkDeleted := IndexMeta.MarkDeleted m;
     IndexMeta.NodeID := nodeID;
     IndexMeta.Version := IndexMeta.Version m;
     IndexMeta.Recycled := IndexMeta.Recycled m |}.

Definition setMarkDeleted (m : IndexMeta.t) : IndexMeta.t :=
  {| IndexMeta.IndexBuildID := IndexMeta.IndexBuildID m;
     IndexMeta.State := IndexMeta.State m;
     IndexMeta.Req := IndexMeta.Req m;
     IndexMeta.IndexFilePaths := IndexMeta.IndexFilePaths m;
     IndexMeta.MarkDeleted := true;
     IndexMeta.NodeID := IndexMeta.NodeID m;
     IndexMeta.Version := IndexMeta.Version m;
     IndexMeta.Recycled := IndexMeta.Recycled m |}.

Definition setRecycled (m : IndexMeta.t) : IndexMeta.t :=
  {| IndexMeta.IndexBuildID := IndexMeta.IndexBuildID m;
     IndexMeta.State := IndexMeta.State m;
     IndexMeta.Req := IndexMeta.Req m;
     IndexMeta.IndexFilePaths := IndexMeta.IndexFilePaths m;
     IndexMeta.MarkDeleted := IndexMeta.MarkDeleted m;
     IndexMeta.NodeID := IndexMeta.NodeID m;
     IndexMeta.Version := IndexMeta.Version m;
     IndexMeta.Recycled := true |}.

(** The record as written back: the new contents under the next revision. *)
Definition written (m : Meta) (im : IndexMeta.t) : Meta :=
  {| indexMeta := im; revision := revision m + 1 |}.

(** Modelled from the spec: the fingerprint of a build request, "a given
    (Req.IndexID, Req.DataPaths) fingerprint"; the comparison itself is in
    meta_table.go. *)
Definition fingerprint (req : BuildIndexRequest.t) : UniqueID * list string :=
  (BuildIndexRequest.IndexID req, BuildIndexRequest.DataPaths req).

(** Modelled from the spec: the test of one record in the scan of
    HasSameReq, "at most one task record exists with a given (Req.IndexID,
    Req.DataPaths) fingerprint and MarkDeleted=false". *)
Definition sameReq (req : BuildIndexRequest.t) (m : Meta) : bool :=
  bool_decide (fingerprint (IndexMeta.Req (indexMeta m)) = fingerprint req)
  && negb (IndexMeta.MarkDeleted (indexMeta m)).

(** Modelled from the spec: metaTable.HasSameReq, "scans records for the
    fingerprint above; MarkDeleted=true records are ignored".  The scan
    runs over the entries of the map in the order [map_to_list] gives. *)
Definition HasSameReq (mt : gmap UniqueID Meta) (req : BuildIndexRequest.t)
  : bool * UniqueID :=
  match List.find (sameReq req) (snd <$> map_to_list mt) with
  | Some m => (true, IndexMeta.IndexBuildID (indexMeta m))
  | None => (false, 0)
  end.

(** Modelled from the spec: metaTable.AddIndex, "persists a new record
    with State=Unissued, Version=0. Fails if a record with id already
    exists". *)
Definition AddIndex (env : Env) (mt : gmap UniqueID Meta)
    (indexBuildID : UniqueID) (req : BuildIndexRequest.t)
  : gmap UniqueID Meta * error :=
  match mt !! indexBuildID with
  | Some _ => (mt, Some "index already exists")
  | None =>
      let m :=
        {| indexMeta :=
             {| IndexMeta.IndexBuildID := indexBuildID;
                IndexMeta.State := commonpb.IndexState_Unissued;
                IndexMeta.Req := req;
                IndexMeta.IndexFilePaths := [];
                IndexMeta.MarkDeleted := false;
                IndexMeta.NodeID := 0;
                IndexMeta.Version := 0;
                IndexMeta.Recycled := false |};
           revision := 0 |} in
      match saveIndexMeta env m with
      | Some e => (mt, Some e)
      | None => (<[indexBuildID := m]> mt, None)
      end
  end.

(** Modelled from the spec: metaTable.UpdateVersion, "reads current record,
    bumps Version, writes back with a compare-and-swap on the record's
    registry revision. On CAS failure, retries a bounded number of times,
    then reports Conflict". *)
Definition UpdateVersion (env : Env) (mt : gmap UniqueID Meta)
    (indexBuildID : UniqueID) : gmap UniqueID Meta * error :=
  match mt !! indexBuildID with
  | None => (mt, Some "there is no index with this indexBuildID")
  | Some m =>
      let m' := written m (setVersion (indexMeta m)
                             (wrap64 (IndexMeta.Version (indexMeta m) + 1))) in
      match saveIndexMeta env m' with
      | Some e => (mt, Some e)
      | None => (<[indexBuildID := m']> mt, None)
      end
  end.

(** Modelled from the spec: metaTable.BuildIndex, "sets State=InProgress,
    NodeID=nodeID under CAS". *)
Definition BuildIndex (env : Env) (mt : gmap UniqueID Meta)
    (indexBuildID nodeID : UniqueID) : gmap UniqueID Meta * error :=
  match mt !! indexBuildID with
  | None => (mt, Some "there is no index with this indexBuildID")
  | Some m =>
      let m' := written m (setAssigned (indexMeta m) nodeID) in
      match saveIndexMeta env m' with
      | Some e => (mt, Some e)
      | None => (<[indexBuildID := m']> mt, None)
      end
  end.

(** Modelled from the spec: metaTable.UpdateRecycleState,
    "UpdateRecycleState(id) sets Recycled=true". *)
Definition UpdateRecycleState (env : Env) (mt : gmap UniqueID Meta)
    (indexBuildID : UniqueID) : gmap UniqueID Meta * error :=
  match mt !! indexBuildID with
  | None => (mt, Some "there is no index with this indexBuildID")
  | Some m =>
      let m' := written m (setRecycled (indexMeta m)) in
      match saveIndexMeta env m' with
      | Some e => (mt, Some e)
      | None => (<[indexBuildID := m']> mt, None)
      end
  end.

(** Modelled from the spec: one record of MarkIndexAsDeleted, marked when
    "Req.IndexID == indexID" and the registry takes the write. *)
Definition markOne (env : Env) (indexID : UniqueID) (m : Meta) : Meta :=
  if bool_decide (BuildIndexRequest.IndexID (IndexMeta.Req (indexMeta m)) = indexID)
  then
    let m' := written m (setMarkDeleted (indexMeta m)) in
    match saveIndexMeta env m' with
    | Some _ => m
    | None => m'
    end
  else m.

(** Modelled from the spec: the error one record of MarkIndexAsDeleted
    contributes, the refusal of its write. *)
Definition markFails (env : Env) (indexID : UniqueID) (m : Meta) : option string :=
  if bool_decide (BuildIndexRequest.IndexID (IndexMeta.Req (indexMeta m)) = indexID)
  then saveIndexMeta env (written m (setMarkDeleted (indexMeta m)))
  else None.

(** Modelled from the spec: metaTable.MarkIndexAsDeleted, "sets
    MarkDeleted=true on all tasks whose Req.IndexID == indexID"; the error
    is the first write the registry refused. *)
Definition MarkIndexAsDeleted (env : Env) (mt : gmap UniqueID Meta)
    (indexID : UniqueID) : gmap UniqueID Meta * error :=
  (markOne env indexID <$> mt,
   head (omap (markFails env indexID) (snd <$> map_to_list mt))).

(** Modelled from the spec: metaTable.DeleteIndex, "removes the record from
    both cache and registry". *)
Definition DeleteIndex (mt : gmap UniqueID Meta) (indexBuildID : UniqueID)
  : gmap UniqueID Meta :=
  delete indexBuildID mt.

(** Modelled from the spec: metaTable.GetIndexStates, "returns current
    state for each id; unknown id yields IndexStateNone". *)
Definition GetIndexStates (mt : gmap UniqueID Meta) (ids : list UniqueID)
  : list IndexInfo.t :=
  (fun id =>
     match mt !! id with
     | Some m =>
         {| IndexInfo.State := IndexMeta.State (indexMeta m);
            IndexInfo.IndexBuildID := id |}
     | None =>
         {| IndexInfo.State := commonpb.IndexState_IndexStateNone;
            IndexInfo.IndexBuildID := id |}
     end) <$> ids.

(** Modelled from the spec: metaTable.GetIndexFilePathInfo, "fails with
    NotFinished unless State=Finished"; an unknown id is the not-found
    failure. *)
Definition GetIndexFilePathInfo (mt : gmap UniqueID Meta) (id : UniqueID)
  : result IndexFilePathInfo.t :=
  match mt !! id with
  | None => fail "index not exists"
  | Some m =>
      if bool_decide (IndexMeta.State (indexMeta m) = commonpb.IndexState_Finished)
      then ok {| IndexFilePathInfo.IndexBuildID := id;
                 IndexFilePathInfo.IndexFilePaths :=
                   IndexMeta.IndexFilePaths (indexMeta m) |}
      else fail "index not finished"
  end.

(** Modelled from the spec: the test of one record in GetUnassignedTasks,
    "Unissued, or ... InProgress whose NodeID is not in liveNodeIDs". *)
Definition unassigned (onlineNodeIDs : list UniqueID) (m : Meta) : bool :=
  bool_decide (IndexMeta.State (indexMeta m) = commonpb.IndexState_Unissued)
  || (bool_decide (IndexMeta.State (indexMeta m) = commonpb.IndexState_InProgress)
      && negb (bool_decide (IndexMeta.NodeID (indexMeta m) ∈ onlineNodeIDs))).

(** Modelled from the spec: metaTable.GetUnassignedTasks, "returns records
    that are Unissued, or are InProgress whose NodeID is not in
    liveNodeIDs". *)
Definition GetUnassignedTasks (mt : gmap UniqueID Meta)
    (onlineNodeIDs : list UniqueID) : list Meta :=
  List.filter (unassigned onlineNodeIDs) (snd <$> map_to_list mt).

(** Modelled from the spec: the test of one record in GetUnusedIndexFiles,
    "either MarkDeleted=true ... or ... Version>1 with Recycled=false". *)
Definition unused (m : Meta) : bool :=
  IndexMeta.MarkDeleted (indexMeta m)
  || ((1 <? IndexMeta.Version (indexMeta m))
      && negb (IndexMeta.Recycled (indexMeta m))).

(** Modelled from the spec: metaTable.GetUnusedIndexFiles, "returns up to
    limit records that are either MarkDeleted=true (all files obsolete) or
    have Version>1 with Recycled=false (older versions obsolete)". *)
Definition GetUnusedIndexFiles (mt : gmap UniqueID Meta) (limit : Z)
  : list Meta :=
  take (Z.to_nat limit) (List.filter unused (snd <$> map_to_list mt)).

End metaTable.

(** ** The worker pool ([node_manager.go], [priority_queue.go]) *)

Module types.

(** The RPC client handle of one worker: the server it is dialled to. *)
Record IndexNode := { connectedTo : UniqueID }.

End types.

Module NodeManager.

Record PQItem := { key : UniqueID; priority : Z }.

Record t :=
  { nodeClients : gmap UniqueID types.IndexNode;
    pq : list PQItem }.

(** Modelled from the spec: PriorityQueue.Peek, "min-heap priority queue
    keyed by current in-flight task count (lower = more eligible). Entries
    carry a tiebreaker (insertion sequence)"; [items] is in insertion
    order. *)
Fixpoint peekItem (items : list PQItem) : option PQItem :=
  match items with
  | [] => None
  | x :: rest =>
      match peekItem rest with
      | Some y => if priority y <? priority x then Some y else Some x
      | None => Some x
      end
  end.

(** Modelled from the spec: NodeManager.PeekClient, "returns the
    lowest-priority entry without removing it; returns (0, nil) when
    empty". *)
Definition PeekClient (nm : t) : UniqueID * option types.IndexNode :=
  match peekItem (pq nm) with
  | None => (0, None)
  | Some x => (key x, nodeClients nm !! key x)
  end.

(** Modelled from the spec: PriorityQueue.IncPriority, "adjusts priority by
    delta (positive on assignment, negative on completion)". *)
Definition IncPriority (items : list PQItem) (nodeID : UniqueID) (delta : Z)
  : list PQItem :=
  (fun x =>
     if bool_decide (key x = nodeID)
     then {| key := key x; priority := priority x + delta |}
     else x) <$> items.

(** Modelled from the spec: NodeManager.getMetrics, "fan-out to all
    clients in parallel; each result carries either the response or an
    error, never both". *)
Definition getMetrics (env : Env) (nm : t) (req : string)
  : list nodeMetricsResult :=
  (fun kc => GetMetricsRPC env (fst kc) req) <$> map_to_list (nodeClients nm).

End NodeManager.

(** ** The coordinator *)

Definition taskLimit : Z := 20.

Module typeutil.
Definition IndexCoordRole : string := "IndexCoord".
Definition IndexNodeRole : string := "IndexNode".
End typeutil.

Record IndexCoord :=
  { stateCode : internalpb.StateCode;
    ID : UniqueID;
    session : Session;
    metaTable_ : gmap UniqueID Meta;
    nodeManager : NodeManager.t }.

Definition withStateCode (i : IndexCoord) (code : internalpb.StateCode) : IndexCoord :=
  {| stateCode := code; ID := ID i; session := session i;
     metaTable_ := metaTable_ i; nodeManager := nodeManager i |}.

Definition withMeta (i : IndexCoord) (mt : gmap UniqueID Meta) : IndexCoord :=
  {| stateCode := stateCode i; ID := ID i; session := session i;
     metaTable_ := mt; nodeManager := nodeManager i |}.

Definition withPQ (i : IndexCoord) (q : list NodeManager.PQItem) : IndexCoord :=
  {| stateCode := stateCode i; ID := ID i; session := session i;
     metaTable_ := metaTable_ i;
     nodeManager :=
       {| NodeManager.nodeClients := NodeManager.nodeClients (nodeManager i);
          NodeManager.pq := q |} |}.

Definition UpdateStateCode (i : IndexCoord) (code : internalpb.StateCode) : IndexCoord :=
  withStateCode i code.

(** [NewIndexCoord]: every field is the zero value except the state code,
    which is stored as Abnormal.  (The table and the worker pool are only
    created by [Init].) *)
Definition NewIndexCoord : IndexCoord :=
  UpdateStateCode
    {| stateCode := internalpb.StateCode_Initializing;
       ID := 0;
       session := {| ServerID := 0; Address := EmptyString |};
       metaTable_ := ∅;
       nodeManager := {| NodeManager.nodeClients := ∅; NodeManager.pq := [] |} |}
    internalpb.StateCode_Abnormal.

Definition isHealthy (i : IndexCoord) : bool :=
  bool_decide (stateCode i = internalpb.StateCode_Healthy).

Definition status (code : commonpb.ErrorCode) (reason : string) : commonpb.Status :=
  {| commonpb.ErrorCode_ := code; commonpb.Reason := reason |}.

(** [&commonpb.Status{ErrorCode: commonpb.ErrorCode_Success}] *)
Definition success : commonpb.Status :=
  status commonpb.ErrorCode_Success EmptyString.

(** *** Client RPCs

    A Go RPC returns [(response pointer, error)]; the pointer may be [nil]. *)

Definition GetComponentStates (i : IndexCoord)
  : option internalpb.ComponentStates * error :=
  let stateInfo :=
    {| internalpb.NodeID := ID i;
       internalpb.Role := "IndexCoord";
       internalpb.StateCode_ := stateCode i |} in
  let ret :=
    {| internalpb.State := stateInfo;
       internalpb.SubcomponentStates := [];
       internalpb.Status := success |} in
  (Some ret, None).

(** Modelled from the spec: IndexAddQueue.Enqueue with the task's
    OnEnqueue (task_scheduler.go, task.go), "Allocate a new IndexBuildID
    from the allocator"; a full queue is the enqueue failure. *)
Definition Enqueue (env : Env) : result UniqueID :=
  match enqueueFull env with
  | Some e => fail e
  | None => AllocOne env
  end.

(** Modelled from the spec: IndexAddTask.WaitToFinish (task.go), "Persist a
    new task via AddTask ... Return the id on channel receipt (success) or
    surface the error". *)
Definition WaitToFinish (env : Env) (mt : gmap UniqueID Meta)
    (indexBuildID : UniqueID) (req : BuildIndexRequest.t)
  : gmap UniqueID Meta * error :=
  metaTable.AddIndex env mt indexBuildID req.

Definition buildIndexResponse (code : commonpb.ErrorCode) (reason : string)
    (indexBuildID : UniqueID) : BuildIndexResponse.t :=
  {| BuildIndexResponse.Status := status code reason;
     BuildIndexResponse.IndexBuildID := indexBuildID |}.

Definition BuildIndex (env : Env) (i : IndexCoord) (req : BuildIndexRequest.t)
  : IndexCoord * (option BuildIndexResponse.t * error) :=
  let '(hasIndex, indexBuildID) := metaTable.HasSameReq (metaTable_ i) req in
  if hasIndex then
    (i, (Some (buildIndexResponse commonpb.ErrorCode_Success
                 "already have same index" indexBuildID), None))
  else
    let fn :=
      if ctxDone env then fail "IndexAddQueue enqueue timeout"
      else Enqueue env in
    match fn with
    | fail e =>
        (i, (Some (buildIndexResponse commonpb.ErrorCode_UnexpectedError e 0), None))
    | ok t_indexBuildID =>
        match WaitToFinish env (metaTable_ i) t_indexBuildID req with
        | (mt, Some e) =>
            (withMeta i mt,
             (Some (buildIndexResponse commonpb.ErrorCode_UnexpectedError e 0), None))
        | (mt, None) =>
            (withMeta i mt,
             (Some (buildIndexResponse commonpb.ErrorCode_Success EmptyString
                      t_indexBuildID), None))
        end
    end.

Definition GetIndexStates (i : IndexCoord) (IndexBuildIDs : list UniqueID)
  : option GetIndexStatesResponse.t * error :=
  let indexStates := metaTable.GetIndexStates (metaTable_ i) IndexBuildIDs in
  (Some {| GetIndexStatesResponse.Status := success;
           GetIndexStatesResponse.States := indexStates |}, None).

(** The goroutine that [DropIndex] defers (cancelling queued admissions)
    runs after the call has returned and is not part of its result. *)
Definition DropIndex (env : Env) (i : IndexCoord) (IndexID : UniqueID)
  : IndexCoord * (option commonpb.Status * error) :=
  let '(mt, err) := metaTable.MarkIndexAsDeleted env (metaTable_ i) IndexID in
  match err with
  | Some e =>
      (withMeta i mt, (Some (status commonpb.ErrorCode_UnexpectedError e), None))
  | None =>
      (withMeta i mt, (Some success, None))
  end.

(** The [for] loop of [GetIndexFilePaths]: the first failing id ends the
    call. *)
Fixpoint collectIndexPaths (mt : gmap UniqueID Meta) (ids : list UniqueID)
    (indexPaths : list IndexFilePathInfo.t) : result (list IndexFilePathInfo.t) :=
  match ids with
  | [] => ok indexPaths
  | indexID :: rest =>
      match metaTable.GetIndexFilePathInfo mt indexID with
      | fail e => fail e
      | ok indexPathInfo => collectIndexPaths mt rest (indexPaths ++ [indexPathInfo])
      end
  end.

Definition GetIndexFilePaths (i : IndexCoord) (IndexBuildIDs : list UniqueID)
  : option GetIndexFilePathsResponse.t * error :=
  match collectIndexPaths (metaTable_ i) IndexBuildIDs [] with
  | fail e => (None, Some e)
  | ok indexPaths =>
      (Some {| GetIndexFilePathsResponse.Status := success;
               GetIndexFilePathsResponse.FilePaths := indexPaths |}, None)
  end.

Definition errorNode (reason name : string) : metricsinfo.IndexNodeInfos :=
  {| metricsinfo.NodeBase :=
       {| metricsinfo.HasError := true;
          metricsinfo.ErrorReason := reason;
          metricsinfo.Name := name |} |}.

(** One round of the loop over the workers' answers in
    [getSystemInfoMetrics]: the entry appended to [ConnectedNodes]. *)
Definition connectedNode (env : Env) (nodeMetrics : nodeMetricsResult)
  : metricsinfo.IndexNodeInfos :=
  match nodeMetrics with
  | fail e => errorNode e EmptyString
  | ok resp =>
      if bool_decide (commonpb.ErrorCode_ (GetMetricsResponse.Status resp)
                      = commonpb.ErrorCode_Success)
      then
        match UnmarshalComponentInfos env (GetMetricsResponse.Response resp) with
        | fail e => errorNode e (GetMetricsResponse.ComponentName resp)
        | ok infos => infos
        end
      else errorNode (commonpb.Reason (GetMetricsResponse.Status resp))
                     (GetMetricsResponse.ComponentName resp)
  end.

Definition getSystemInfoMetrics (env : Env) (req : string) (coord : IndexCoord)
  : option GetMetricsResponse.t * error :=
  let name :=
    ConstructComponentName env typeutil.IndexCoordRole (ServerID (session coord)) in
  let nodesMetrics := NodeManager.getMetrics env (nodeManager coord) req in
  let clusterTopology :=
    {| metricsinfo.Self :=
         {| metricsinfo.CoordBase :=
              {| metricsinfo.HasError := false;
                 metricsinfo.ErrorReason := EmptyString;
                 metricsinfo.Name := name |} |};
       metricsinfo.ConnectedNodes := connectedNode env <$> nodesMetrics |} in
  let coordTopology :=
    {| metricsinfo.Cluster := clusterTopology;
       metricsinfo.Connections :=
         {| metricsinfo.ConnName := name;
            metricsinfo.ConnectedComponents := [] |} |} in
  match MarshalTopology env coordTopology with
  | fail e =>
      (Some {| GetMetricsResponse.Status := status commonpb.ErrorCode_UnexpectedError e;
               GetMetricsResponse.Response := EmptyString;
               GetMetricsResponse.ComponentName := name |}, None)
  | ok resp =>
      (Some {| GetMetricsResponse.Status := success;
               GetMetricsResponse.Response := resp;
               GetMetricsResponse.ComponentName := name |}, None)
  end.

Definition metricsFailure (reason : string) : GetMetricsResponse.t :=
  {| GetMetricsResponse.Status := status commonpb.ErrorCode_UnexpectedError reason;
     GetMetricsResponse.Response := EmptyString;
     GetMetricsResponse.ComponentName := EmptyString |}.

Definition GetMetrics (env : Env) (i : IndexCoord) (Request : string)
  : option GetMetricsResponse.t * error :=
  if negb (isHealthy i) then
    (Some (metricsFailure (msgIndexCoordIsUnhealthy env (ID i))), None)
  else
    match ParseMetricType env Request with
    | fail e => (Some (metricsFailure e), None)
    | ok metricType =>
        if bool_decide (metricType = SystemInfoMetrics env)
        then getSystemInfoMetrics env Request i
        else (Some (metricsFailure (MsgUnimplementedMetric env)), None)
    end.

(** *** The assignment loop *)

(** *** [sort.Slice] of the Go library *)

(** The assignment loop orders its snapshot with [sort.Slice], which is not
    part of the repository.  The definitions below follow the library
    (package sort of go1.19 and later: pattern-defeating quicksort over a
    [lessSwap] made of the caller's closure and a swapper of the slice),
    function by function and under the library's names.  A slice is a list
    and an index a natural number.  Go panics on an index out of range;
    here [Less] answers false and [Swap] leaves the slice alone, and no
    index of the functions below leaves the range [a, b) they are given.
    A loop that is not a counted one takes the number of rounds it may run
    as its first argument; the callers pass a bound the loop cannot
    reach. *)
Module sort.

Inductive sortedHint := unknownHint | increasingHint | decreasingHint.

(** [bits.Len]. *)
Definition bitsLen (n : nat) : nat :=
  match n with O => O | _ => S (Nat.log2 n) end.

Definition nextPowerOfTwo (length : nat) : nat := (2 ^ bitsLen length)%nat.

(** [xorshift.Next] on a 64-bit word. *)
Definition xorshift_Next (r : N) : N :=
  let r := N.lxor r (N.shiftl r 13 mod 2 ^ 64)%N in
  let r := N.lxor r (N.shiftr r 7) in
  N.lxor r (N.shiftl r 17 mod 2 ^ 64)%N.

Section lessSwap.
Context {A : Type} (less : A -> A -> bool).

(** [data.Less(i, j)]: the closure on the elements at [i] and [j]. *)
Definition Less (data : list A) (i j : nat) : bool :=
  match data !! i, data !! j with
  | Some x, Some y => less x y
  | _, _ => false
  end.

(** [data.Swap(i, j)]. *)
Definition Swap (data : list A) (i j : nat) : list A :=
  match data !! i, data !! j with
  | Some x, Some y => <[i := y]> (<[j := x]> data)
  | _, _ => data
  end.

(** [for j := i; j > a && data.Less(j, j-1); j-- { data.Swap(j, j-1) }] *)
Fixpoint shiftLeft (data : list A) (a j : nat) : list A :=
  match j with
  | O => data
  | S j' =>
      if (a <? j)%nat && Less data j j'
      then shiftLeft (Swap data j j') a j'
      else data
  end.

Definition insertionSort_func (data : list A) (a b : nat) : list A :=
  foldl (fun data i => shiftLeft data a i) data (seq (a + 1) (b - (a + 1))).

(** The loop of [siftDown_func]. *)
Fixpoint siftDown_loop (n : nat) (data : list A) (root hi first : nat) : list A :=
  match n with
  | O => data
  | S n' =>
      let child := (2 * root + 1)%nat in
      if (hi <=? child)%nat then data
      else
        let child :=
          if (child + 1 <? hi)%nat && Less data (first + child) (first + child + 1)
          then (child + 1)%nat else child in
        if negb (Less data (first + root) (first + child)) then data
        else siftDown_loop n' (Swap data (first + root) (first + child)) child hi first
  end.

Definition siftDown_func (data : list A) (lo hi first : nat) : list A :=
  siftDown_loop hi data lo hi first.

Definition heapSort_func (data : list A) (a b : nat) : list A :=
  let first := a in
  let lo := O in
  let hi := (b - a)%nat in
  let data :=
    foldl (fun data i => siftDown_func data i hi first) data
          (rev (seq 0 ((hi - 1) / 2 + 1))) in
  foldl (fun data i => siftDown_func (Swap data first (first + i)) lo i first) data
        (rev (seq 0 hi)).

(** [for i <= j && cond(i) { i++ }] and [for i <= j && cond(j) { j-- }]. *)
Fixpoint scanUp (n : nat) (cond : nat -> bool) (i j : nat) : nat :=
  match n with
  | O => i
  | S n' => if (i <=? j)%nat && cond i then scanUp n' cond (S i) j else i
  end.

Fixpoint scanDown (n : nat) (cond : nat -> bool) (i j : nat) : nat :=
  match n with
  | O => j
  | S n' => if (i <=? j)%nat && cond j then scanDown n' cond i (j - 1) else j
  end.

(** The [for] loop of [partition_func], left by [break] with [j]. *)
Fixpoint partition_loop (n : nat) (data : list A) (a i j : nat) : list A * nat :=
  match n with
  | O => (data, j)
  | S n' =>
      let i := scanUp (S j - i) (fun i => Less data i a) i j in
      let j := scanDown (S j - i) (fun j => negb (Less data j a)) i j in
      if (j <? i)%nat then (data, j)
      else partition_loop n' (Swap data i j) a (i + 1) (j - 1)
  end.

Definition partition_func (data : list A) (a b pivot : nat) : list A * nat * bool :=
  let data := Swap data a pivot in
  let i := (a + 1)%nat in
  let j := (b - 1)%nat in
  let i := scanUp (S j - i) (fun i => Less data i a) i j in
  let j := scanDown (S j - i) (fun j => negb (Less data j a)) i j in
  if (j <? i)%nat then (Swap data j a, j, true)
  else
    let data := Swap data i j in
    let '(data, j) := partition_loop (b - a) data a (i + 1) (j - 1) in
    (Swap data j a, j, false).

(** The [for] loop of [partitionEqual_func], left by [break] with [i]. *)
Fixpoint partitionEqual_loop (n : nat) (data : list A) (a i j : nat) : list A * nat :=
  match n with
  | O => (data, i)
  | S n' =>
      let i := scanUp (S j - i) (fun i => negb (Less data a i)) i j in
      let j := scanDown (S j - i) (fun j => Less data a j) i j in
      if (j <? i)%nat then (data, i)
      else partitionEqual_loop n' (Swap data i j) a (i + 1) (j - 1)
  end.

Definition partitionEqual_func (data : list A) (a b pivot : nat) : list A * nat :=
  let data := Swap data a pivot in
  partitionEqual_loop (b - a) data a (a + 1) (b - 1).

(** [for i < b && !data.Less(i, i-1) { i++ }] *)
Fixpoint scanSorted (n : nat) (data : list A) (i b : nat) : nat :=
  match n with
  | O => i
  | S n' =>
      if (i <? b)%nat && negb (Less data i (i - 1)) then scanSorted n' data (S i) b
      else i
  end.

(** [for j := i + 1; j < b; j++ { if !data.Less(j, j-1) { break };
    data.Swap(j, j-1) }], entered with [j]. *)
Fixpoint shiftRight (n : nat) (data : list A) (j b : nat) : list A :=
  match n with
  | O => data
  | S n' =>
      if (j <? b)%nat && Less data j (j - 1)
      then shiftRight n' (Swap data j (j - 1)) (S j) b
      else data
  end.

(** The rounds of [partialInsertionSort_func] that are left, [maxSteps] at
    first; [shortestShifting] is 50. *)
Fixpoint partialInsertionSort_loop (steps : nat) (data : list A) (a b i : nat)
  : list A * bool :=
  match steps with
  | O => (data, false)
  | S steps' =>
      let i := scanSorted (b - i) data i b in
      if (i =? b)%nat then (data, true)
      else if (b - a <? 50)%nat then (data, false)
      else
        let data := Swap data i (i - 1) in
        let data := if (2 <=? i - a)%nat then shiftLeft data 0 (i - 1) else data in
        let data :=
          if (2 <=? b - i)%nat then shiftRight (b - i) data (i + 1) b else data in
        partialInsertionSort_loop steps' data a b i
  end.

Definition partialInsertionSort_func (data : list A) (a b : nat) : list A * bool :=
  partialInsertionSort_loop 5 data a b (a + 1).

Definition breakPatterns_func (data : list A) (a b : nat) : list A :=
  let length := (b - a)%nat in
  if (8 <=? length)%nat then
    let modulus := nextPowerOfTwo length in
    let idx := (a + (length / 4) * 2 - 1)%nat in
    fst (foldl (fun '(data, random) i =>
                  let random := xorshift_Next random in
                  let other := N.to_nat (N.land random (N.of_nat modulus - 1)) in
                  let other :=
                    if (length <=? other)%nat then (other - length)%nat else other in
                  (Swap data (idx - 1 + i) (a + other), random))
               (data, N.of_nat length) (seq 0 3))
  else data.

Definition order2_func (data : list A) (a b swaps : nat) : nat * nat * nat :=
  if Less data b a then (b, a, S swaps) else (a, b, swaps).

Definition median_func (data : list A) (a b c swaps : nat) : nat * nat :=
  let '(a, b, swaps) := order2_func data a b swaps in
  let '(b, c, swaps) := order2_func data b c swaps in
  let '(a, b, swaps) := order2_func data a b swaps in
  (b, swaps).

Definition medianAdjacent_func (data : list A) (a swaps : nat) : nat * nat :=
  median_func data (a - 1) a (a + 1) swaps.

(** [shortestNinther] is 50 and [maxSwaps] 12. *)
Definition choosePivot_func (data : list A) (a b : nat) : nat * sortedHint :=
  let l := (b - a)%nat in
  let swaps := O in
  let i := (a + l / 4 * 1)%nat in
  let j := (a + l / 4 * 2)%nat in
  let k := (a + l / 4 * 3)%nat in
  let '(j, swaps) :=
    if (8 <=? l)%nat then
      let '(i, j, k, swaps) :=
        if (50 <=? l)%nat then
          let '(i, swaps) := medianAdjacent_func data i swaps in
          let '(j, swaps) := medianAdjacent_func data j swaps in
          let '(k, swaps) := medianAdjacent_func data k swaps in
          (i, j, k, swaps)
        else (i, j, k, swaps) in
      median_func data i j k swaps
    else (j, swaps) in
  match swaps with
  | 0%nat => (j, increasingHint)
  | 12%nat => (j, decreasingHint)
  | _ => (j, unknownHint)
  end.

Fixpoint reverseRange_loop (n : nat) (data : list A) (i j : nat) : list A :=
  match n with
  | O => data
  | S n' =>
      if (i <? j)%nat then reverseRange_loop n' (Swap data i j) (i + 1) (j - 1)
      else data
  end.

Definition reverseRange_func (data : list A) (a b : nat) : list A :=
  reverseRange_loop (b - a) data a (b - 1).

(** [pdqsort_func]: one round of its [for] loop, the recursive call on the
    shorter side and the rounds that follow.  Every round shortens the
    range, so a range of [b - a] elements is done within [b - a + 1]
    rounds; [maxInsertion] is 12. *)
Fixpoint pdqsort_loop (n : nat) (data : list A) (a b limit : nat)
    (wasBalanced wasPartitioned : bool) : list A :=
  match n with
  | O => data
  | S n' =>
      let length := (b - a)%nat in
      if (length <=? 12)%nat then insertionSort_func data a b
      else if (limit =? 0)%nat then heapSort_func data a b
      else
        let '(data, limit) :=
          if negb wasBalanced then (breakPatterns_func data a b, (limit - 1)%nat)
          else (data, limit) in
        let '(pivot, hint) := choosePivot_func data a b in
        let '(data, pivot, hint) :=
          match hint with
          | decreasingHint =>
              (reverseRange_func data a b, ((b - 1) - (pivot - a))%nat, increasingHint)
          | _ => (data, pivot, hint)
          end in
        let '(data, sorted) :=
          match hint with
          | increasingHint =>
              if wasBalanced && wasPartitioned then partialInsertionSort_func data a b
              else (data, false)
          | _ => (data, false)
          end in
        if sorted then data
        else if (0 <? a)%nat && negb (Less data (a - 1) pivot) then
          let '(data, mid) := partitionEqual_func data a b pivot in
          pdqsort_loop n' data mid b limit wasBalanced wasPartitioned
        else
          let '(data, mid, alreadyPartitioned) := partition_func data a b pivot in
          let wasPartitioned := alreadyPartitioned in
          let leftLen := (mid - a)%nat in
          let rightLen := (b - mid)%nat in
          let balanceThreshold := (length / 8)%nat in
          if (leftLen <? rightLen)%nat then
            let wasBalanced := (balanceThreshold <=? leftLen)%nat in
            let data := pdqsort_loop n' data a mid limit true true in
            pdqsort_loop n' data (mid + 1) b limit wasBalanced wasPartitioned
          else
            let wasBalanced := (balanceThreshold <=? rightLen)%nat in
            let data := pdqsort_loop n' data (mid + 1) b limit true true in
            pdqsort_loop n' data a mid limit wasBalanced wasPartitioned
  end.

Definition pdqsort_func (data : list A) (a b limit : nat) : list A :=
  pdqsort_loop (S (b - a)) data a b limit true true.

(** [sort.Slice(x, less)]. *)
Definition Slice (x : list A) : list A :=
  let length := length x in
  let limit := bitsLen length in
  pdqsort_func x 0 length limit.

End lessSwap.
End sort.

Definition sortSlice {A} (less : A -> A -> bool) (data : list A) : list A :=
  sort.Slice less data.

(** The closure handed to [sort.Slice] by [assignTaskLoop]. *)
Definition lessVersion (a b : Meta) : bool :=
  IndexMeta.Version (indexMeta a) <=? IndexMeta.Version (indexMeta b).

Definition assignTask (env : Env) (builderClient : types.IndexNode)
    (req : CreateIndexRequest.t) : bool :=
  match CreateIndex env (types.connectedTo builderClient) req with
  | fail _ => false
  | ok resp =>
      if bool_decide (commonpb.ErrorCode_ resp = commonpb.ErrorCode_Success)
      then true else false
  end.

(** The request built for one task of the snapshot. *)
Definition createIndexRequest (meta : Meta) : CreateIndexRequest.t :=
  let indexBuildID := IndexMeta.IndexBuildID (indexMeta meta) in
  let r := IndexMeta.Req (indexMeta meta) in
  {| CreateIndexRequest.IndexBuildID := indexBuildID;
     CreateIndexRequest.IndexName := BuildIndexRequest.IndexName r;
     CreateIndexRequest.IndexID := BuildIndexRequest.IndexID r;
     CreateIndexRequest.Version := wrap64 (IndexMeta.Version (indexMeta meta) + 1);
     CreateIndexRequest.MetaPath := "/indexes/" +:+ Itoa indexBuildID;
     CreateIndexRequest.DataPaths := BuildIndexRequest.DataPaths r;
     CreateIndexRequest.TypeParams := BuildIndexRequest.TypeParams r;
     CreateIndexRequest.IndexParams := BuildIndexRequest.IndexParams r |}.

(** How one round of a [for] loop ends: with the next element, or with
    [break]. *)
Inductive control := Next | Break.

(** The body of [for index, meta := range metas]. *)
Definition assignOne (env : Env) (i : IndexCoord) (index : Z) (meta : Meta)
  : IndexCoord * list Event * control :=
  let indexBuildID := IndexMeta.IndexBuildID (indexMeta meta) in
  let '(mt1, err) := metaTable.UpdateVersion env (metaTable_ i) indexBuildID in
  let i1 := withMeta i mt1 in
  let ev1 := [EvUpdateVersion indexBuildID err] in
  match NodeManager.PeekClient (nodeManager i1) with
  | (_, None) => (i1, ev1, Break)
  | (nodeID, Some builderClient) =>
      let req := createIndexRequest meta in
      if negb (assignTask env builderClient req) then
        (i1, ev1 ++ [EvCreateIndex nodeID req false], Next)
      else
        let '(mt2, err2) := metaTable.BuildIndex env mt1 indexBuildID nodeID in
        let i2 :=
          withPQ (withMeta i1 mt2)
            (NodeManager.IncPriority (NodeManager.pq (nodeManager i1)) nodeID 1) in
        (i2,
         ev1 ++ [EvCreateIndex nodeID req true;
                 EvBuildIndex indexBuildID nodeID err2;
                 EvIncPriority nodeID 1],
         if taskLimit <? index then Break else Next)
  end.

Fixpoint assignLoop (env : Env) (i : IndexCoord) (index : Z) (metas : list Meta)
  : IndexCoord * list Event :=
  match metas with
  | [] => (i, [])
  | meta :: rest =>
      match assignOne env i index meta with
      | (i1, evs, Break) => (i1, evs)
      | (i1, evs, Next) =>
          let '(i2, evs') := assignLoop env i1 (index + 1) rest in
          (i2, evs ++ evs')
      end
  end.

(** The tasks one tick iterates over, in order. *)
Definition tickMetas (env : Env) (i : IndexCoord) : list Meta :=
  let serverIDs := ServerID <$> fst (GetSessions env) in
  sortSlice lessVersion (metaTable.GetUnassignedTasks (metaTable_ i) serverIDs).

(** One firing of [timeTicker.C] in [assignTaskLoop]. *)
Definition assignTick (env : Env) (i : IndexCoord) : IndexCoord * list Event :=
  if Z.of_nat (size (NodeManager.nodeClients (nodeManager i))) <=? 0 then (i, [])
  else assignLoop env i 0 (tickMetas env i).

(** *** The recycle loop *)

(** The body of [for _, meta := range metas] in [recycleUnusedIndexFiles]. *)
Definition recycleOne (env : Env) (i : IndexCoord) (meta : Meta)
  : IndexCoord * list Event :=
  let indexBuildID := IndexMeta.IndexBuildID (indexMeta meta) in
  if IndexMeta.MarkDeleted (indexMeta meta) then
    let unusedIndexFilePathPrefix := Itoa indexBuildID in
    let err := RemoveWithPrefix env unusedIndexFilePathPrefix in
    (withMeta i (metaTable.DeleteIndex (metaTable_ i) indexBuildID),
     [EvRemoveWithPrefix unusedIndexFilePathPrefix err; EvDeleteIndex indexBuildID])
  else
    let removals :=
      (fun j =>
         let unusedIndexFilePathPrefix := Itoa indexBuildID +:+ "/" +:+ Itoa j in
         EvRemoveWithPrefix unusedIndexFilePathPrefix
           (RemoveWithPrefix env unusedIndexFilePathPrefix))
        <$> seqZ 1 (IndexMeta.Version (indexMeta meta) - 1) in
    let '(mt, err) := metaTable.UpdateRecycleState env (metaTable_ i) indexBuildID in
    (withMeta i mt, removals ++ [EvUpdateRecycleState indexBuildID err]).

Fixpoint recycleLoop (env : Env) (i : IndexCoord) (metas : list Meta)
  : IndexCoord * list Event :=
  match metas with
  | [] => (i, [])
  | meta :: rest =>
      let '(i1, evs) := recycleOne env i meta in
      let '(i2, evs') := recycleLoop env i1 rest in
      (i2, evs ++ evs')
  end.

(** One firing of [timeTicker.C] in [recycleUnusedIndexFiles]. *)
Definition recycleTick (env : Env) (i : IndexCoord) : IndexCoord * list Event :=
  recycleLoop env i (metaTable.GetUnusedIndexFiles (metaTable_ i) taskLimit).

(** ** Concrete collaborators and tables used by the examples *)

Module Examples.

Definition accepted : commonpb.Status := success.

(** Collaborators that are described by how the registry, the blob store
    and the workers answer; everything else succeeds. *)
Definition world (save : Meta -> error) (remove : string -> error)
    (create : UniqueID -> CreateIndexRequest.t -> result commonpb.Status) : Env :=
  {| saveIndexMeta := save;
     GetSessions := ([{| ServerID := 1; Address := "node-1" |}], None);
     AllocOne := ok 100;
     ctxDone := false;
     enqueueFull := None;
     RemoveWithPrefix := remove;
     CreateIndex := create;
     GetMetricsRPC := fun _ _ => fail "unreachable";
     ParseMetricType := fun s => ok s;
     SystemInfoMetrics := "system_info";
     MsgUnimplementedMetric := "metric type not implemented";
     ConstructComponentName := fun role id => role +:+ Itoa id;
     MarshalTopology := fun _ => ok "{}";
     UnmarshalComponentInfos := fun _ => fail "bad document";
     msgIndexCoordIsUnhealthy := fun id => "IndexCoord is not ready" |}.

(** Every collaborator succeeds. *)
Definition calm : Env :=
  world (fun _ => None) (fun _ => None) (fun _ _ => ok accepted).

(** The blob store refuses every removal. *)
Definition blobDown : Env :=
  world (fun _ => None) (fun _ => Some "blob store unavailable")
        (fun _ _ => ok accepted).

(** The registry refuses every write. *)
Definition registryConflict : Env :=
  world (fun _ => Some "conflict") (fun _ => None) (fun _ _ => ok accepted).

(** Every worker is unreachable. *)
Definition workersDown : Env :=
  world (fun _ => None) (fun _ => None) (fun _ _ => fail "connection refused").

(** Every worker answers with a failure status. *)
Definition workersRefuse : Env :=
  world (fun _ => None) (fun _ => None)
        (fun _ _ => ok (status commonpb.ErrorCode_UnexpectedError "busy")).

Definition request (indexID : UniqueID) (paths : list string) : BuildIndexRequest.t :=
  {| BuildIndexRequest.IndexBuildID := 0;
     BuildIndexRequest.IndexName := "idx";
     BuildIndexRequest.IndexID := indexID;
     BuildIndexRequest.DataPaths := paths;
     BuildIndexRequest.TypeParams := [];
     BuildIndexRequest.IndexParams := [] |}.

Definition task (id : UniqueID) (st : commonpb.IndexState) (version : Z)
    (deleted recycled : bool) : Meta :=
  {| indexMeta :=
       {| IndexMeta.IndexBuildID := id;
          IndexMeta.State := st;
          IndexMeta.Req := request 7 ["/a"; "/b"];
          IndexMeta.IndexFilePaths := [];
          IndexMeta.MarkDeleted := deleted;
          IndexMeta.NodeID := 0;
          IndexMeta.Version := version;
          IndexMeta.Recycled := recycled |};
     revision := 1 |}.

Definition unissued (id : UniqueID) : Meta :=
  task id commonpb.IndexState_Unissued 0 false false.

Definition oneWorker : NodeManager.t :=
  {| NodeManager.nodeClients := {[ 1 := {| types.connectedTo := 1 |} ]};
     NodeManager.pq := [ {| NodeManager.key := 1; NodeManager.priority := 0 |} ] |}.

Definition coord (code : internalpb.StateCode) (mt : gmap UniqueID Meta) : IndexCoord :=
  {| stateCode := code;
     ID := 42;
     session := {| ServerID := 42; Address := "coord" |};
     metaTable_ := mt;
     nodeManager := oneWorker |}.

(** A table of [n] unissued tasks with ids [1 .. n]. *)
Definition unissuedTable (n : Z) : gmap UniqueID Meta :=
  list_to_map ((fun id => (id, unissued id)) <$> seqZ 1 n).

End Examples.

(** The requests sent to workers by a trace, in order. *)
Definition dispatched (trace : list Event) : list CreateIndexRequest.t :=
  omap (fun e => match e with EvCreateIndex _ req _ => Some req | _ => None end) trace.

(** The tasks whose version a trace asked to bump, in order. *)
Definition bumped (trace : list Event) : list UniqueID :=
  omap (fun e => match e with EvUpdateVersion id _ => Some id | _ => None end) trace.

(** The blob prefixes a trace asked to remove, in order. *)
Definition removedPrefixes (trace : list Event) : list string :=
  omap (fun e => match e with EvRemoveWithPrefix p _ => Some p | _ => None end) trace.

(** The tasks a trace recorded as assigned, in order. *)
Definition assigned (trace : list Event) : list UniqueID :=
  omap (fun e => match e with EvBuildIndex id _ _ => Some id | _ => None end) trace.

(** Ascending by Version. *)
Definition versionLe (a b : Meta) : Prop :=
  IndexMeta.Version (indexMeta a) <= IndexMeta.Version (indexMeta b).

(** What the properties of [sort.Slice] are stated with: a closure that
    compares a key with [<=], the key at an index, a range in ascending
    order, a range rearranged in place, a range above its left neighbour,
    and the heap order of [heapSort_func]. *)
Definition leKey {A} (key : A -> Z) (x y : A) : bool := key x <=? key y.

Definition keyAt {A} (key : A -> Z) (data : list A) (i : nat) : Z :=
  from_option key 0 (data !! i).

Definition sortedOn {A} (key : A -> Z) (data : list A) (a b : nat) : Prop :=
  forall i j, (a <= i)%nat -> (i <= j)%nat -> (j < b)%nat ->
    keyAt key data i <= keyAt key data j.

Definition rearranged {A} (key : A -> Z) (a b : nat) (data data' : list A) : Prop :=
  length data' = length data
  /\ data' ≡ₚ data
  /\ (forall i, (i < a \/ b <= i)%nat -> keyAt key data' i = keyAt key data i)
  /\ (forall P : Z -> Prop,
        (forall i, (a <= i < b)%nat -> P (keyAt key data i)) ->
        forall i, (a <= i < b)%nat -> P (keyAt key data' i)).

Definition aboveLeft {A} (key : A -> Z) (data : list A) (a b : nat) : Prop :=
  (0 < a)%nat ->
  forall i, (a <= i < b)%nat -> keyAt key data (a - 1) < keyAt key data i.

Definition heapOn {A} (key : A -> Z) (data : list A) (first lo hi : nat) : Prop :=
  forall r c, (lo <= r)%nat -> (c = 2 * r + 1 \/ c = 2 * r + 2)%nat -> (c < hi)%nat ->
    keyAt key data (first + c) <= keyAt key data (first + r).

Definition partitioned {A} (key : A -> Z) (data : list A) (a mid b : nat) : Prop :=
  (forall k, (a <= k < mid)%nat -> keyAt key data k <= keyAt key data mid)
  /\ (forall k, (mid < k < b)%nat -> keyAt key data mid < keyAt key data k).

(** ** Further parts of package indexcoord *)

(** The document [getSystemInfoMetrics] hands to [MarshalTopology]. *)
Definition coordTopology (env : Env) (req : string) (coord : IndexCoord)
  : metricsinfo.IndexCoordTopology :=
  let name :=
    ConstructComponentName env typeutil.IndexCoordRole (ServerID (session coord)) in
  {| metricsinfo.Cluster :=
       {| metricsinfo.Self :=
            {| metricsinfo.CoordBase :=
                 {| metricsinfo.HasError := false;
                    metricsinfo.ErrorReason := EmptyString;
                    metricsinfo.Name := name |} |};
          metricsinfo.ConnectedNodes :=
            connectedNode env <$> NodeManager.getMetrics env (nodeManager coord) req |};
     metricsinfo.Connections :=
       {| metricsinfo.ConnName := name;
          metricsinfo.ConnectedComponents := [] |} |}.

(** The pairs (worker, task) of the requests a trace saw accepted, of the
    assignments it recorded, and the priority changes it made, in order. *)
Definition acceptedBy (trace : list Event) : list (UniqueID * UniqueID) :=
  omap (fun e =>
          match e with
          | EvCreateIndex nodeID req true =>
              Some (nodeID, CreateIndexRequest.IndexBuildID req)
          | _ => None
          end) trace.

Definition recordedOn (trace : list Event) : list (UniqueID * UniqueID) :=
  omap (fun e =>
          match e with
          | EvBuildIndex id nodeID _ => Some (nodeID, id)
          | _ => None
          end) trace.

Definition priorityChanges (trace : list Event) : list (UniqueID * Z) :=
  omap (fun e =>
          match e with
          | EvIncPriority nodeID delta => Some (nodeID, delta)
          | _ => None
          end) trace.

(** *** [Init]

    What the collaborators of [Init] answer.  [connectEtcd] is the outcome
    of [retry.Do(i.loopCtx, connectEtcdFn, retry.Attempts(300))]: the
    table [NewMetaTable] loaded, or the error of the last attempt.  The
    worker pool is filled by goroutines ([AddNode]) that run beside the
    priority seeding; [poolAfterInit] is the pool they leave.  The errors
    of [GetSessions] and [NewTSOKVBase] are only logged. *)
Record InitEnv :=
  { connectEtcd : result (gmap UniqueID Meta);
    poolAfterInit : NodeManager.t;
    idAllocatorInitialize : error;
    idAllocatorAllocOne : UniqueID * error;
    NewMinIOKV : error;
    NewTaskScheduler : error }.

Definition withID (i : IndexCoord) (id : UniqueID) : IndexCoord :=
  {| stateCode := stateCode i; ID := id; session := session i;
     metaTable_ := metaTable_ i; nodeManager := nodeManager i |}.

Definition withNodeManager (i : IndexCoord) (nm : NodeManager.t) : IndexCoord :=
  {| stateCode := stateCode i; ID := ID i; session := session i;
     metaTable_ := metaTable_ i; nodeManager := nm |}.

Definition Init (ienv : InitEnv) (i : IndexCoord) : IndexCoord * error :=
  match connectEtcd ienv with
  | fail e => (i, Some e)
  | ok metakv =>
      let i1 := withNodeManager (withMeta i metakv) (poolAfterInit ienv) in
      match idAllocatorInitialize ienv with
      | Some e => (i1, Some e)
      | None =>
          let '(id, err) := idAllocatorAllocOne ienv in
          let i2 := withID i1 id in
          match err with
          | Some e => (i2, Some e)
          | None =>
              match NewMinIOKV ienv with
              | Some e => (i2, Some e)
              | None =>
                  match NewTaskScheduler ienv with
                  | Some e => (i2, Some e)
                  | None => (UpdateStateCode i2 internalpb.StateCode_Healthy, None)
                  end
              end
          end
      end
  end.

(** ** Package indexnode: the worker's side of the metrics fan-out *)

Module indexnode.

(** [Params.NodeID] of the worker and [metricsinfo.MarshalComponentInfos]. *)
Record Params :=
  { NodeID : UniqueID;
    MarshalComponentInfos : metricsinfo.IndexNodeInfos -> result string }.

Definition getSystemInfoMetrics (env : Env) (p : Params)
  : option GetMetricsResponse.t * error :=
  let name := ConstructComponentName env typeutil.IndexNodeRole (NodeID p) in
  let nodeInfos :=
    {| metricsinfo.NodeBase :=
         {| metricsinfo.HasError := false;
            metricsinfo.ErrorReason := EmptyString;
            metricsinfo.Name := name |} |} in
  match MarshalComponentInfos p nodeInfos with
  | fail e =>
      (Some {| GetMetricsResponse.Status := status commonpb.ErrorCode_UnexpectedError e;
               GetMetricsResponse.Response := EmptyString;
               GetMetricsResponse.ComponentName := name |}, None)
  | ok resp =>
      (Some {| GetMetricsResponse.Status := success;
               GetMetricsResponse.Response := resp;
               GetMetricsResponse.ComponentName := name |}, None)
  end.

End indexnode.

(** ** Package datacoord: the RPC surface of [Server]

    The segment metadata, the segment manager, the cluster and the root
    coordinator are not part of this file.  Their state is an abstract
    world [W]; the operations the RPCs call on it are the fields of
    [Collab], and every theorem quantifies over them.  The constants of
    the package ([ServerStateHealthy], [Params], the two segment states
    the RPCs name) are fields as well. *)

Module datacoord.

Definition serverNotServingErrMsg : string := "server is not serving".

Definition two32 : Z := 2 ^ 32.

(** The Go conversion [uint32(x)] of an integer. *)
Definition uint32 (x : Z) : Z := x mod two32.

Module FieldBinlog.
Record t := { FieldID : UniqueID; Binlogs : list string }.
End FieldBinlog.

(** [datapb.SegmentInfo]; [State] is the protobuf enum as its number and
    [StartPosition] a pointer to a message this file never opens. *)
Module SegmentInfo.
Record t :=
  { ID : UniqueID;
    CollectionID : UniqueID;
    PartitionID : UniqueID;
    State : Z;
    Binlogs : list FieldBinlog.t;
    StartPosition : option string }.
End SegmentInfo.

Module FlushRequest.
Record t := { DbID : UniqueID; CollectionID : UniqueID }.
End FlushRequest.

Module FlushResponse.
Record t :=
  { Status : commonpb.Status;
    DbID : UniqueID;
    CollectionID : UniqueID;
    SegmentIDs : list UniqueID }.
End FlushResponse.

Module SegmentIDRequest.
Record t :=
  { Count : Z;
    ChannelName : string;
    CollectionID : UniqueID;
    PartitionID : UniqueID }.
End SegmentIDRequest.

(** What [segmentManager.AllocSegment] returns for one segment. *)
Module Allocation.
Record t := { SegmentID : UniqueID; NumOfRows : Z; ExpireTime : Z }.
End Allocation.

Module SegmentIDAssignment.
Record t :=
  { SegID : UniqueID;
    ChannelName : string;
    Count : Z;
    CollectionID : UniqueID;
    PartitionID : UniqueID;
    ExpireTime : Z;
    Status : commonpb.Status }.
End SegmentIDAssignment.

Module AssignSegmentIDResponse.
Record t :=
  { Status : commonpb.Status;
    SegIDAssignments : list SegmentIDAssignment.t }.
End AssignSegmentIDResponse.

Module SegmentStateInfo.
Record t :=
  { SegmentID : UniqueID;
    State : Z;
    StartPosition : option string;
    Status : commonpb.Status }.
End SegmentStateInfo.

Module GetSegmentStatesResponse.
Record t := { Status : commonpb.Status; States : list SegmentStateInfo.t }.
End GetSegmentStatesResponse.

Module GetInsertBinlogPathsResponse.
Record t :=
  { Status : commonpb.Status;
    FieldIDs : list UniqueID;
    Paths : list (list string) }.
End GetInsertBinlogPathsResponse.

(** The response of [GetCollectionStatistics] and [GetPartitionStatistics]. *)
Module StatisticsResponse.
Record t := { Status : commonpb.Status; Stats : list commonpb.KeyValuePair }.
End StatisticsResponse.

Module GetSegmentInfoResponse.
Record t := { Status : commonpb.Status; Infos : list SegmentInfo.t }.
End GetSegmentInfoResponse.

(** Of the request only what [SaveBinlogPaths] itself reads; the whole
    request goes to [UpdateFlushSegmentsInfo]. *)
Module SaveBinlogPathsRequest.
Record t :=
  { SegmentID : UniqueID;
    CollectionID : UniqueID;
    Flushed : bool;
    Field2BinlogPaths : list FieldBinlog.t }.
End SaveBinlogPathsRequest.

Module GetFlushedSegmentsResponse.
Record t := { Status : commonpb.Status; Segments : list UniqueID }.
End GetFlushedSegmentsResponse.

Record Collab (W : Type) :=
  { (* constants *)
    ServerStateInitializing : Z;
    ServerStateHealthy : Z;
    SegmentState_Flushed : Z;
    SegmentState_Flushing : Z;
    Params_NodeID : UniqueID;
    msgDataCoordIsUnhealthy : UniqueID -> string;
    (* s.meta *)
    GetSegment : W -> UniqueID -> option SegmentInfo.t;
    GetCollection : W -> UniqueID -> bool;
    GetNumRowsOfCollection : W -> UniqueID -> Z;
    GetNumRowsOfPartition : W -> UniqueID -> UniqueID -> Z;
    GetSegmentsOfCollection : W -> UniqueID -> list UniqueID;
    GetSegmentsOfPartition : W -> UniqueID -> UniqueID -> list UniqueID;
    UpdateFlushSegmentsInfo : W -> SaveBinlogPathsRequest.t -> W * error;
    (* s.loadCollectionFromRootCoord, s.cluster, s.segmentManager *)
    loadCollectionFromRootCoord : W -> UniqueID -> W * error;
    Watch : W -> string -> UniqueID -> W;
    AllocSegment :
      W -> UniqueID -> UniqueID -> string -> Z -> W * result (list Allocation.t);
    SealAllSegments : W -> UniqueID -> W * result (list UniqueID);
    DropSegment : W -> UniqueID -> W;
    (* s.getSystemInfoMetrics *)
    serverSystemInfoMetrics : W -> string -> option GetMetricsResponse.t * error }.

Arguments ServerStateInitializing {W} _.
Arguments ServerStateHealthy {W} _.
Arguments SegmentState_Flushed {W} _.
Arguments SegmentState_Flushing {W} _.
Arguments Params_NodeID {W} _.
Arguments msgDataCoordIsUnhealthy {W} _ _.
Arguments GetSegment {W} _ _ _.
Arguments GetCollection {W} _ _ _.
Arguments GetNumRowsOfCollection {W} _ _ _.
Arguments GetNumRowsOfPartition {W} _ _ _ _.
Arguments GetSegmentsOfCollection {W} _ _ _.
Arguments GetSegmentsOfPartition {W} _ _ _ _.
Arguments UpdateFlushSegmentsInfo {W} _ _ _.
Arguments loadCollectionFromRootCoord {W} _ _ _.
Arguments Watch {W} _ _ _ _.
Arguments AllocSegment {W} _ _ _ _ _ _.
Arguments SealAllSegments {W} _ _ _.
Arguments DropSegment {W} _ _ _.
Arguments serverSystemInfoMetrics {W} _ _ _.

(** The server: the serving flag, the state of its collaborators, and the
    segment ids sent on [flushCh] so far. *)
Record Server (W : Type) :=
  { isServing : Z; world : W; flushCh : list UniqueID }.

Arguments isServing {W} _.
Arguments world {W} _.
Arguments flushCh {W} _.

Definition withWorld {W} (s : Server W) (w : W) : Server W :=
  {| isServing := isServing s; world := w; flushCh := flushCh s |}.

Definition isClosed {W} (c : Collab W) (s : Server W) : bool :=
  negb (isServing s =? ServerStateHealthy c).

Definition unexpected (reason : string) : commonpb.Status :=
  status commonpb.ErrorCode_UnexpectedError reason.

Definition Flush {W} (c : Collab W) (s : Server W) (req : FlushRequest.t)
  : Server W * (option FlushResponse.t * error) :=
  let failure reason :=
    {| FlushResponse.Status := unexpected reason;
       FlushResponse.DbID := 0;
       FlushResponse.CollectionID := 0;
       FlushResponse.SegmentIDs := [] |} in
  if isClosed c s then (s, (Some (failure serverNotServingErrMsg), None))
  else
    match SealAllSegments c (world s) (FlushRequest.CollectionID req) with
    | (w, fail err) =>
        (withWorld s w,
         (Some (failure ("failed to flush "
                         +:+ Itoa (FlushRequest.CollectionID req)
                         +:+ ", " +:+ err)), None))
    | (w, ok sealedSegments) =>
        (withWorld s w,
         (Some {| FlushResponse.Status := success;
                  FlushResponse.DbID := FlushRequest.DbID req;
                  FlushResponse.CollectionID := FlushRequest.CollectionID req;
                  FlushResponse.SegmentIDs := sealedSegments |}, None))
    end.

(** The [SegmentIDAssignment] built for one allocation of request [r]. *)
Definition assignmentOf (r : SegmentIDRequest.t) (allocation : Allocation.t)
  : SegmentIDAssignment.t :=
  {| SegmentIDAssignment.SegID := Allocation.SegmentID allocation;
     SegmentIDAssignment.ChannelName := SegmentIDRequest.ChannelName r;
     SegmentIDAssignment.Count := uint32 (Allocation.NumOfRows allocation);
     SegmentIDAssignment.CollectionID := SegmentIDRequest.CollectionID r;
     SegmentIDAssignment.PartitionID := SegmentIDRequest.PartitionID r;
     SegmentIDAssignment.ExpireTime := Allocation.ExpireTime allocation;
     SegmentIDAssignment.Status := success |}.

(** The inner loop [for _, allocation := range allocations]. *)
Fixpoint appendAssignments (r : SegmentIDRequest.t) (allocations : list Allocation.t)
    (assigns : list SegmentIDAssignment.t) : list SegmentIDAssignment.t :=
  match allocations with
  | [] => assigns
  | allocation :: rest =>
      appendAssignments r rest (assigns ++ [assignmentOf r allocation])
  end.

(** The loop [for _, r := range req.SegmentIDRequests] of
    [AssignSegmentID]; [Count] is a [uint32], so [int64(r.Count)] is its
    value. *)
Fixpoint assignSegments {W} (c : Collab W) (w : W)
    (reqs : list SegmentIDRequest.t) (assigns : list SegmentIDAssignment.t)
  : W * list SegmentIDAssignment.t :=
  match reqs with
  | [] => (w, assigns)
  | r :: rest =>
      let loaded :=
        if GetCollection c w (SegmentIDRequest.CollectionID r) then (w, None)
        else loadCollectionFromRootCoord c w (SegmentIDRequest.CollectionID r) in
      match loaded with
      | (w1, Some _) => assignSegments c w1 rest assigns
      | (w1, None) =>
          let w2 :=
            Watch c w1 (SegmentIDRequest.ChannelName r)
                  (SegmentIDRequest.CollectionID r) in
          match AllocSegment c w2 (SegmentIDRequest.CollectionID r)
                  (SegmentIDRequest.PartitionID r) (SegmentIDRequest.ChannelName r)
                  (SegmentIDRequest.Count r) with
          | (w3, fail _) => assignSegments c w3 rest assigns
          | (w3, ok allocations) =>
              assignSegments c w3 rest (appendAssignments r allocations assigns)
          end
      end
  end.

Definition AssignSegmentID {W} (c : Collab W) (s : Server W)
    (SegmentIDRequests : list SegmentIDRequest.t)
  : Server W * (option AssignSegmentIDResponse.t * error) :=
  if isClosed c s then
    (s, (Some {| AssignSegmentIDResponse.Status := unexpected serverNotServingErrMsg;
                 AssignSegmentIDResponse.SegIDAssignments := [] |}, None))
  else
    let '(w, assigns) := assignSegments c (world s) SegmentIDRequests [] in
    (withWorld s w,
     (Some {| AssignSegmentIDResponse.Status := success;
              AssignSegmentIDResponse.SegIDAssignments := assigns |}, None)).

(** The entry [GetSegmentStates] builds for one id. *)
Definition segmentStateOf {W} (c : Collab W) (w : W) (segmentID : UniqueID)
  : SegmentStateInfo.t :=
  match GetSegment c w segmentID with
  | None =>
      {| SegmentStateInfo.SegmentID := segmentID;
         SegmentStateInfo.State := 0;
         SegmentStateInfo.StartPosition := None;
         SegmentStateInfo.Status :=
           unexpected ("failed to get segment " +:+ Itoa segmentID) |}
  | Some segmentInfo =>
      {| SegmentStateInfo.SegmentID := segmentID;
         SegmentStateInfo.State := SegmentInfo.State segmentInfo;
         SegmentStateInfo.StartPosition := SegmentInfo.StartPosition segmentInfo;
         SegmentStateInfo.Status := success |}
  end.

Fixpoint collectStates {W} (c : Collab W) (w : W) (ids : list UniqueID)
    (states : list SegmentStateInfo.t) : list SegmentStateInfo.t :=
  match ids with
  | [] => states
  | segmentID :: rest =>
      collectStates c w rest (states ++ [segmentStateOf c w segmentID])
  end.

Definition GetSegmentStates {W} (c : Collab W) (s : Server W)
    (SegmentIDs : list UniqueID)
  : option GetSegmentStatesResponse.t * error :=
  if isClosed c s then
    (Some {| GetSegmentStatesResponse.Status := unexpected serverNotServingErrMsg;
             GetSegmentStatesResponse.States := [] |}, None)
  else
    (Some {| GetSegmentStatesResponse.Status := success;
             GetSegmentStatesResponse.States :=
               collectStates c (world s) SegmentIDs [] |}, None).

(** The loop over the binlogs of a segment in [GetInsertBinlogPaths]: two
    slices grown side by side. *)
Fixpoint collectBinlogs (binlogs : list FieldBinlog.t) (fids : list UniqueID)
    (paths : list (list string)) : list UniqueID * list (list string) :=
  match binlogs with
  | [] => (fids, paths)
  | field :: rest =>
      collectBinlogs rest (fids ++ [FieldBinlog.FieldID field])
                     (paths ++ [FieldBinlog.Binlogs field])
  end.

Definition GetInsertBinlogPaths {W} (c : Collab W) (s : Server W)
    (SegmentID : UniqueID)
  : option GetInsertBinlogPathsResponse.t * error :=
  let failure reason :=
    {| GetInsertBinlogPathsResponse.Status := unexpected reason;
       GetInsertBinlogPathsResponse.FieldIDs := [];
       GetInsertBinlogPathsResponse.Paths := [] |} in
  if isClosed c s then (Some (failure serverNotServingErrMsg), None)
  else
    match GetSegment c (world s) SegmentID with
    | None => (Some (failure "segment not found"), None)
    | Some segment =>
        let '(fids, paths) := collectBinlogs (SegmentInfo.Binlogs segment) [] [] in
        (Some {| GetInsertBinlogPathsResponse.Status := success;
                 GetInsertBinlogPathsResponse.FieldIDs := fids;
                 GetInsertBinlogPathsResponse.Paths := paths |}, None)
    end.

Definition rowCount (nums : Z) : commonpb.KeyValuePair :=
  {| commonpb.Key := "row_count"; commonpb.Value := Itoa nums |}.

Definition GetCollectionStatistics {W} (c : Collab W) (s : Server W)
    (CollectionID : UniqueID) : option StatisticsResponse.t * error :=
  if isClosed c s then
    (Some {| StatisticsResponse.Status := unexpected serverNotServingErrMsg;
             StatisticsResponse.Stats := [] |}, None)
  else
    let nums := GetNumRowsOfCollection c (world s) CollectionID in
    (Some {| StatisticsResponse.Status := success;
             StatisticsResponse.Stats := [] ++ [rowCount nums] |}, None).

Definition GetPartitionStatistics {W} (c : Collab W) (s : Server W)
    (CollectionID PartitionID : UniqueID) : option StatisticsResponse.t * error :=
  if isClosed c s then
    (Some {| StatisticsResponse.Status := unexpected serverNotServingErrMsg;
             StatisticsResponse.Stats := [] |}, None)
  else
    let nums := GetNumRowsOfPartition c (world s) CollectionID PartitionID in
    (Some {| StatisticsResponse.Status := success;
             StatisticsResponse.Stats := [] ++ [rowCount nums] |}, None).

(** The loop of [GetSegmentInfo]: the first unknown id ends the call with
    its reason. *)
Fixpoint collectInfos {W} (c : Collab W) (w : W) (ids : list UniqueID)
    (infos : list SegmentInfo.t) : result (list SegmentInfo.t) :=
  match ids with
  | [] => ok infos
  | id :: rest =>
      match GetSegment c w id with
      | None => fail ("failed to get segment " +:+ Itoa id)
      | Some info => collectInfos c w rest (infos ++ [info])
      end
  end.

Definition GetSegmentInfo {W} (c : Collab W) (s : Server W)
    (SegmentIDs : list UniqueID) : option GetSegmentInfoResponse.t * error :=
  if isClosed c s then
    (Some {| GetSegmentInfoResponse.Status := unexpected serverNotServingErrMsg;
             GetSegmentInfoResponse.Infos := [] |}, None)
  else
    match collectInfos c (world s) SegmentIDs [] with
    | fail reason =>
        (Some {| GetSegmentInfoResponse.Status := unexpected reason;
                 GetSegmentInfoResponse.Infos := [] |}, None)
    | ok infos =>
        (Some {| GetSegmentInfoResponse.Status := success;
                 GetSegmentInfoResponse.Infos := infos |}, None)
    end.

Definition SaveBinlogPaths {W} (c : Collab W) (s : Server W)
    (req : SaveBinlogPathsRequest.t)
  : Server W * (option commonpb.Status * error) :=
  if isClosed c s then (s, (Some (unexpected serverNotServingErrMsg), None))
  else
    match UpdateFlushSegmentsInfo c (world s) req with
    | (w, Some err) => (withWorld s w, (Some (unexpected err), None))
    | (w, None) =>
        if SaveBinlogPathsRequest.Flushed req then
          ({| isServing := isServing s;
              world := DropSegment c w (SaveBinlogPathsRequest.SegmentID req);
              flushCh := flushCh s ++ [SaveBinlogPathsRequest.SegmentID req] |},
           (Some success, None))
        else (withWorld s w, (Some success, None))
    end.

Definition GetComponentStates {W} (c : Collab W) (s : Server W)
  : option internalpb.ComponentStates * error :=
  let state := isServing s in
  let code :=
    if state =? ServerStateInitializing c then internalpb.StateCode_Initializing
    else if state =? ServerStateHealthy c then internalpb.StateCode_Healthy
    else internalpb.StateCode_Abnormal in
  (Some {| internalpb.State :=
             {| internalpb.NodeID := Params_NodeID c;
                internalpb.Role := "datacoord";
                internalpb.StateCode_ := code |};
           internalpb.SubcomponentStates := [];
           internalpb.Status := success |}, None).

(** The loop of [GetFlushedSegments]. *)
Fixpoint collectFlushed {W} (c : Collab W) (w : W) (segmentIDs ret : list UniqueID)
  : list UniqueID :=
  match segmentIDs with
  | [] => ret
  | id :: rest =>
      match GetSegment c w id with
      | None => collectFlushed c w rest ret
      | Some seg =>
          if negb (SegmentInfo.State seg =? SegmentState_Flushed c)
          then collectFlushed c w rest ret
          else collectFlushed c w rest (ret ++ [id])
      end
  end.

Definition GetFlushedSegments {W} (c : Collab W) (s : Server W)
    (CollectionID PartitionID : UniqueID)
  : option GetFlushedSegmentsResponse.t * error :=
  let segmentIDs :=
    if PartitionID <? 0 then GetSegmentsOfCollection c (world s) CollectionID
    else GetSegmentsOfPartition c (world s) CollectionID PartitionID in
  (Some {| GetFlushedSegmentsResponse.Status := success;
           GetFlushedSegmentsResponse.Segments :=
             collectFlushed c (world s) segmentIDs [] |}, None).

Definition GetMetrics {W} (env : Env) (c : Collab W) (s : Server W)
    (Request : string) : option GetMetricsResponse.t * error :=
  if isClosed c s then
    (Some (metricsFailure (msgDataCoordIsUnhealthy c (Params_NodeID c))), None)
  else
    match ParseMetricType env Request with
    | fail e => (Some (metricsFailure e), None)
    | ok metricType =>
        if bool_decide (metricType = SystemInfoMetrics env)
        then serverSystemInfoMetrics c (world s) Request
        else (Some (metricsFailure (MsgUnimplementedMetric env)), None)
    end.

End datacoord.

(** [strconv.ParseInt(s, 10, 64)] on a string [strconv.FormatInt] wrote:
    the reading of a decimal numeral, used to state what the callers of
    the statistics RPCs get back. *)
Definition parseDecimal (s : string) : option Z :=
  Z.of_int <$> NilZero.int_of_string s.


(** Two versions of a record that differ at most in what the assignment
    loop writes: State, NodeID, Version and the revision. *)
Definition reassigned (m m' : Meta) : Prop :=
  IndexMeta.IndexBuildID (indexMeta m') = IndexMeta.IndexBuildID (indexMeta m)
  /\ IndexMeta.Req (indexMeta m') = IndexMeta.Req (indexMeta m)
  /\ IndexMeta.IndexFilePaths (indexMeta m') = IndexMeta.IndexFilePaths (indexMeta m)
  /\ IndexMeta.MarkDeleted (indexMeta m') = IndexMeta.MarkDeleted (indexMeta m)
  /\ IndexMeta.Recycled (indexMeta m') = IndexMeta.Recycled (indexMeta m).

(** Two versions of a record that differ at most in what the recycle loop
    writes: the Recycled flag, which is only ever set, and the revision. *)
Definition recycledOnly (m m' : Meta) : Prop :=
  IndexMeta.IndexBuildID (indexMeta m') = IndexMeta.IndexBuildID (indexMeta m)
  /\ IndexMeta.State (indexMeta m') = IndexMeta.State (indexMeta m)
  /\ IndexMeta.Req (indexMeta m') = IndexMeta.Req (indexMeta m)
  /\ IndexMeta.IndexFilePaths (indexMeta m') = IndexMeta.IndexFilePaths (indexMeta m)
  /\ IndexMeta.MarkDeleted (indexMeta m') = IndexMeta.MarkDeleted (indexMeta m)
  /\ IndexMeta.NodeID (indexMeta m') = IndexMeta.NodeID (indexMeta m)
  /\ IndexMeta.Version (indexMeta m') = IndexMeta.Version (indexMeta m)
  /\ (IndexMeta.Recycled (indexMeta m) = true ->
      IndexMeta.Recycled (indexMeta m') = true).

(** ** Concrete collaborators used by the further examples *)

Module MoreExamples.

(** A codec for the metrics documents: the document of a worker is its
    name. *)
Definition codecEnv : Env :=
  {| saveIndexMeta := fun _ => None;
     GetSessions := ([], None);
     AllocOne := ok 100;
     ctxDone := true;
     enqueueFull := None;
     RemoveWithPrefix := fun _ => None;
     CreateIndex := fun _ _ => fail "unreachable";
     GetMetricsRPC := fun _ _ => fail "unreachable";
     ParseMetricType := fun s => ok s;
     SystemInfoMetrics := "system_info";
     MsgUnimplementedMetric := "metric type not implemented";
     ConstructComponentName := fun role id => role +:+ Itoa id;
     MarshalTopology := fun _ => ok "{}";
     UnmarshalComponentInfos :=
       fun doc =>
         ok {| metricsinfo.NodeBase :=
                 {| metricsinfo.HasError := false;
                    metricsinfo.ErrorReason := EmptyString;
                    metricsinfo.Name := doc |} |};
     msgIndexCoordIsUnhealthy := fun id => "IndexCoord is not ready" |}.

Definition worker : indexnode.Params :=
  {| indexnode.NodeID := 3;
     indexnode.MarshalComponentInfos :=
       fun infos => ok (metricsinfo.Name (metricsinfo.NodeBase infos)) |}.

(** The allocator cannot be initialised. *)
Definition allocatorDown : InitEnv :=
  {| connectEtcd := ok ∅;
     poolAfterInit := Examples.oneWorker;
     idAllocatorInitialize := Some "allocator unavailable";
     idAllocatorAllocOne := (0, None);
     NewMinIOKV := None;
     NewTaskScheduler := None |}.

(** Worker clients are registered but the priority queue is empty. *)
Definition noQueue : IndexCoord :=
  {| stateCode := internalpb.StateCode_Healthy;
     ID := 42;
     session := {| ServerID := 42; Address := "coord" |};
     metaTable_ := {[ 1 := Examples.unissued 1 ]};
     nodeManager :=
       {| NodeManager.nodeClients := {[ 1 := {| types.connectedTo := 1 |} ]};
          NodeManager.pq := [] |} |}.

Definition segment (id state : Z) : datacoord.SegmentInfo.t :=
  {| datacoord.SegmentInfo.ID := id;
     datacoord.SegmentInfo.CollectionID := 1;
     datacoord.SegmentInfo.PartitionID := 1;
     datacoord.SegmentInfo.State := state;
     datacoord.SegmentInfo.Binlogs :=
       [ {| datacoord.FieldBinlog.FieldID := 100;
            datacoord.FieldBinlog.Binlogs := ["log-1"; "log-2"] |} ];
     datacoord.SegmentInfo.StartPosition := None |}.

(** A data coordinator whose world is the list of its segments. *)
Definition collab : datacoord.Collab (list datacoord.SegmentInfo.t) :=
  {| datacoord.ServerStateInitializing := 1;
     datacoord.ServerStateHealthy := 2;
     datacoord.SegmentState_Flushed := 4;
     datacoord.SegmentState_Flushing := 5;
     datacoord.Params_NodeID := 9;
     datacoord.msgDataCoordIsUnhealthy := fun _ => "DataCoord is not ready";
     datacoord.GetSegment :=
       fun w id => List.find (fun seg => datacoord.SegmentInfo.ID seg =? id) w;
     datacoord.GetCollection := fun _ _ => true;
     datacoord.GetNumRowsOfCollection := fun w _ => Z.of_nat (length w);
     datacoord.GetNumRowsOfPartition := fun w _ _ => Z.of_nat (length w);
     datacoord.GetSegmentsOfCollection := fun w _ => datacoord.SegmentInfo.ID <$> w;
     datacoord.GetSegmentsOfPartition := fun w _ _ => datacoord.SegmentInfo.ID <$> w;
     datacoord.UpdateFlushSegmentsInfo := fun w _ => (w, None);
     datacoord.loadCollectionFromRootCoord := fun w _ => (w, None);
     datacoord.Watch := fun w _ _ => w;
     datacoord.AllocSegment :=
       fun w _ _ _ n =>
         (w, ok [ {| datacoord.Allocation.SegmentID := 7;
                     datacoord.Allocation.NumOfRows := n;
                     datacoord.Allocation.ExpireTime := 0 |} ]);
     datacoord.SealAllSegments := fun w _ => (w, ok (datacoord.SegmentInfo.ID <$> w));
     datacoord.DropSegment :=
       fun w id =>
         List.filter (fun seg => negb (datacoord.SegmentInfo.ID seg =? id)) w;
     datacoord.serverSystemInfoMetrics := fun _ _ => (None, Some "unavailable") |}.

Definition server (flag : Z) : datacoord.Server (list datacoord.SegmentInfo.t) :=
  {| datacoord.isServing := flag;
     datacoord.world := [segment 1 4; segment 2 2];
     datacoord.flushCh := [] |}.

End MoreExamples.

(** ** The table between two admissions *)

(** What the scan of [HasSameReq] relies on: every record is stored under
    its own build id, and no two live records (MarkDeleted = false) carry
    the same fingerprint.  An empty table is so, and the operations below
    keep a table so. *)
Definition wellFormed (mt : gmap UniqueID Meta) : Prop :=
  (forall k m, mt !! k = Some m -> IndexMeta.IndexBuildID (indexMeta m) = k)
  /\ (forall k1 k2 m1 m2,
        mt !! k1 = Some m1 -> mt !! k2 = Some m2 ->
        IndexMeta.MarkDeleted (indexMeta m1) = false ->
        IndexMeta.MarkDeleted (indexMeta m2) = false ->
        metaTable.fingerprint (IndexMeta.Req (indexMeta m1))
        = metaTable.fingerprint (IndexMeta.Req (indexMeta m2)) ->
        k1 = k2).

(** The table holds, under [id], a live record with the fingerprint of
    [req] and the build id [id]. *)
Definition liveRecord (mt : gmap UniqueID Meta) (req : BuildIndexRequest.t)
    (id : UniqueID) : Prop :=
  exists m,
    mt !! id = Some m
    /\ IndexMeta.IndexBuildID (indexMeta m) = id
    /\ metaTable.fingerprint (IndexMeta.Req (indexMeta m)) = metaTable.fingerprint req
    /\ IndexMeta.MarkDeleted (indexMeta m) = false.

(** Two versions of a record of the same task: the build id, the request
    and the MarkDeleted flag are the same. *)
Definition sameTask (m m' : Meta) : Prop :=
  IndexMeta.IndexBuildID (indexMeta m') = IndexMeta.IndexBuildID (indexMeta m)
  /\ IndexMeta.Req (indexMeta m') = IndexMeta.Req (indexMeta m)
  /\ IndexMeta.MarkDeleted (indexMeta m') = IndexMeta.MarkDeleted (indexMeta m).

(** What may happen to the coordinator between two admissions when no
    [DropIndex] intervenes: another admission, a tick of the assignment
    loop, a tick of the recycle loop, a change of the state code, with
    whatever collaborators; and a rewrite of records that neither adds nor
    removes one and keeps every record the record of its task (what a
    worker's commit does to the table).  [GetIndexStates],
    [GetIndexFilePaths], [GetMetrics] and [GetComponentStates] return no
    coordinator: they leave it as it is. *)
Inductive tableStep : IndexCoord -> IndexCoord -> Prop :=
  | step_BuildIndex (env : Env) (i : IndexCoord) (req : BuildIndexRequest.t) :
      tableStep i (fst (BuildIndex env i req))
  | step_assignTick (env : Env) (i : IndexCoord) :
      tableStep i (fst (assignTick env i))
  | step_recycleTick (env : Env) (i : IndexCoord) :
      tableStep i (fst (recycleTick env i))
  | step_UpdateStateCode (i : IndexCoord) (code : internalpb.StateCode) :
      tableStep i (UpdateStateCode i code)
  | step_rewrite (i : IndexCoord) (mt : gmap UniqueID Meta) :
      (forall k, option_Forall2 sameTask (metaTable_ i !! k) (mt !! k)) ->
      tableStep i (withMeta i mt).

(** ** The blob store *)

(** Modelled from the spec: the key of an index file, "Blob-store layout.
    {IndexBuildID}/{Version}/... — recycle uses these prefixes". *)
Definition blobKey (indexBuildID version : Z) (file : string) : string :=
  Itoa indexBuildID +:+ "/" +:+ Itoa version +:+ "/" +:+ file.

(** Modelled from the spec: the blob store, "external object store with
    prefix-scoped delete": a store is the list of its keys, and
    RemoveWithPrefix drops every key that starts with the prefix. *)
Definition removeWithPrefix (prefix : string) (store : list string) : list string :=
  List.filter (fun key => negb (String.prefix prefix key)) store.

(** The store after the removals of a trace, those the store did not
    refuse. *)
Definition afterRemovals (trace : list Event) (store : list string) : list string :=
  foldl (fun store e =>
           match e with
           | EvRemoveWithPrefix prefix None => removeWithPrefix prefix store
           | _ => store
           end) store trace.

(** * Properties *)

(** ** Health and the RPC surface *)

Lemma GetComponentStates_any_state (i : IndexCoord) :
  exists ret,
    GetComponentStates i = (Some ret, None)
    /\ commonpb.ErrorCode_ (internalpb.Status ret) = commonpb.ErrorCode_Success
    /\ internalpb.StateCode_ (internalpb.State ret) = stateCode i.
Proof. eexists. split; [reflexivity|]. split; reflexivity. Qed.

(** C10. Whatever state code the coordinator holds, [GetComponentStates]
    answers with a Success status and reports exactly that state code; it
    does not look at the health of the coordinator.  This includes
    Abnormal, the state a coordinator built by [NewIndexCoord] is in. *)
Theorem GetComponentStates_never_gated :
  (forall (i : IndexCoord) (code : internalpb.StateCode),
     exists ret,
       GetComponentStates (UpdateStateCode i code) = (Some ret, None)
       /\ commonpb.ErrorCode_ (internalpb.Status ret) = commonpb.ErrorCode_Success
       /\ internalpb.StateCode_ (internalpb.State ret) = code)
  /\ stateCode NewIndexCoord = internalpb.StateCode_Abnormal
  /\ isHealthy NewIndexCoord = false
  /\ exists ret,
       GetComponentStates NewIndexCoord = (Some ret, None)
       /\ commonpb.ErrorCode_ (internalpb.Status ret) = commonpb.ErrorCode_Success
       /\ internalpb.StateCode_ (internalpb.State ret) = internalpb.StateCode_Abnormal.
Proof.
  split.
  - intros i code.
    destruct (GetComponentStates_any_state (UpdateStateCode i code))
      as (ret & Hret & Hok & Hcode).
    exists ret. repeat split; assumption.
  - repeat split. eexists. repeat split.
Qed.

(** [GetMetrics] is the one RPC that looks at the state code: when the
    coordinator is not Healthy it answers at once with the unhealthy
    reason and consults no collaborator. *)
Lemma GetMetrics_unhealthy (env : Env) (i : IndexCoord) (Request : string) :
  stateCode i <> internalpb.StateCode_Healthy ->
  GetMetrics env i Request
  = (Some (metricsFailure (msgIndexCoordIsUnhealthy env (ID i))), None).
Proof.
  intros Hne. unfold GetMetrics, isHealthy.
  rewrite bool_decide_eq_false_2 by assumption. reflexivity.
Qed.

(** The other four client RPCs never read the state code: their result is
    the same whatever it is. *)
Lemma rpcs_ignore_stateCode (env : Env) (i : IndexCoord)
    (code : internalpb.StateCode) (req : BuildIndexRequest.t)
    (ids : list UniqueID) (indexID : UniqueID) :
  snd (BuildIndex env (UpdateStateCode i code) req) = snd (BuildIndex env i req)
  /\ GetIndexStates (UpdateStateCode i code) ids = GetIndexStates i ids
  /\ GetIndexFilePaths (UpdateStateCode i code) ids = GetIndexFilePaths i ids
  /\ snd (DropIndex env (UpdateStateCode i code) indexID) = snd (DropIndex env i indexID).
Proof.
  repeat split.
  - unfold BuildIndex, UpdateStateCode, withStateCode. simpl.
    destruct (metaTable.HasSameReq (metaTable_ i) req) as [[] id]; [reflexivity|].
    destruct (if ctxDone env then _ else _) as [id'|e]; [|reflexivity].
    destruct (WaitToFinish env (metaTable_ i) id' req) as [mt [e|]]; reflexivity.
  - unfold DropIndex, metaTable.MarkIndexAsDeleted, UpdateStateCode, withStateCode.
    simpl. destruct (head _); reflexivity.
Qed.

(** C2. The claim fails on the code: on a coordinator whose state code is
    Abnormal, [GetIndexStates], [GetIndexFilePaths], [BuildIndex] and
    [DropIndex] do their work and answer Success; [DropIndex] marks the
    record and [BuildIndex] creates a new one. *)
Theorem unhealthy_coordinator_still_serves :
  let mt : gmap UniqueID Meta :=
    {[ 7 := Examples.task 7 commonpb.IndexState_Finished 1 false false ]} in
  let i := Examples.coord internalpb.StateCode_Abnormal mt in
  isHealthy i = false
  /\ GetIndexStates i [7]
     = (Some {| GetIndexStatesResponse.Status := success;
                GetIndexStatesResponse.States :=
                  [ {| IndexInfo.State := commonpb.IndexState_Finished;
                       IndexInfo.IndexBuildID := 7 |} ] |}, None)
  /\ GetIndexFilePaths i [7]
     = (Some {| GetIndexFilePathsResponse.Status := success;
                GetIndexFilePathsResponse.FilePaths :=
                  [ {| IndexFilePathInfo.IndexBuildID := 7;
                       IndexFilePathInfo.IndexFilePaths := [] |} ] |}, None)
  /\ snd (DropIndex Examples.calm i 7)
     = (Some success, None)
  /\ (IndexMeta.MarkDeleted ∘ indexMeta)
       <$> (metaTable_ (fst (DropIndex Examples.calm i 7)) !! 7) = Some true
  /\ snd (BuildIndex Examples.calm i (Examples.request 8 ["/c"]))
     = (Some (buildIndexResponse commonpb.ErrorCode_Success EmptyString 100), None)
  /\ is_Some (metaTable_ (fst (BuildIndex Examples.calm i (Examples.request 8 ["/c"])))
              !! 100).
Proof.
  cbv zeta. repeat split; try (vm_compute; reflexivity).
  vm_compute. eexists. reflexivity.
Qed.

(** ** Where failures are reported *)

Lemma collectIndexPaths_fails (mt : gmap UniqueID Meta) (ids : list UniqueID) :
  forall (acc : list IndexFilePathInfo.t) (id : UniqueID) (e : string),
    id ∈ ids ->
    metaTable.GetIndexFilePathInfo mt id = fail e ->
    exists e', collectIndexPaths mt ids acc = fail e'.
Proof.
  induction ids as [|x ids IH]; intros acc id e Hin Hfail.
  - inversion Hin.
  - simpl. destruct (metaTable.GetIndexFilePathInfo mt x) as [info|e0] eqn:Hx.
    + apply elem_of_cons in Hin as [->|Hin]; [congruence|].
      eapply IH; eassumption.
    + eauto.
Qed.

(** As soon as one requested id is unknown or not Finished,
    [GetIndexFilePaths] returns a nil response together with a Go error. *)
Lemma GetIndexFilePaths_failure_is_go_error (i : IndexCoord)
    (ids : list UniqueID) (id : UniqueID) (e : string) :
  id ∈ ids ->
  metaTable.GetIndexFilePathInfo (metaTable_ i) id = fail e ->
  exists e', GetIndexFilePaths i ids = (None, Some e').
Proof.
  intros Hin Hfail. unfold GetIndexFilePaths.
  destruct (collectIndexPaths_fails (metaTable_ i) ids [] id e Hin Hfail) as [e' ->].
  eauto.
Qed.

(** The other client RPCs always return a response and a nil Go error;
    their failures travel in the status of the response. *)
Lemma other_rpcs_return_nil_error (env : Env) (i : IndexCoord)
    (req : BuildIndexRequest.t) (ids : list UniqueID) (indexID : UniqueID)
    (Request : string) :
  (exists resp, snd (BuildIndex env i req) = (Some resp, None))
  /\ (exists resp, GetIndexStates i ids = (Some resp, None))
  /\ (exists resp, snd (DropIndex env i indexID) = (Some resp, None))
  /\ (exists resp, GetMetrics env i Request = (Some resp, None)).
Proof.
  repeat split.
  - unfold BuildIndex.
    destruct (metaTable.HasSameReq (metaTable_ i) req) as [[] id]; [eauto|].
    destruct (if ctxDone env then _ else _) as [id'|e]; [|eauto].
    destruct (WaitToFinish env (metaTable_ i) id' req) as [mt [e|]]; eauto.
  - unfold GetIndexStates. eauto.
  - unfold DropIndex.
    destruct (metaTable.MarkIndexAsDeleted env (metaTable_ i) indexID) as [mt [e|]];
      eauto.
  - unfold GetMetrics. destruct (negb (isHealthy i)); [eauto|].
    destruct (ParseMetricType env Request) as [mty|e]; [|eauto].
    case_bool_decide; [|eauto].
    unfold getSystemInfoMetrics.
    destruct (MarshalTopology env _); eauto.
Qed.

(** C7. The claim fails on the code for [GetIndexFilePaths]: asked for an
    unknown id, or for the id of a task that is still InProgress, it
    returns no response at all and a non-nil Go error. *)
Theorem GetIndexFilePaths_returns_go_error :
  let mt : gmap UniqueID Meta :=
    {[ 7 := Examples.task 7 commonpb.IndexState_InProgress 1 false false ]} in
  let i := Examples.coord internalpb.StateCode_Healthy mt in
  GetIndexFilePaths i [8] = (None, Some "index not exists")
  /\ GetIndexFilePaths i [7] = (None, Some "index not finished").
Proof. split; vm_compute; reflexivity. Qed.

(** ** Admission is idempotent *)

Lemma value_in_table (mt : gmap UniqueID Meta) (m : Meta) :
  In m (snd <$> map_to_list mt) <-> exists k, mt !! k = Some m.
Proof.
  rewrite <- list_elem_of_In, list_elem_of_fmap. split.
  - intros [[k m'] [-> Hin]]. exists k. by apply elem_of_map_to_list.
  - intros [k Hk]. exists (k, m). split; [done|]. by apply elem_of_map_to_list.
Qed.

Lemma HasSameReq_hit (mt : gmap UniqueID Meta) (req : BuildIndexRequest.t)
    (id : UniqueID) :
  metaTable.HasSameReq mt req = (true, id) ->
  exists k m,
    mt !! k = Some m /\ metaTable.sameReq req m = true
    /\ IndexMeta.IndexBuildID (indexMeta m) = id.
Proof.
  unfold metaTable.HasSameReq.
  destruct (find _ _) as [m|] eqn:Hfind; [|discriminate].
  intros [= <-]. apply find_some in Hfind as [Hin Hsame].
  apply value_in_table in Hin as [k Hk]. eauto.
Qed.

Lemma HasSameReq_miss (mt : gmap UniqueID Meta) (req : BuildIndexRequest.t)
    (id : UniqueID) :
  metaTable.HasSameReq mt req = (false, id) ->
  forall k m, mt !! k = Some m -> metaTable.sameReq req m = false.
Proof.
  unfold metaTable.HasSameReq.
  destruct (find _ _) as [m|] eqn:Hfind; [discriminate|].
  intros _ k m Hk. eapply find_none; [exact Hfind|].
  apply value_in_table. eauto.
Qed.

Lemma HasSameReq_some (mt : gmap UniqueID Meta) (req : BuildIndexRequest.t)
    (k : UniqueID) (m : Meta) :
  mt !! k = Some m -> metaTable.sameReq req m = true ->
  exists id, metaTable.HasSameReq mt req = (true, id).
Proof.
  intros Hk Hsame. unfold metaTable.HasSameReq.
  destruct (find _ _) as [m'|] eqn:Hfind; [eauto|].
  eapply find_none in Hfind; [|apply value_in_table; eauto]. congruence.
Qed.

(** When one live record carries the fingerprint of the request, the scan
    returns its id in whatever order the entries are visited. *)
Lemma HasSameReq_unique (mt : gmap UniqueID Meta) (req : BuildIndexRequest.t)
    (k : UniqueID) (m : Meta) :
  mt !! k = Some m -> metaTable.sameReq req m = true ->
  (forall k' m', mt !! k' = Some m' -> metaTable.sameReq req m' = true ->
                 IndexMeta.IndexBuildID (indexMeta m')
                 = IndexMeta.IndexBuildID (indexMeta m)) ->
  metaTable.HasSameReq mt req = (true, IndexMeta.IndexBuildID (indexMeta m)).
Proof.
  intros Hk Hsame Honly.
  destruct (HasSameReq_some _ _ _ _ Hk Hsame) as [id Hhit].
  destruct (HasSameReq_hit _ _ _ Hhit) as (k' & m' & Hk' & Hsame' & <-).
  rewrite Hhit. f_equal. eapply Honly; eassumption.
Qed.

Lemma sameReq_fingerprint (r1 r2 : BuildIndexRequest.t) (m : Meta) :
  metaTable.fingerprint r1 = metaTable.fingerprint r2 ->
  metaTable.sameReq r1 m = metaTable.sameReq r2 m.
Proof. intros H. unfold metaTable.sameReq. by rewrite H. Qed.

Lemma find_pointwise {A} (f g : A -> bool) (l : list A) :
  (forall x, f x = g x) -> find f l = find g l.
Proof.
  intros Hfg. induction l as [|x l IH]; [reflexivity|].
  simpl. rewrite Hfg, IH. reflexivity.
Qed.

(** A request whose fingerprint a live record already carries is answered
    from the table: Success, the id stored in a matching record, and the
    coordinator is left as it was (no id is allocated, no record is
    written). *)
Lemma BuildIndex_existing (env : Env) (i : IndexCoord)
    (req : BuildIndexRequest.t) (k : UniqueID) (m : Meta) :
  metaTable_ i !! k = Some m ->
  metaTable.sameReq req m = true ->
  exists k' m',
    metaTable_ i !! k' = Some m' /\ metaTable.sameReq req m' = true
    /\ BuildIndex env i req
       = (i, (Some (buildIndexResponse commonpb.ErrorCode_Success
                      "already have same index"
                      (IndexMeta.IndexBuildID (indexMeta m'))), None)).
Proof.
  intros Hk Hsame.
  destruct (HasSameReq_some _ _ _ _ Hk Hsame) as [id Hhit].
  destruct (HasSameReq_hit _ _ _ Hhit) as (k' & m' & Hk' & Hsame' & <-).
  exists k', m'. repeat split; try assumption.
  unfold BuildIndex. rewrite Hhit. reflexivity.
Qed.

(** After a successful [BuildIndex] the scan of the table for the same
    request finds the id that was returned: either the call was answered
    from the table, or it added the only live record with that
    fingerprint. *)
Lemma BuildIndex_success_inv (env : Env) (i i1 : IndexCoord)
    (req : BuildIndexRequest.t) (resp : BuildIndexResponse.t) :
  BuildIndex env i req = (i1, (Some resp, None)) ->
  commonpb.ErrorCode_ (BuildIndexResponse.Status resp) = commonpb.ErrorCode_Success ->
  metaTable.HasSameReq (metaTable_ i1) req = (true, BuildIndexResponse.IndexBuildID resp).
Proof.
  unfold BuildIndex.
  destruct (metaTable.HasSameReq (metaTable_ i) req) as [[] id] eqn:Hscan.
  - intros [= <- <-] _. exact Hscan.
  - destruct (if ctxDone env then _ else _) as [newID|e].
    2:{ intros [= <- <-]. discriminate. }
    unfold WaitToFinish, metaTable.AddIndex.
    destruct (metaTable_ i !! newID) as [old|] eqn:Hfree.
    { intros [= <- <-]. discriminate. }
    destruct (saveIndexMeta env _) as [e|].
    { intros [= <- <-]. discriminate. }
    intros [= <- <-] _. simpl.
    set (m := {| indexMeta := _; revision := 0 |}).
    assert (Hm : metaTable.sameReq req m = true).
    { unfold metaTable.sameReq. simpl. rewrite bool_decide_eq_true_2; reflexivity. }
    destruct (HasSameReq_some (<[newID:=m]> (metaTable_ i)) req newID m) as [id' Hhit];
      [apply lookup_insert_eq|exact Hm|].
    rewrite Hhit. f_equal.
    destruct (HasSameReq_hit _ _ _ Hhit) as (k' & m' & Hk' & Hsame' & <-).
    destruct (decide (k' = newID)) as [->|Hne].
    + rewrite lookup_insert_eq in Hk'. by injection Hk' as <-.
    + rewrite lookup_insert_ne in Hk' by congruence.
      pose proof (HasSameReq_miss _ _ _ Hscan _ _ Hk'). congruence.
Qed.

(** ** The assignment loop *)

Lemma assignTask_false (env : Env) (c : types.IndexNode) (req : CreateIndexRequest.t) :
  assignTask env c req = false <->
  (exists e, CreateIndex env (types.connectedTo c) req = fail e)
  \/ (exists resp, CreateIndex env (types.connectedTo c) req = ok resp
                   /\ commonpb.ErrorCode_ resp <> commonpb.ErrorCode_Success).
Proof.
  unfold assignTask.
  destruct (CreateIndex env (types.connectedTo c) req) as [resp|e].
  - case_bool_decide as Hc; split.
    + discriminate.
    + intros [[e He]|(r & [= <-] & Hne)]; [discriminate|contradiction].
    + intros _. right. eauto.
    + reflexivity.
  - split; [intros _; left; eauto|reflexivity].
Qed.

(** What [UpdateVersion] can do to the record stored under an id: nothing,
    or the version bump under the next revision. *)
Lemma UpdateVersion_lookup (env : Env) (mt : gmap UniqueID Meta)
    (id : UniqueID) (m : Meta) :
  mt !! id = Some m ->
  exists m',
    fst (metaTable.UpdateVersion env mt id) !! id = Some m'
    /\ IndexMeta.State (indexMeta m') = IndexMeta.State (indexMeta m)
    /\ IndexMeta.NodeID (indexMeta m') = IndexMeta.NodeID (indexMeta m)
    /\ (IndexMeta.Version (indexMeta m') = IndexMeta.Version (indexMeta m)
        \/ IndexMeta.Version (indexMeta m')
           = wrap64 (IndexMeta.Version (indexMeta m) + 1)).
Proof.
  intros Hm. unfold metaTable.UpdateVersion. rewrite Hm.
  destruct (saveIndexMeta env _) as [e|]; simpl.
  - exists m. auto.
  - eexists. split; [apply lookup_insert_eq|]. simpl. auto.
Qed.

Lemma wrap64_succ (v : Z) :
  - two63 <= v < two63 - 1 -> wrap64 (v + 1) = v + 1.
Proof.
  unfold wrap64, two63, two64. intros Hv.
  rewrite Z.mod_small; lia.
Qed.

(** C3. One round of the assignment loop on a task whose [CreateIndex]
    call fails, by a transport error or by a response whose error code is
    not Success: the round ends after the call and the loop goes on with
    the next task.  [BuildIndex] is not recorded and the worker's priority
    is not touched (the pool is as before); the table is the one
    [UpdateVersion] left, so the bump is not taken back: the record keeps
    its State and NodeID, its Version is the old one or the bumped one and
    (short of the int64 maximum) never smaller; a record that was
    unassigned is still unassigned and is returned again by
    [GetUnassignedTasks]. *)
Theorem failed_dispatch_skips_task (env : Env) (i : IndexCoord) (index : Z)
    (meta : Meta) (nodeID : UniqueID) (builderClient : types.IndexNode) :
  let id := IndexMeta.IndexBuildID (indexMeta meta) in
  let req := createIndexRequest meta in
  NodeManager.PeekClient (nodeManager i) = (nodeID, Some builderClient) ->
  ((exists e, CreateIndex env (types.connectedTo builderClient) req = fail e)
   \/ (exists resp, CreateIndex env (types.connectedTo builderClient) req = ok resp
                    /\ commonpb.ErrorCode_ resp <> commonpb.ErrorCode_Success)) ->
  exists i1 err,
    assignOne env i index meta
    = (i1, [EvUpdateVersion id err; EvCreateIndex nodeID req false], Next)
    /\ nodeManager i1 = nodeManager i
    /\ metaTable_ i1 = fst (metaTable.UpdateVersion env (metaTable_ i) id)
    /\ forall m, metaTable_ i !! id = Some m ->
         exists m',
           metaTable_ i1 !! id = Some m'
           /\ IndexMeta.State (indexMeta m') = IndexMeta.State (indexMeta m)
           /\ IndexMeta.NodeID (indexMeta m') = IndexMeta.NodeID (indexMeta m)
           /\ (IndexMeta.Version (indexMeta m') = IndexMeta.Version (indexMeta m)
               \/ IndexMeta.Version (indexMeta m')
                  = wrap64 (IndexMeta.Version (indexMeta m) + 1))
           /\ (- two63 <= IndexMeta.Version (indexMeta m) < two63 - 1 ->
               IndexMeta.Version (indexMeta m) <= IndexMeta.Version (indexMeta m'))
           /\ forall onlineNodeIDs,
                metaTable.unassigned onlineNodeIDs m = true ->
                In m' (metaTable.GetUnassignedTasks (metaTable_ i1) onlineNodeIDs).
Proof.
  intros id req Hpeek Hrpc. apply assignTask_false in Hrpc.
  unfold assignOne. fold id. fold req.
  destruct (metaTable.UpdateVersion env (metaTable_ i) id) as [mt1 err] eqn:Hupd.
  simpl. rewrite Hpeek, Hrpc. simpl.
  exists (withMeta i mt1), err. repeat split.
  intros m Hm.
  destruct (UpdateVersion_lookup env _ _ _ Hm) as (m' & Hm' & Hst & Hnode & Hver).
  rewrite Hupd in Hm'. simpl in Hm'.
  exists m'. repeat split; try assumption.
  - intros Hrange. destruct Hver as [->| ->]; [lia|].
    rewrite wrap64_succ by assumption. lia.
  - intros ids Hun. unfold metaTable.GetUnassignedTasks.
    apply filter_In. split.
    + apply value_in_table. eauto.
    + unfold metaTable.unassigned in *. rewrite Hst, Hnode. exact Hun.
Qed.

Lemma failed_dispatch_skips_task_witness :
  exists i1 err,
    assignOne Examples.workersDown
      (Examples.coord internalpb.StateCode_Healthy {[ 1 := Examples.unissued 1 ]})
      0 (Examples.unissued 1)
    = (i1, [EvUpdateVersion 1 err;
            EvCreateIndex 1 (createIndexRequest (Examples.unissued 1)) false], Next)
    /\ nodeManager i1 = Examples.oneWorker.
Proof.
  destruct (failed_dispatch_skips_task Examples.workersDown
              (Examples.coord internalpb.StateCode_Healthy {[ 1 := Examples.unissued 1 ]})
              0 (Examples.unissued 1) 1 {| types.connectedTo := 1 |})
    as (i1 & err & Hstep & Hnm & _).
  - vm_compute. reflexivity.
  - left. exists "connection refused". reflexivity.
  - exists i1, err. split; [exact Hstep | exact Hnm].
Defined.

Lemma dispatched_app (t1 t2 : list Event) :
  dispatched (t1 ++ t2) = dispatched t1 ++ dispatched t2.
Proof. apply omap_app. Qed.

Lemma UpdateVersion_failed (env : Env) (mt : gmap UniqueID Meta)
    (id : UniqueID) (e : string) :
  snd (metaTable.UpdateVersion env mt id) = Some e ->
  fst (metaTable.UpdateVersion env mt id) = mt.
Proof.
  unfold metaTable.UpdateVersion.
  destruct (mt !! id) as [m|]; [|reflexivity].
  destruct (saveIndexMeta env _); [reflexivity|discriminate].
Qed.

(** A failed [UpdateVersion] is only logged.  The round goes on with the
    same task: with a worker client at hand the request is sent to it in
    that round, with the fetched Version plus one although the table still
    holds the old Version, and when the worker accepts, [BuildIndex] is
    recorded and the worker's priority is raised, as after a successful
    [UpdateVersion]. *)
Lemma failed_UpdateVersion_still_dispatches (env : Env) (i : IndexCoord)
    (index : Z) (meta : Meta) (e : string) (nodeID : UniqueID)
    (builderClient : types.IndexNode) :
  let id := IndexMeta.IndexBuildID (indexMeta meta) in
  let req := createIndexRequest meta in
  snd (metaTable.UpdateVersion env (metaTable_ i) id) = Some e ->
  NodeManager.PeekClient (nodeManager i) = (nodeID, Some builderClient) ->
  exists i1 c,
    assignOne env i index meta
    = (i1,
       [EvUpdateVersion id (Some e);
        EvCreateIndex nodeID req (assignTask env builderClient req)]
       ++ (if assignTask env builderClient req
           then [EvBuildIndex id nodeID
                   (snd (metaTable.BuildIndex env (metaTable_ i) id nodeID));
                 EvIncPriority nodeID 1]
           else []),
       c)
    /\ dispatched (snd (fst (assignOne env i index meta))) = [req].
Proof.
  intros id req Hfail Hpeek.
  pose proof (UpdateVersion_failed _ _ _ _ Hfail) as Hsame.
  unfold assignOne. fold id. fold req.
  destruct (metaTable.UpdateVersion env (metaTable_ i) id) as [mt1 err].
  simpl in Hfail, Hsame. subst mt1 err. simpl. rewrite Hpeek.
  destruct (assignTask env builderClient req); simpl.
  - destruct (metaTable.BuildIndex env (metaTable_ i) id nodeID) as [mt2 err2].
    simpl. eexists _, _. split; reflexivity.
  - eexists _, _. split; reflexivity.
Qed.

Lemma failed_UpdateVersion_dispatch_example :
  dispatched
    (snd (fst (assignOne Examples.registryConflict
                 (Examples.coord internalpb.StateCode_Healthy
                    {[ 1 := Examples.unissued 1 ]})
                 0 (Examples.unissued 1))))
  = [createIndexRequest (Examples.unissued 1)].
Proof.
  destruct (failed_UpdateVersion_still_dispatches Examples.registryConflict
              (Examples.coord internalpb.StateCode_Healthy {[ 1 := Examples.unissued 1 ]})
              0 (Examples.unissued 1) "conflict" 1 {| types.connectedTo := 1 |})
    as (i1 & c & _ & Hd).
  - vm_compute. reflexivity.
  - vm_compute. reflexivity.
  - exact Hd.
Defined.

(** C6. The claim fails on the code.  The registry refuses the version
    bump of task 1 and takes the later write; one worker is registered.
    In that very tick the task is sent to the worker with Version 1, and
    it ends the tick InProgress on that worker with Version 0 in the
    table, so no later tick picks it up again. *)
Theorem UpdateVersion_conflict_is_dispatched :
  let env :=
    Examples.world
      (fun m =>
         if bool_decide (IndexMeta.State (indexMeta m) = commonpb.IndexState_Unissued)
         then Some "conflict" else None)
      (fun _ => None) (fun _ _ => ok Examples.accepted) in
  let i := Examples.coord internalpb.StateCode_Healthy {[ 1 := Examples.unissued 1 ]} in
  snd (metaTable.UpdateVersion env (metaTable_ i) 1) = Some "conflict"
  /\ snd (assignTick env i)
     = [EvUpdateVersion 1 (Some "conflict");
        EvCreateIndex 1 (createIndexRequest (Examples.unissued 1)) true;
        EvBuildIndex 1 1 None;
        EvIncPriority 1 1]
  /\ CreateIndexRequest.Version (createIndexRequest (Examples.unissued 1)) = 1
  /\ (fun m => (IndexMeta.State (indexMeta m), IndexMeta.NodeID (indexMeta m),
                IndexMeta.Version (indexMeta m)))
       <$> (metaTable_ (fst (assignTick env i)) !! 1)
     = Some (commonpb.IndexState_InProgress, 1, 0)
  /\ metaTable.GetUnassignedTasks (metaTable_ (fst (assignTick env i))) [1] = [].
Proof. cbv zeta. repeat split; vm_compute; reflexivity. Qed.

(** *** The bound on the work of one tick *)

Lemma bumped_app (t1 t2 : list Event) :
  bumped (t1 ++ t2) = bumped t1 ++ bumped t2.
Proof. apply omap_app. Qed.

(** C5. The claim fails on the code.  With 25 unissued tasks and one worker
    that accepts every request, one tick bumps and dispatches 22 tasks,
    not 20: the test [index > taskLimit] comes after the round's work and
    first holds at index 21.  When every request fails, the test is never
    reached ([continue] skips it) and the tick bumps and dispatches all 25
    tasks. *)
Theorem assignTick_exceeds_taskLimit :
  let i := Examples.coord internalpb.StateCode_Healthy (Examples.unissuedTable 25) in
  length (metaTable.GetUnassignedTasks (metaTable_ i) [1]) = 25%nat
  /\ length (bumped (snd (assignTick Examples.calm i))) = 22%nat
  /\ length (dispatched (snd (assignTick Examples.calm i))) = 22%nat
  /\ length (bumped (snd (assignTick Examples.workersDown i))) = 25%nat
  /\ length (dispatched (snd (assignTick Examples.workersDown i))) = 25%nat.
Proof. cbv zeta. repeat split; vm_compute; reflexivity. Qed.

Lemma assigned_app (t1 t2 : list Event) :
  assigned (t1 ++ t2) = assigned t1 ++ assigned t2.
Proof. apply omap_app. Qed.

Lemma assignOne_cases (env : Env) (i : IndexCoord) (index : Z) (meta : Meta) :
  let req := createIndexRequest meta in
  exists i1 evs c,
    assignOne env i index meta = (i1, evs, c)
    /\ ((dispatched evs = [] /\ assigned evs = [] /\ c = Break)
        \/ (dispatched evs = [req] /\ assigned evs = [] /\ c = Next)
        \/ (dispatched evs = [req]
            /\ assigned evs = [IndexMeta.IndexBuildID (indexMeta meta)]
            /\ c = if taskLimit <? index then Break else Next)).
Proof.
  intros req. unfold assignOne. fold req.
  destruct (metaTable.UpdateVersion env (metaTable_ i) _) as [mt1 err].
  destruct (NodeManager.PeekClient _) as [nodeID [client|]].
  - destruct (assignTask env client req); simpl.
    + destruct (metaTable.BuildIndex env mt1 _ nodeID) as [mt2 err2].
      eexists _, _, _. split; [reflexivity|]. right. right. auto.
    + eexists _, _, _. split; [reflexivity|]. right. left. auto.
  - eexists _, _, _. split; [reflexivity|]. left. auto.
Qed.

(** The requests of one tick go, in order, to a leading segment of the
    list the loop ranges over. *)
Lemma assignLoop_dispatched (env : Env) (metas : list Meta) :
  forall (i : IndexCoord) (index : Z),
    exists k,
      dispatched (snd (assignLoop env i index metas))
      = createIndexRequest <$> take k metas.
Proof.
  induction metas as [|meta rest IH]; intros i index.
  - exists 0%nat. reflexivity.
  - simpl.
    destruct (assignOne_cases env i index meta) as (i1 & evs & c & -> & Hc).
    destruct Hc as [(Hd & _ & ->)|[(Hd & _ & ->)|(Hd & _ & ->)]].
    + exists 0%nat. simpl. exact Hd.
    + destruct (IH i1 (index + 1)) as [k Hk].
      destruct (assignLoop env i1 (index + 1) rest) as [i2 evs'].
      exists (S k). simpl in *. rewrite dispatched_app, Hd, Hk. reflexivity.
    + destruct (taskLimit <? index).
      * exists 1%nat. simpl. rewrite Hd. by destruct rest.
      * destruct (IH i1 (index + 1)) as [k Hk].
        destruct (assignLoop env i1 (index + 1) rest) as [i2 evs'].
        exists (S k). simpl in *. rewrite dispatched_app, Hd, Hk. reflexivity.
Qed.

(** However the requests fare, one tick records at most [taskLimit + 2]
    assignments: a round that assigns a task at an index above [taskLimit]
    ends the loop. *)
Lemma assignLoop_assigned_bound (env : Env) (metas : list Meta) :
  forall (i : IndexCoord) (index : Z),
    0 <= index ->
    Z.of_nat (length (assigned (snd (assignLoop env i index metas))))
    <= Z.max 1 (taskLimit + 2 - index).
Proof.
  unfold taskLimit.
  induction metas as [|meta rest IH]; intros i index Hindex.
  - simpl. lia.
  - simpl.
    destruct (assignOne_cases env i index meta) as (i1 & evs & c & -> & Hc).
    destruct Hc as [(_ & Ha & ->)|[(_ & Ha & ->)|(_ & Ha & ->)]].
    + simpl. rewrite Ha. simpl. lia.
    + specialize (IH i1 (index + 1) ltac:(lia)).
      destruct (assignLoop env i1 (index + 1) rest) as [i2 evs'].
      simpl in *. rewrite assigned_app, Ha. simpl. lia.
    + unfold taskLimit. destruct (20 <? index) eqn:Hlim.
      * simpl. rewrite Ha. simpl. lia.
      * apply Z.ltb_ge in Hlim.
        specialize (IH i1 (index + 1) ltac:(lia)).
        destruct (assignLoop env i1 (index + 1) rest) as [i2 evs'].
        simpl in *. rewrite assigned_app, Ha. simpl. lia.
Qed.

Lemma assignTick_assigned_bound (env : Env) (i : IndexCoord) :
  Z.of_nat (length (assigned (snd (assignTick env i)))) <= taskLimit + 2.
Proof.
  unfold assignTick. destruct (_ <=? 0).
  - simpl. unfold taskLimit. lia.
  - pose proof (assignLoop_assigned_bound env (tickMetas env i) i 0 ltac:(lia)).
    unfold taskLimit in *. lia.
Qed.

(** *** The order of dispatch *)

(** ** [sort.Slice] with a closure that compares by [<=] *)

Section SortSlice.
Context {A : Type} (key : A -> Z).
#[local] Open Scope nat_scope.

#[local] Abbreviation K := (keyAt key).
#[local] Abbreviation less := (leKey key).

Lemma Swap_length (l : list A) (i j : nat) :
  length (sort.Swap l i j) = length l.
Proof.
  unfold sort.Swap. destruct (l !! i), (l !! j); try reflexivity.
  by rewrite !length_insert.
Qed.

Lemma insert_swap_perm (l : list A) (j : nat) (y z : A) :
  l !! j = Some y -> y :: <[j := z]> l ≡ₚ z :: l.
Proof.
  revert j. induction l as [|x l IH]; intros [|j] Hj; simplify_eq/=.
  - apply Permutation_swap.
  - rewrite Permutation_swap. rewrite (IH j Hj). apply Permutation_swap.
Qed.

Lemma Swap_perm (l : list A) (i j : nat) : sort.Swap l i j ≡ₚ l.
Proof.
  unfold sort.Swap.
  destruct (l !! i) as [x|] eqn:Hi; [|reflexivity].
  destruct (l !! j) as [y|] eqn:Hj; [|reflexivity].
  revert i j Hi Hj. induction l as [|z l IH]; intros [|i] [|j] Hi Hj; simplify_eq/=.
  - reflexivity.
  - by apply insert_swap_perm.
  - by apply insert_swap_perm.
  - by rewrite (IH i j Hi Hj).
Qed.

Lemma Swap_key (l : list A) (i j k : nat) :
  i < length l -> j < length l ->
  K (sort.Swap l i j) k
  = if decide (k = i) then K l j else if decide (k = j) then K l i else K l k.
Proof.
  intros Hi Hj. unfold sort.Swap, keyAt.
  destruct (lookup_lt_is_Some_2 l i Hi) as [x Hx].
  destruct (lookup_lt_is_Some_2 l j Hj) as [y Hy].
  rewrite Hx, Hy.
  destruct (decide (k = i)) as [->|Hki].
  - rewrite list_lookup_insert_eq by (rewrite length_insert; lia). reflexivity.
  - rewrite list_lookup_insert_ne by congruence.
    destruct (decide (k = j)) as [->|Hkj].
    + rewrite list_lookup_insert_eq by lia. reflexivity.
    + rewrite list_lookup_insert_ne by congruence. reflexivity.
Qed.

Lemma Less_key (l : list A) (i j : nat) :
  i < length l -> j < length l ->
  sort.Less less l i j = (K l i <=? K l j)%Z.
Proof.
  intros Hi Hj. unfold sort.Less, keyAt.
  destruct (lookup_lt_is_Some_2 l i Hi) as [x ->].
  destruct (lookup_lt_is_Some_2 l j Hj) as [y ->].
  reflexivity.
Qed.

Lemma rearranged_refl (a b : nat) (l : list A) : rearranged key a b l l.
Proof. repeat split; auto. Qed.

Lemma rearranged_trans (a b : nat) (l1 l2 l3 : list A) :
  rearranged key a b l1 l2 -> rearranged key a b l2 l3 -> rearranged key a b l1 l3.
Proof.
  intros (Hl1 & Hp1 & Hf1 & Hc1) (Hl2 & Hp2 & Hf2 & Hc2). repeat split.
  - congruence.
  - by rewrite Hp2.
  - intros i Hi. rewrite Hf2, Hf1 by assumption. reflexivity.
  - intros P HP. apply Hc2, Hc1, HP.
Qed.

Lemma rearranged_mono (a b a' b' : nat) (l l' : list A) :
  a' <= a -> b <= b' -> rearranged key a b l l' -> rearranged key a' b' l l'.
Proof.
  intros Ha Hb (Hl & Hp & Hf & Hc). repeat split; try assumption.
  - intros i Hi. apply Hf. lia.
  - intros P HP i Hi.
    destruct (decide (a <= i < b)) as [Hin|Hout].
    + clear Hi. revert i Hin. apply Hc. intros k Hk. apply HP. lia.
    + rewrite Hf by lia. apply HP, Hi.
Qed.

Lemma rearranged_Swap (a b : nat) (l : list A) (i j : nat) :
  a <= i < b -> a <= j < b -> rearranged key a b l (sort.Swap l i j).
Proof.
  intros Hi Hj.
  destruct (decide (i < length l /\ j < length l)) as [[Hil Hjl]|Hout].
  - repeat split.
    + apply Swap_length.
    + apply Swap_perm.
    + intros k Hk. rewrite Swap_key by assumption.
      repeat destruct (decide _); lia || reflexivity.
    + intros P HP k Hk. rewrite Swap_key by assumption.
      repeat destruct (decide _); apply HP; lia.
  - assert (sort.Swap l i j = l) as ->; [|apply rearranged_refl].
    unfold sort.Swap.
    destruct (l !! i) eqn:Ei; [|reflexivity].
    destruct (l !! j) eqn:Ej; [|reflexivity].
    apply lookup_lt_Some in Ei, Ej. lia.
Qed.

Lemma rearranged_length (a b : nat) (l l' : list A) :
  rearranged key a b l l' -> length l' = length l.
Proof. by intros [? _]. Qed.

Lemma rearranged_aboveLeft (a b a' b' : nat) (l l' : list A) :
  a <= a' -> b' <= b -> rearranged key a' b' l l' ->
  aboveLeft key l a b -> aboveLeft key l' a b.
Proof.
  intros Ha Hb Hr Habove Hpos i Hi.
  apply (rearranged_mono a' b' a b) in Hr; [|lia|lia].
  destruct Hr as (_ & _ & Hf & Hc).
  rewrite (Hf (a - 1)) by lia.
  revert i Hi. apply Hc. intros i Hi. by apply Habove.
Qed.

(** *** Insertion sort *)

Lemma shiftLeft_sorted (a i : nat) (j : nat) (l : list A) :
  a <= j -> j <= i -> i < length l ->
  (forall p q, a <= p -> p <= q -> q <= i -> q <> j -> (K l p <= K l q)%Z) ->
  sortedOn key (sort.shiftLeft less l a j) a (S i)
  /\ rearranged key a (S i) l (sort.shiftLeft less l a j).
Proof.
  revert l. induction j as [|j IH]; intros l Haj Hji Hil Hinv.
  - simpl. split; [|apply rearranged_refl].
    intros p q Hp Hpq Hq.
    destruct (decide (q = 0)) as [->|Hq0]; [|apply Hinv; lia].
    assert (p = 0) as -> by lia. lia.
  - cbn [sort.shiftLeft].
    destruct (Nat.ltb_spec a (S j)) as [Hlt|Hge]; cbn [andb].
    + rewrite Less_key by lia.
      destruct (Z.leb_spec (K l (S j)) (K l j)) as [Hle|Hgt].
      * destruct (IH (sort.Swap l (S j) j)) as [Hs Hr].
        -- lia.
        -- lia.
        -- rewrite Swap_length. lia.
        -- intros p q Hp Hpq Hq Hqj. rewrite !Swap_key by lia.
           repeat destruct (decide _); subst; try lia;
             try (apply Hinv; lia).
        -- split; [exact Hs|].
           eapply rearranged_trans; [|exact Hr].
           apply rearranged_Swap; lia.
      * split; [|apply rearranged_refl].
        intros p q Hp Hpq Hq.
        destruct (decide (q = S j)) as [->|Hqj]; [|apply Hinv; lia].
        destruct (decide (p = S j)) as [->|Hpj]; [lia|].
        transitivity (K l j); [apply Hinv; lia|lia].
    + assert (a = S j) as -> by lia.
      split; [|apply rearranged_refl].
      intros p q Hp Hpq Hq.
      destruct (decide (q = S j)) as [->|Hqj]; [|apply Hinv; lia].
      assert (p = S j) as -> by lia. lia.
Qed.

Lemma insertionSort_rounds (a : nat) (n i : nat) (l : list A) :
  a <= i -> i + n <= length l -> sortedOn key l a i ->
  sortedOn key (foldl (fun data i => sort.shiftLeft less data a i) l (seq i n))
           a (i + n)
  /\ rearranged key a (i + n) l
       (foldl (fun data i => sort.shiftLeft less data a i) l (seq i n)).
Proof.
  revert i l. induction n as [|n IH]; intros i l Hai Hlen Hs.
  - simpl. rewrite Nat.add_0_r. split; [exact Hs|apply rearranged_refl].
  - cbn [seq foldl].
    destruct (shiftLeft_sorted a i i l) as [Hs1 Hr1]; try lia.
    { intros p q Hp Hpq Hq Hqi. apply Hs; lia. }
    destruct (IH (S i) (sort.shiftLeft less l a i)) as [Hs2 Hr2].
    + lia.
    + rewrite (rearranged_length _ _ _ _ Hr1). lia.
    + exact Hs1.
    + replace (i + S n) with (S i + n) by lia. split; [exact Hs2|].
      eapply rearranged_trans; [|exact Hr2].
      eapply rearranged_mono; [| |exact Hr1]; lia.
Qed.

Lemma insertionSort_spec (l : list A) (a b : nat) :
  a <= b -> b <= length l ->
  sortedOn key (sort.insertionSort_func less l a b) a b
  /\ rearranged key a b l (sort.insertionSort_func less l a b).
Proof.
  intros Hab Hb. unfold sort.insertionSort_func.
  destruct (decide (b = a)) as [->|Hne].
  - replace (a - (a + 1)) with 0 by lia. simpl.
    split; [|apply rearranged_refl]. intros p q; lia.
  - destruct (insertionSort_rounds a (b - (a + 1)) (a + 1) l) as [Hs Hr]; try lia.
    { intros p q Hp Hpq Hq. assert (p = q) as -> by lia. lia. }
    replace (a + 1 + (b - (a + 1))) with b in Hs, Hr by lia.
    by split.
Qed.


(** *** Heap sort *)

Lemma siftDown_loop_spec (first lo hi : nat) (n root : nat) (l : list A) :
  first + hi <= length l -> lo <= root -> hi - root <= n ->
  (forall r c, lo <= r -> r <> root -> c = 2 * r + 1 \/ c = 2 * r + 2 -> c < hi ->
     (K l (first + c) <= K l (first + r))%Z) ->
  (forall p c, lo <= p -> root = 2 * p + 1 \/ root = 2 * p + 2 ->
     c = 2 * root + 1 \/ c = 2 * root + 2 -> c < hi ->
     (K l (first + c) <= K l (first + p))%Z) ->
  heapOn key (sort.siftDown_loop less n l root hi first) first lo hi
  /\ rearranged key (first + lo) (first + hi) l
       (sort.siftDown_loop less n l root hi first).
Proof.
  intros Hlen. revert root l Hlen.
  induction n as [|n IH]; intros root l Hlen Hlo Hfuel HA HB.
  - simpl. split; [|apply rearranged_refl].
    intros r c Hr Hc Hchi.
    destruct (decide (r = root)) as [->|Hne]; [lia|]. by apply HA.
  - cbn [sort.siftDown_loop]. cbv zeta.
    destruct (Nat.leb_spec hi (2 * root + 1)) as [Hleaf|Hchild].
    { split; [|apply rearranged_refl].
      intros r c Hr Hc Hchi.
      destruct (decide (r = root)) as [->|Hne]; [lia|]. by apply HA. }
    remember (if (2 * root + 1 + 1 <? hi)
                 && sort.Less less l (first + (2 * root + 1)) (first + (2 * root + 1) + 1)
              then 2 * root + 1 + 1 else 2 * root + 1) as child eqn:Hdef.
    assert (Hpick : (child = 2 * root + 1 \/ child = 2 * root + 2) /\ child < hi
                    /\ forall c, c = 2 * root + 1 \/ c = 2 * root + 2 -> c < hi ->
                         (K l (first + c) <= K l (first + child))%Z).
    { subst child.
      destruct (Nat.ltb_spec (2 * root + 1 + 1) hi) as [Htwo|Hone]; cbn [andb].
      - rewrite Less_key by lia.
        replace (first + (2 * root + 1) + 1) with (first + (2 * root + 2)) by lia.
        destruct (Z.leb_spec (K l (first + (2 * root + 1))) (K l (first + (2 * root + 2))))
          as [Hle|Hgt].
        + split; [lia|]. split; [lia|].
          intros c [->| ->] _; replace (2 * root + 1 + 1) with (2 * root + 2) by lia; lia.
        + split; [lia|]. split; [lia|].
          intros c [->| ->] _; lia.
      - split; [lia|]. split; [lia|].
        intros c [->| ->] Hc; [lia|lia]. }
    clear Hdef. destruct Hpick as (Hchild_of & Hchild_lt & Hmax).
    rewrite Less_key by lia.
    destruct (Z.leb_spec (K l (first + root)) (K l (first + child))) as [Hle|Hgt];
      cbn [negb].
    + destruct (IH child (sort.Swap l (first + root) (first + child))) as [Hh Hr].
      * rewrite Swap_length. exact Hlen.
      * lia.
      * lia.
      * intros r c Hr Hrc Hc Hchi. rewrite !Swap_key by lia.
        repeat destruct (decide _); try lia;
          first [ apply Hmax; lia | apply (HB r child); lia | apply HA; lia ].
      * intros p c Hp Hpc Hc Hchi. rewrite !Swap_key by lia.
        repeat destruct (decide _); try lia; apply HA; lia.
      * split; [exact Hh|].
        eapply rearranged_trans; [|exact Hr].
        apply rearranged_Swap; lia.
    + split; [|apply rearranged_refl].
      intros r c Hr Hc Hchi.
      destruct (decide (r = root)) as [->|Hne]; [|by apply HA].
      specialize (Hmax c Hc Hchi). lia.
Qed.

Lemma siftDown_spec (first lo hi : nat) (l : list A) :
  first + hi <= length l ->
  heapOn key l first (S lo) hi ->
  heapOn key (sort.siftDown_func less l lo hi first) first lo hi
  /\ rearranged key (first + lo) (first + hi) l
       (sort.siftDown_func less l lo hi first).
Proof.
  intros Hlen Hheap. unfold sort.siftDown_func.
  apply siftDown_loop_spec; try lia.
  intros r c Hr Hne Hc Hchi. apply Hheap; [lia|exact Hc|exact Hchi].
Qed.

Lemma heap_build (first hi k : nat) (l : list A) :
  first + hi <= length l ->
  heapOn key l first k hi ->
  heapOn key (foldl (fun data i => sort.siftDown_func less data i hi first) l
                    (rev (seq 0 k))) first 0 hi
  /\ rearranged key first (first + hi) l
       (foldl (fun data i => sort.siftDown_func less data i hi first) l
              (rev (seq 0 k))).
Proof.
  revert l. induction k as [|k IH]; intros l Hlen Hheap.
  - simpl. split; [exact Hheap|apply rearranged_refl].
  - rewrite seq_S, rev_app_distr. cbn [rev app foldl Nat.add].
    destruct (siftDown_spec first k hi l Hlen Hheap) as [Hh Hr].
    destruct (IH (sort.siftDown_func less l k hi first)) as [Hh2 Hr2].
    + rewrite (rearranged_length _ _ _ _ Hr). exact Hlen.
    + exact Hh.
    + split; [exact Hh2|].
      eapply rearranged_trans; [|exact Hr2].
      eapply rearranged_mono; [| |exact Hr]; lia.
Qed.

Lemma heap_top (first hi : nat) (l : list A) :
  heapOn key l first 0 hi ->
  forall c, c < hi -> (K l (first + c) <= K l (first + 0))%Z.
Proof.
  intros Hheap c. induction c as [c IH] using lt_wf_ind. intros Hc.
  destruct (decide (c = 0)) as [->|Hpos]; [lia|].
  pose proof (Nat.div_mod_eq (c - 1) 2) as Hdiv.
  pose proof (Nat.mod_upper_bound (c - 1) 2 ltac:(lia)) as Hmod.
  transitivity (K l (first + (c - 1) / 2)).
  - apply Hheap; lia.
  - apply IH; lia.
Qed.

Lemma heap_pop (first hi k : nat) (l : list A) :
  first + hi <= length l -> k <= hi ->
  heapOn key l first 0 k ->
  sortedOn key l (first + k) (first + hi) ->
  (forall p q, p < k -> k <= q -> q < hi ->
     (K l (first + p) <= K l (first + q))%Z) ->
  sortedOn key
    (foldl (fun data i =>
              sort.siftDown_func less (sort.Swap data first (first + i)) 0 i first)
           l (rev (seq 0 k)))
    first (first + hi)
  /\ rearranged key first (first + hi) l
       (foldl (fun data i =>
                 sort.siftDown_func less (sort.Swap data first (first + i)) 0 i first)
              l (rev (seq 0 k))).
Proof.
  revert l. induction k as [|k IH]; intros l Hlen Hk Hheap Hsorted Hcross.
  - simpl. rewrite Nat.add_0_r in Hsorted. split; [exact Hsorted|apply rearranged_refl].
  - rewrite seq_S, rev_app_distr. cbn [rev app foldl Nat.add].
    set (l1 := sort.Swap l first (first + k)).
    assert (Hr1 : rearranged key first (first + hi) l l1)
      by (apply rearranged_Swap; lia).
    assert (Hk1 : forall i, K l1 i = if decide (i = first) then K l (first + k)
                                     else if decide (i = first + k) then K l first
                                     else K l i).
    { intros i. unfold l1. rewrite Swap_key by lia. reflexivity. }
    assert (Htop : forall i, first <= i < first + S k -> (K l i <= K l first)%Z).
    { intros i Hi. pose proof (heap_top first (S k) l Hheap (i - first)) as H.
      rewrite Nat.add_0_r in H. replace (first + (i - first)) with i in H by lia.
      apply H. lia. }
    assert (Habs : forall i j, first <= i < first + S k ->
                     first + S k <= j < first + hi -> (K l i <= K l j)%Z).
    { intros i j Hi Hj. pose proof (Hcross (i - first) (j - first)) as H.
      replace (first + (i - first)) with i in H by lia.
      replace (first + (j - first)) with j in H by lia. apply H; lia. }
    destruct (siftDown_spec first 0 k l1) as [Hh2 Hr2].
    { unfold l1. rewrite Swap_length. lia. }
    { intros r c Hr Hc Hck. rewrite !Hk1.
      repeat destruct (decide _); try lia. apply Hheap; lia. }
    set (l2 := sort.siftDown_func less l1 0 k first) in *.
    rewrite Nat.add_0_r in Hr2.
    destruct Hr2 as (Hlen2 & Hperm2 & Hframe2 & Hclosed2).
    destruct (IH l2) as [Hs3 Hr3].
    + rewrite Hlen2. unfold l1. rewrite Swap_length. exact Hlen.
    + lia.
    + exact Hh2.
    + intros i j Hi Hij Hj. rewrite !Hframe2 by lia. rewrite !Hk1.
      repeat destruct (decide _);
        first [lia | apply Hsorted; lia | apply Habs; lia | apply Htop; lia].
    + intros p q Hp Hq Hqhi. rewrite (Hframe2 (first + q)) by lia.
      assert (Hall : forall i, first <= i < first + k -> (K l1 i <= K l1 (first + q))%Z).
      { intros i Hi. rewrite !Hk1.
        repeat destruct (decide _);
          first [lia | apply Habs; lia | apply Htop; lia]. }
      apply (Hclosed2 (fun x => (x <= K l1 (first + q))%Z) Hall). lia.
    + split; [exact Hs3|].
      eapply rearranged_trans; [exact Hr1|].
      eapply rearranged_trans; [|exact Hr3].
      eapply rearranged_mono; [| |repeat split; eassumption]; lia.
Qed.

Lemma heapSort_spec (l : list A) (a b : nat) :
  a <= b -> b <= length l ->
  sortedOn key (sort.heapSort_func less l a b) a b
  /\ rearranged key a b l (sort.heapSort_func less l a b).
Proof.
  intros Hab Hb. unfold sort.heapSort_func. cbv zeta.
  destruct (heap_build a (b - a) ((b - a - 1) / 2 + 1) l) as [Hh Hr]; [lia| |].
  { intros r c Hr Hc Hchi.
    pose proof (Nat.div_mod_eq (b - a - 1) 2) as Hdiv.
    pose proof (Nat.mod_upper_bound (b - a - 1) 2 ltac:(lia)) as Hmod. lia. }
  set (l1 := foldl _ l _) in *.
  destruct (heap_pop a (b - a) (b - a) l1) as [Hs2 Hr2].
  - rewrite (rearranged_length _ _ _ _ Hr). lia.
  - lia.
  - exact Hh.
  - intros i j. lia.
  - intros p q. lia.
  - replace (a + (b - a)) with b in * by lia.
    split; [exact Hs2|]. eapply rearranged_trans; eassumption.
Qed.

(** *** Partition *)

Lemma Less_true (l : list A) (i j : nat) :
  i < length l -> j < length l ->
  sort.Less less l i j = true -> (K l i <= K l j)%Z.
Proof. intros Hi Hj. rewrite Less_key by assumption. apply Z.leb_le. Qed.

Lemma Less_false (l : list A) (i j : nat) :
  i < length l -> j < length l ->
  sort.Less less l i j = false -> (K l j < K l i)%Z.
Proof. intros Hi Hj. rewrite Less_key by assumption. apply Z.leb_gt. Qed.

Lemma scanUp_spec (cond : nat -> bool) (n i j : nat) :
  S j - i <= n ->
  i <= sort.scanUp n cond i j
  /\ (i <= S j -> sort.scanUp n cond i j <= S j)
  /\ (forall k, i <= k < sort.scanUp n cond i j -> cond k = true)
  /\ (sort.scanUp n cond i j <= j -> cond (sort.scanUp n cond i j) = false).
Proof.
  revert i. induction n as [|n IH]; intros i Hn.
  - simpl. repeat split; intros; lia.
  - cbn [sort.scanUp].
    destruct (Nat.leb_spec i j) as [Hij|Hij]; cbn [andb].
    + destruct (cond i) eqn:Hc.
      * destruct (IH (S i)) as (H1 & H2 & H3 & H4); [lia|].
        repeat split; [lia|intros; apply H2; lia| |exact H4].
        intros k Hk. destruct (decide (k = i)) as [->|Hne]; [exact Hc|].
        apply H3. lia.
      * repeat split; intros; try lia. exact Hc.
    + repeat split; intros; lia.
Qed.

Lemma scanDown_spec (cond : nat -> bool) (n i j : nat) :
  1 <= i -> S j - i <= n ->
  sort.scanDown n cond i j <= j
  /\ (i <= S j -> i <= S (sort.scanDown n cond i j))
  /\ (forall k, sort.scanDown n cond i j < k <= j -> cond k = true)
  /\ (i <= sort.scanDown n cond i j -> cond (sort.scanDown n cond i j) = false).
Proof.
  intros Hi. revert j. induction n as [|n IH]; intros j Hn.
  - simpl. repeat split; intros; lia.
  - cbn [sort.scanDown].
    destruct (Nat.leb_spec i j) as [Hij|Hij]; cbn [andb].
    + destruct (cond j) eqn:Hc.
      * destruct (IH (j - 1)) as (H1 & H2 & H3 & H4); [lia|].
        repeat split; [lia|intros; apply H2; lia| |exact H4].
        intros k Hk. destruct (decide (k = j)) as [->|Hne]; [exact Hc|].
        apply H3. lia.
      * repeat split; intros; try lia. exact Hc.
    + repeat split; intros; lia.
Qed.

Lemma partition_loop_spec (a b n : nat) (d : list A) (i j : nat) :
  b <= length d -> a < i -> i <= S j -> j < b -> S j - i <= n ->
  (forall k, a < k < i -> (K d k <= K d a)%Z) ->
  (forall k, j < k < b -> (K d a < K d k)%Z) ->
  forall d' j', sort.partition_loop less n d a i j = (d', j') ->
    rearranged key (S a) b d d' /\ a <= j' < b
    /\ (forall k, a < k <= j' -> (K d' k <= K d' a)%Z)
    /\ (forall k, j' < k < b -> (K d' a < K d' k)%Z).
Proof.
  revert d i j. induction n as [|n IH];
    intros d i j Hlen Hai Hij Hjb Hn Hleft Hright d' j' Hrun.
  - simpl in Hrun. injection Hrun as <- <-.
    split; [apply rearranged_refl|]. split; [lia|].
    split; [intros; apply Hleft; lia|exact Hright].
  - cbn [sort.partition_loop] in Hrun. cbv zeta in Hrun.
    destruct (scanUp_spec (fun i => sort.Less less d i a) (S j - i) i j)
      as (Hu1 & Hu2 & Hu3 & Hu4); [lia|].
    set (i' := sort.scanUp _ _ i j) in *.
    destruct (scanDown_spec (fun j => negb (sort.Less less d j a)) (S j - i') i' j)
      as (Hd1 & Hd2 & Hd3 & Hd4); [lia|lia|].
    set (j1 := sort.scanDown _ _ i' j) in *.
    specialize (Hu2 Hij). specialize (Hd2 Hu2).
    assert (Hleft' : forall k, a < k < i' -> (K d k <= K d a)%Z).
    { intros k Hk. destruct (decide (k < i)) as [Hlt|Hge]; [apply Hleft; lia|].
      apply Less_true; [lia|lia|]. apply Hu3. lia. }
    assert (Hright' : forall k, j1 < k < b -> (K d a < K d k)%Z).
    { intros k Hk. destruct (decide (j < k)) as [Hlt|Hge]; [apply Hright; lia|].
      apply Less_false; [lia|lia|]. apply negb_true_iff. apply (Hd3 k). lia. }
    destruct (Nat.ltb_spec j1 i') as [Hcross|Hopen].
    + injection Hrun as <- <-.
      split; [apply rearranged_refl|]. split; [lia|].
      split; [intros; apply Hleft'; lia|exact Hright'].
    + assert (Hi' : (K d a < K d i')%Z).
      { apply Less_false; [lia|lia|]. apply Hu4. lia. }
      assert (Hj1 : (K d j1 <= K d a)%Z).
      { apply Less_true; [lia|lia|].
        specialize (Hd4 Hopen). by apply negb_false_iff in Hd4. }
      assert (Hne : i' <> j1) by (intros E; rewrite E in Hi'; lia).
      assert (Hr1 : rearranged key (S a) b d (sort.Swap d i' j1))
        by (apply rearranged_Swap; lia).
      destruct (IH (sort.Swap d i' j1) (i' + 1) (j1 - 1)) with (d' := d') (j' := j')
        as (Hr & Hj' & Hl & Hg); try lia.
      * rewrite Swap_length. lia.
      * intros k Hk. rewrite !Swap_key by lia.
        repeat destruct (decide _); try lia. apply Hleft'. lia.
      * intros k Hk. rewrite !Swap_key by lia.
        repeat destruct (decide _); try lia. apply Hright'. lia.
      * exact Hrun.
      * split; [eapply rearranged_trans; eassumption|]. split; [lia|]. by split.
Qed.

Lemma partition_spec (l : list A) (a b pivot : nat) :
  b <= length l -> a <= pivot < b ->
  forall l' mid alreadyPartitioned,
    sort.partition_func less l a b pivot = (l', mid, alreadyPartitioned) ->
    rearranged key a b l l' /\ a <= mid < b
    /\ (forall k, a <= k < mid -> (K l' k <= K l' mid)%Z)
    /\ (forall k, mid < k < b -> (K l' mid < K l' k)%Z).
Proof.
  intros Hlen Hpivot l' mid ap Hrun.
  set (d := sort.Swap l a pivot).
  assert (Hrd : rearranged key a b l d) by (apply rearranged_Swap; lia).
  assert (Hloop : exists d' j',
             sort.partition_loop less (S (b - a)) d a (a + 1) (b - 1) = (d', j')
             /\ l' = sort.Swap d' j' a /\ mid = j').
  { unfold sort.partition_func in Hrun. fold d in Hrun. cbv zeta in Hrun.
    cbn [sort.partition_loop]. cbv zeta.
    destruct (_ <? _).
    - injection Hrun as <- <- _. eauto.
    - destruct (sort.partition_loop _ _ _ _ _ _) as [d' j'].
      injection Hrun as <- <- _. eauto. }
  destruct Hloop as (d' & j' & Hloop & -> & ->).
  destruct (partition_loop_spec a b (S (b - a)) d (a + 1) (b - 1)) with (d' := d') (j' := j')
    as (Hr & Hj' & Hl & Hg); try lia.
  - unfold d. rewrite Swap_length. exact Hlen.
  - exact Hloop.
  - assert (Hlen' : length d' = length l).
    { rewrite (rearranged_length _ _ _ _ Hr). unfold d. apply Swap_length. }
    split.
    { eapply rearranged_trans; [exact Hrd|].
      eapply rearranged_trans; [eapply rearranged_mono; [| |exact Hr]; lia|].
      apply rearranged_Swap; lia. }
    split; [lia|]. split.
    + intros k Hk. rewrite !Swap_key by lia.
      repeat destruct (decide _); try lia; apply Hl; lia.
    + intros k Hk. rewrite !Swap_key by lia.
      repeat destruct (decide _); try lia; apply Hg; lia.
Qed.

(** *** The pivot, and the rearrangements around the partition *)

Lemma median_func_in (l : list A) (x y z s : nat) :
  fst (sort.median_func less l x y z s) = x
  \/ fst (sort.median_func less l x y z s) = y
  \/ fst (sort.median_func less l x y z s) = z.
Proof.
  unfold sort.median_func, sort.order2_func.
  repeat (destruct (sort.Less _ _ _ _); cbn [fst]); auto.
Qed.

Lemma choosePivot_in_range (l : list A) (a b : nat) :
  12 < b - a -> a <= fst (sort.choosePivot_func less l a b) < b.
Proof.
  intros Hlen. unfold sort.choosePivot_func. cbv zeta.
  pose proof (Nat.div_mod_eq (b - a) 4) as Hdiv.
  pose proof (Nat.mod_upper_bound (b - a) 4 ltac:(lia)) as Hmod.
  set (q := (b - a) / 4) in *.
  assert (Hfst : forall (p : nat * nat),
             fst (let '(j, swaps) := p in
                  match swaps with
                  | 0 => (j, sort.increasingHint)
                  | 12 => (j, sort.decreasingHint)
                  | _ => (j, sort.unknownHint)
                  end) = fst p).
  { intros [j swaps]. do 13 (destruct swaps as [|swaps]; [reflexivity|]). reflexivity. }
  rewrite Hfst. clear Hfst.
  destruct (Nat.leb_spec 8 (b - a)) as [H8|H8]; [|lia].
  destruct (Nat.leb_spec 50 (b - a)) as [H50|H50].
  - unfold sort.medianAdjacent_func.
    pose proof (median_func_in l (a + q * 1 - 1) (a + q * 1) (a + q * 1 + 1) 0) as Hi.
    destruct (sort.median_func less l (a + q * 1 - 1) _ _ 0) as [i s1].
    pose proof (median_func_in l (a + q * 2 - 1) (a + q * 2) (a + q * 2 + 1) s1) as Hj.
    destruct (sort.median_func less l (a + q * 2 - 1) _ _ s1) as [j s2].
    pose proof (median_func_in l (a + q * 3 - 1) (a + q * 3) (a + q * 3 + 1) s2) as Hk.
    destruct (sort.median_func less l (a + q * 3 - 1) _ _ s2) as [k s3].
    pose proof (median_func_in l i j k s3) as Hm.
    cbn [fst] in *. lia.
  - pose proof (median_func_in l (a + q * 1) (a + q * 2) (a + q * 3) 0) as Hm.
    lia.
Qed.

Lemma reverseRange_loop_spec (a b n : nat) (l : list A) (i j : nat) :
  a <= i -> j < b -> rearranged key a b l (sort.reverseRange_loop n l i j).
Proof.
  revert l i j. induction n as [|n IH]; intros l i j Hi Hj.
  - apply rearranged_refl.
  - cbn [sort.reverseRange_loop].
    destruct (Nat.ltb_spec i j) as [Hlt|Hge]; [|apply rearranged_refl].
    eapply rearranged_trans; [apply (rearranged_Swap a b l i j); lia|].
    apply IH; lia.
Qed.

Lemma reverseRange_spec (l : list A) (a b : nat) :
  a < b -> rearranged key a b l (sort.reverseRange_func l a b).
Proof. intros Hab. apply reverseRange_loop_spec; lia. Qed.

Lemma nextPowerOfTwo_bound (length : nat) :
  0 < length -> sort.nextPowerOfTwo length <= 2 * length.
Proof.
  intros Hpos. unfold sort.nextPowerOfTwo, sort.bitsLen.
  destruct length as [|n]; [lia|].
  pose proof (Nat.log2_spec (S n) ltac:(lia)) as [Hlow _].
  rewrite Nat.pow_succ_r'. lia.
Qed.

Lemma breakPatterns_other (length : nat) (random : N) :
  0 < length ->
  (if length <=? N.to_nat (N.land random (N.of_nat (sort.nextPowerOfTwo length) - 1))
   then N.to_nat (N.land random (N.of_nat (sort.nextPowerOfTwo length) - 1)) - length
   else N.to_nat (N.land random (N.of_nat (sort.nextPowerOfTwo length) - 1)))
  < length.
Proof.
  intros Hpos. pose proof (nextPowerOfTwo_bound length Hpos) as Hbound.
  assert (Hland : (N.land random (N.of_nat (sort.nextPowerOfTwo length) - 1)
                   < N.of_nat (sort.nextPowerOfTwo length))%N).
  { unfold sort.nextPowerOfTwo in *. rewrite Nat2N.inj_pow.
    rewrite N.sub_1_r, <- N.ones_equiv, N.land_ones.
    apply N.mod_lt. apply N.pow_nonzero. discriminate. }
  destruct (Nat.leb_spec length
              (N.to_nat (N.land random (N.of_nat (sort.nextPowerOfTwo length) - 1))));
    lia.
Qed.

Lemma breakPatterns_spec (l : list A) (a b : nat) :
  rearranged key a b l (sort.breakPatterns_func l a b).
Proof.
  unfold sort.breakPatterns_func. cbv zeta.
  destruct (Nat.leb_spec 8 (b - a)) as [H8|H8]; [|apply rearranged_refl].
  pose proof (Nat.div_mod_eq (b - a) 4) as Hdiv.
  pose proof (Nat.mod_upper_bound (b - a) 4 ltac:(lia)) as Hmod.
  assert (Hgen : forall (rounds : list nat) (d : list A) (random : N),
             Forall (fun i => i < 3) rounds ->
             rearranged key a b d
               (fst (foldl (fun '(data, random) i =>
                        let random := sort.xorshift_Next random in
                        let other :=
                          N.to_nat (N.land random
                                      (N.of_nat (sort.nextPowerOfTwo (b - a)) - 1)) in
                        let other :=
                          if b - a <=? other then other - (b - a) else other in
                        (sort.Swap data (a + (b - a) / 4 * 2 - 1 - 1 + i) (a + other),
                         random))
                      (d, random) rounds))).
  { induction rounds as [|i rounds IH]; intros d random Hall.
    - apply rearranged_refl.
    - inversion Hall as [|? ? Hi Hrest]; subst. cbn [foldl]. cbv zeta.
      eapply rearranged_trans; [|apply IH, Hrest].
      pose proof (breakPatterns_other (b - a) (sort.xorshift_Next random) ltac:(lia)).
      apply rearranged_Swap; lia. }
  apply Hgen. repeat constructor.
Qed.

(** *** Partial insertion sort *)

Lemma sortedOn_extend (l : list A) (a i : nat) :
  sortedOn key l a i -> a < i -> (K l (i - 1) <= K l i)%Z -> sortedOn key l a (S i).
Proof.
  intros Hs Hai Hle p q Hp Hpq Hq.
  destruct (decide (q = i)) as [->|Hne]; [|apply Hs; lia].
  destruct (decide (p = i)) as [->|Hpi]; [lia|].
  transitivity (K l (i - 1)); [apply Hs; lia|exact Hle].
Qed.

Lemma scanSorted_spec (a b n : nat) (l : list A) (i : nat) :
  b <= length l -> b - i <= n -> a < i -> i <= b -> sortedOn key l a i ->
  i <= sort.scanSorted less n l i b <= b
  /\ sortedOn key l a (sort.scanSorted less n l i b)
  /\ (sort.scanSorted less n l i b < b ->
      (K l (sort.scanSorted less n l i b) <= K l (sort.scanSorted less n l i b - 1))%Z).
Proof.
  intros Hlen. revert i. induction n as [|n IH]; intros i Hn Hai Hib Hs.
  - simpl. repeat split; try lia. exact Hs.
  - cbn [sort.scanSorted].
    destruct (Nat.ltb_spec i b) as [Hlt|Hge]; cbn [andb].
    + destruct (sort.Less less l i (i - 1)) eqn:Hless; cbn [negb].
      * split; [lia|]. split; [exact Hs|]. intros _.
        apply Less_true in Hless; [exact Hless|lia|lia].
      * apply Less_false in Hless; [|lia|lia].
        destruct (IH (S i)) as (H1 & H2 & H3); try lia.
        { apply sortedOn_extend; [exact Hs|lia|lia]. }
        split; [lia|]. by split.
    + split; [lia|]. split; [exact Hs|]. lia.
Qed.

Lemma shiftRight_spec (b n : nat) (l : list A) (j : nat) :
  1 <= j -> rearranged key (j - 1) b l (sort.shiftRight less n l j b).
Proof.
  revert l j. induction n as [|n IH]; intros l j Hj.
  - apply rearranged_refl.
  - cbn [sort.shiftRight].
    destruct (Nat.ltb_spec j b) as [Hlt|Hge]; cbn [andb]; [|apply rearranged_refl].
    destruct (sort.Less less l j (j - 1)); [|apply rearranged_refl].
    eapply rearranged_trans; [apply (rearranged_Swap (j - 1) b l j (j - 1)); lia|].
    eapply rearranged_mono; [| |apply IH]; lia.
Qed.

Lemma shiftLeft_lower (a j : nat) (l : list A) :
  a <= j -> j < length l ->
  (0 < a -> forall p, a <= p <= j -> (K l (a - 1) < K l p)%Z) ->
  sort.shiftLeft less l 0 j = sort.shiftLeft less l a j.
Proof.
  revert l. induction j as [|j IH]; intros l Haj Hjl Habove; [reflexivity|].
  cbn [sort.shiftLeft]. change (0 <? S j) with true. cbn [andb].
  destruct (Nat.ltb_spec a (S j)) as [Hlt|Hge]; cbn [andb].
  - destruct (sort.Less less l (S j) j); [|reflexivity].
    apply IH; [lia|rewrite Swap_length; lia|].
    intros Ha p Hp. rewrite !Swap_key by lia.
    repeat destruct (decide _); try lia; apply Habove; lia.
  - assert (a = S j) as -> by lia.
    rewrite Less_key by lia.
    specialize (Habove ltac:(lia) (S j) ltac:(lia)).
    replace (S j - 1) with j in Habove by lia.
    destruct (Z.leb_spec (K l (S j)) (K l j)); [lia|reflexivity].
Qed.

Lemma partialInsertionSort_loop_spec (a b steps : nat) (l : list A) (i : nat) :
  b <= length l -> a < i -> i <= b -> sortedOn key l a i -> aboveLeft key l a b ->
  forall l' sorted,
    sort.partialInsertionSort_loop less steps l a b i = (l', sorted) ->
    rearranged key a b l l' /\ (sorted = true -> sortedOn key l' a b).
Proof.
  revert l i. induction steps as [|steps IH];
    intros l i Hlen Hai Hib Hs Habove l' sorted Hrun.
  - simpl in Hrun. injection Hrun as <- <-. split; [apply rearranged_refl|discriminate].
  - cbn [sort.partialInsertionSort_loop] in Hrun. cbv zeta in Hrun.
    destruct (scanSorted_spec a b (b - i) l i) as (Hi' & Hs' & Hstop); try lia.
    { exact Hs. }
    set (i' := sort.scanSorted less (b - i) l i b) in *.
    destruct (Nat.eqb_spec i' b) as [Heq|Hne].
    { injection Hrun as <- <-. split; [apply rearranged_refl|].
      intros _. rewrite <- Heq. exact Hs'. }
    destruct (b - a <? 50).
    { injection Hrun as <- <-. split; [apply rearranged_refl|discriminate]. }
    set (l1 := sort.Swap l i' (i' - 1)) in *.
    assert (Hr1 : rearranged key a b l l1) by (apply rearranged_Swap; lia).
    assert (Hlen1 : length l1 = length l) by apply Swap_length.
    assert (Habove1 : aboveLeft key l1 a b).
    { eapply rearranged_aboveLeft; [| |exact Hr1|exact Habove]; lia. }
    set (l2 := if 2 <=? i' - a then sort.shiftLeft less l1 0 (i' - 1) else l1) in *.
    assert (H2 : sortedOn key l2 a i' /\ rearranged key a i' l1 l2).
    { unfold l2. destruct (Nat.leb_spec 2 (i' - a)) as [Hlong|Hshort].
      - rewrite (shiftLeft_lower a (i' - 1) l1); [|lia|lia|].
        + destruct (shiftLeft_sorted a (i' - 1) (i' - 1) l1) as [Hs2 Hr2]; try lia.
          { intros p q Hp Hpq Hq Hqne. unfold l1. rewrite !Swap_key by lia.
            repeat destruct (decide _); try lia. apply Hs'; lia. }
          replace (S (i' - 1)) with i' in Hs2, Hr2 by lia. by split.
        + intros Ha p Hp. apply Habove1; lia.
      - split; [|apply rearranged_refl]. intros p q Hp Hpq Hq.
        assert (p = q) as -> by lia. lia. }
    destruct H2 as [Hs2 Hr2].
    assert (Hlen2 : length l2 = length l).
    { rewrite (rearranged_length _ _ _ _ Hr2). exact Hlen1. }
    set (l3 := if 2 <=? b - i' then sort.shiftRight less (b - i') l2 (i' + 1) b else l2)
      in *.
    assert (Hr3 : rearranged key i' b l2 l3).
    { unfold l3. destruct (2 <=? b - i'); [|apply rearranged_refl].
      pose proof (shiftRight_spec b (b - i') l2 (i' + 1) ltac:(lia)) as H.
      replace (i' + 1 - 1) with i' in H by lia. exact H. }
    assert (Hr13 : rearranged key a b l l3).
    { eapply rearranged_trans; [exact Hr1|].
      eapply rearranged_trans; [eapply rearranged_mono; [| |exact Hr2]; lia|].
      eapply rearranged_mono; [| |exact Hr3]; lia. }
    destruct (IH l3 i') with (l' := l') (sorted := sorted) as [Hr Hsorted]; try lia.
    + rewrite (rearranged_length _ _ _ _ Hr3). lia.
    + intros p q Hp Hpq Hq. destruct Hr3 as (_ & _ & Hf & _).
      rewrite !Hf by lia. apply Hs2; lia.
    + eapply rearranged_aboveLeft; [| |exact Hr13|exact Habove]; lia.
    + exact Hrun.
    + split; [eapply rearranged_trans; eassumption|exact Hsorted].
Qed.

Lemma partialInsertionSort_spec (l : list A) (a b : nat) :
  b <= length l -> a < b -> aboveLeft key l a b ->
  forall l' sorted,
    sort.partialInsertionSort_func less l a b = (l', sorted) ->
    rearranged key a b l l' /\ (sorted = true -> sortedOn key l' a b).
Proof.
  intros Hlen Hab Habove. unfold sort.partialInsertionSort_func.
  apply partialInsertionSort_loop_spec; try lia; [|exact Habove].
  intros p q Hp Hpq Hq. assert (p = q) as -> by lia. lia.
Qed.

(** *** The quicksort loop *)

Lemma sortedOn_join (l : list A) (a mid b : nat) :
  partitioned key l a mid b ->
  sortedOn key l a mid -> sortedOn key l (mid + 1) b -> sortedOn key l a b.
Proof.
  intros [Hleft Hright] Hsl Hsr p q Hp Hpq Hq.
  destruct (decide (q < mid)) as [Hqm|Hqm]; [apply Hsl; lia|].
  destruct (decide (mid < p)) as [Hpm|Hpm]; [apply Hsr; lia|].
  destruct (decide (p = mid)) as [->|Hpne];
    destruct (decide (q = mid)) as [->|Hqne]; try lia.
  - specialize (Hright q ltac:(lia)). lia.
  - apply Hleft. lia.
  - specialize (Hleft p ltac:(lia)). specialize (Hright q ltac:(lia)). lia.
Qed.

Lemma partitioned_left (l l' : list A) (a mid b : nat) :
  rearranged key a mid l l' -> partitioned key l a mid b -> partitioned key l' a mid b.
Proof.
  intros (_ & _ & Hf & Hc) [Hleft Hright]. split.
  - rewrite (Hf mid) by lia. apply (Hc (fun x => (x <= K l mid)%Z)). exact Hleft.
  - intros k Hk. rewrite (Hf mid), (Hf k) by lia. by apply Hright.
Qed.

Lemma partitioned_right (l l' : list A) (a mid b : nat) :
  rearranged key (mid + 1) b l l' -> partitioned key l a mid b ->
  partitioned key l' a mid b.
Proof.
  intros (_ & _ & Hf & Hc) [Hleft Hright]. split.
  - intros k Hk. rewrite (Hf mid), (Hf k) by lia. by apply Hleft.
  - rewrite (Hf mid) by lia. intros k Hk.
    apply (Hc (fun x => (K l mid < x)%Z)); [|lia].
    intros i Hi. apply Hright. lia.
Qed.

Lemma sortedOn_outside (l l' : list A) (a b a' b' : nat) :
  rearranged key a' b' l l' -> b <= a' \/ b' <= a ->
  sortedOn key l a b -> sortedOn key l' a b.
Proof.
  intros (_ & _ & Hf & _) Hout Hs p q Hp Hpq Hq.
  rewrite (Hf p), (Hf q) by lia. by apply Hs.
Qed.

Lemma aboveLeft_partitioned (l : list A) (a mid b : nat) :
  partitioned key l a mid b -> aboveLeft key l (mid + 1) b.
Proof.
  intros [_ Hright] _ i Hi. replace (mid + 1 - 1) with mid by lia.
  apply Hright. lia.
Qed.

Lemma aboveLeft_shorter (l : list A) (a b b' : nat) :
  b' <= b -> aboveLeft key l a b -> aboveLeft key l a b'.
Proof. intros Hb Habove Ha i Hi. apply Habove; [exact Ha|lia]. Qed.

Lemma pdqsort_loop_spec (n : nat) :
  forall (l : list A) (a b limit : nat) (wasBalanced wasPartitioned : bool),
    a <= b -> b <= length l -> b - a < n -> aboveLeft key l a b ->
    sortedOn key (sort.pdqsort_loop less n l a b limit wasBalanced wasPartitioned) a b
    /\ rearranged key a b l
         (sort.pdqsort_loop less n l a b limit wasBalanced wasPartitioned).
Proof.
  induction n as [|n IH]; intros l a b limit wb wp Hab Hlen Hn Habove; [lia|].
  cbn [sort.pdqsort_loop]. cbv zeta.
  destruct (Nat.leb_spec (b - a) 12) as [Hshort|Hlong].
  { by apply insertionSort_spec. }
  destruct (Nat.eqb_spec limit 0) as [Hlimit|Hlimit].
  { by apply heapSort_spec. }
  (* breakPatterns *)
  assert (H0 : exists l0 limit0,
             (if negb wb then (sort.breakPatterns_func l a b, limit - 1)
              else (l, limit)) = (l0, limit0)
             /\ rearranged key a b l l0).
  { destruct wb; cbn [negb]; eexists _, _; (split; [reflexivity|]).
    - apply rearranged_refl.
    - apply breakPatterns_spec. }
  destruct H0 as (l0 & limit0 & -> & Hr0).
  assert (Hlen0 : length l0 = length l) by apply (rearranged_length _ _ _ _ Hr0).
  (* choosePivot *)
  pose proof (choosePivot_in_range l0 a b Hlong) as Hpivot.
  destruct (sort.choosePivot_func less l0 a b) as [pivot hint]. cbn [fst] in Hpivot.
  assert (H1 : exists l1 pivot1 hint1,
             match hint with
             | sort.decreasingHint =>
                 (sort.reverseRange_func l0 a b, b - 1 - (pivot - a), sort.increasingHint)
             | _ => (l0, pivot, hint)
             end = (l1, pivot1, hint1)
             /\ rearranged key a b l0 l1 /\ a <= pivot1 < b).
  { destruct hint; eexists _, _, _; (split; [reflexivity|]); split;
      try apply rearranged_refl; try lia.
    apply reverseRange_spec. lia. }
  destruct H1 as (l1 & pivot1 & hint1 & -> & Hr1 & Hpivot1).
  assert (Hr01 : rearranged key a b l l1) by (eapply rearranged_trans; eassumption).
  assert (Hlen1 : length l1 = length l) by apply (rearranged_length _ _ _ _ Hr01).
  assert (Habove1 : aboveLeft key l1 a b).
  { eapply rearranged_aboveLeft; [| |exact Hr01|exact Habove]; lia. }
  (* partialInsertionSort *)
  assert (H2 : exists l2 sorted,
             match hint1 with
             | sort.increasingHint =>
                 if wb && wp then sort.partialInsertionSort_func less l1 a b
                 else (l1, false)
             | _ => (l1, false)
             end = (l2, sorted)
             /\ rearranged key a b l1 l2 /\ (sorted = true -> sortedOn key l2 a b)).
  { destruct hint1; try (eexists _, _; split; [reflexivity|];
                         split; [apply rearranged_refl|discriminate]).
    destruct (wb && wp); try (eexists _, _; split; [reflexivity|];
                              split; [apply rearranged_refl|discriminate]).
    destruct (sort.partialInsertionSort_func less l1 a b) as [l2 sorted] eqn:Hrun.
    exists l2, sorted. split; [reflexivity|].
    eapply partialInsertionSort_spec; [| |exact Habove1|exact Hrun]; lia. }
  destruct H2 as (l2 & sorted & -> & Hr2 & Hsorted2).
  assert (Hr02 : rearranged key a b l l2) by (eapply rearranged_trans; eassumption).
  destruct sorted.
  { split; [by apply Hsorted2|exact Hr02]. }
  assert (Hlen2 : length l2 = length l) by apply (rearranged_length _ _ _ _ Hr02).
  assert (Habove2 : aboveLeft key l2 a b).
  { eapply rearranged_aboveLeft; [| |exact Hr02|exact Habove]; lia. }
  (* the left neighbour is below the pivot *)
  assert (Hdead : (0 <? a) && negb (sort.Less less l2 (a - 1) pivot1) = false).
  { destruct (Nat.ltb_spec 0 a) as [Hpos|Hzero]; [|reflexivity]. cbn [andb].
    rewrite Less_key by lia. specialize (Habove2 Hpos pivot1 Hpivot1).
    destruct (Z.leb_spec (K l2 (a - 1)) (K l2 pivot1)); [reflexivity|lia]. }
  rewrite Hdead.
  (* partition *)
  destruct (sort.partition_func less l2 a b pivot1) as [[l3 mid] ap] eqn:Hpart.
  destruct (partition_spec l2 a b pivot1 ltac:(lia) Hpivot1 l3 mid ap Hpart)
    as (Hr3 & Hmid & Hleft & Hright).
  assert (Hp3 : partitioned key l3 a mid b) by (by split).
  assert (Hr03 : rearranged key a b l l3) by (eapply rearranged_trans; eassumption).
  assert (Hlen3 : length l3 = length l) by apply (rearranged_length _ _ _ _ Hr03).
  assert (Habove3 : aboveLeft key l3 a b).
  { eapply rearranged_aboveLeft; [| |exact Hr03|exact Habove]; lia. }
  destruct (mid - a <? b - mid).
  - destruct (IH l3 a mid limit0 true true) as [Hs4 Hr4]; try lia.
    { eapply aboveLeft_shorter; [|exact Habove3]. lia. }
    set (l4 := sort.pdqsort_loop less n l3 a mid limit0 true true) in *.
    assert (Hp4 : partitioned key l4 a mid b) by (eapply partitioned_left; eassumption).
    destruct (IH l4 (mid + 1) b limit0 ((b - a) / 8 <=? mid - a) ap)
      as [Hs5 Hr5]; try lia.
    { rewrite (rearranged_length _ _ _ _ Hr4). lia. }
    { eapply aboveLeft_partitioned; exact Hp4. }
    set (l5 := sort.pdqsort_loop less n l4 (mid + 1) b limit0 _ ap) in *.
    split.
    + apply (sortedOn_join l5 a mid b).
      * eapply partitioned_right; eassumption.
      * eapply sortedOn_outside; [exact Hr5|lia|exact Hs4].
      * exact Hs5.
    + eapply rearranged_trans; [exact Hr03|].
      eapply rearranged_trans; [eapply rearranged_mono; [| |exact Hr4]; lia|].
      eapply rearranged_mono; [| |exact Hr5]; lia.
  - destruct (IH l3 (mid + 1) b limit0 true true) as [Hs4 Hr4]; try lia.
    { eapply aboveLeft_partitioned; exact Hp3. }
    set (l4 := sort.pdqsort_loop less n l3 (mid + 1) b limit0 true true) in *.
    assert (Hp4 : partitioned key l4 a mid b) by (eapply partitioned_right; eassumption).
    destruct (IH l4 a mid limit0 ((b - a) / 8 <=? b - mid) ap)
      as [Hs5 Hr5]; try lia.
    { rewrite (rearranged_length _ _ _ _ Hr4). lia. }
    { eapply aboveLeft_shorter; [|eapply rearranged_aboveLeft;
                                   [| |exact Hr4|exact Habove3]]; lia. }
    set (l5 := sort.pdqsort_loop less n l4 a mid limit0 _ ap) in *.
    split.
    + apply (sortedOn_join l5 a mid b).
      * eapply partitioned_left; eassumption.
      * exact Hs5.
      * eapply sortedOn_outside; [exact Hr5|lia|exact Hs4].
    + eapply rearranged_trans; [exact Hr03|].
      eapply rearranged_trans; [eapply rearranged_mono; [| |exact Hr4]; lia|].
      eapply rearranged_mono; [| |exact Hr5]; lia.
Qed.

Lemma Slice_spec (l : list A) :
  sortedOn key (sort.Slice less l) 0 (length l)
  /\ rearranged key 0 (length l) l (sort.Slice less l).
Proof.
  unfold sort.Slice, sort.pdqsort_func. cbv zeta.
  apply pdqsort_loop_spec; try lia. intros Hpos. lia.
Qed.

Lemma sortedOn_StronglySorted (l : list A) :
  sortedOn key l 0 (length l) ->
  StronglySorted (fun x y => (key x <= key y)%Z) l.
Proof.
  induction l as [|x l IH]; intros Hs; constructor.
  - apply IH. intros p q Hp Hpq Hq. apply (Hs (S p) (S q)); simpl; lia.
  - apply List.Forall_forall. intros y Hy.
    apply list_elem_of_In, list_elem_of_lookup in Hy as [q Hq].
    pose proof (lookup_lt_Some _ _ _ Hq) as Hlt.
    specialize (Hs 0 (S q) ltac:(lia) ltac:(lia) ltac:(simpl; lia)).
    unfold keyAt in Hs. simpl in Hs. rewrite Hq in Hs. exact Hs.
Qed.


End SortSlice.

(** [sort.Slice] with the closure of the loop leaves the tasks ascending by
    Version, and rearranges them. *)
Lemma sortSlice_ascending (data : list Meta) :
  StronglySorted versionLe (sortSlice lessVersion data).
Proof.
  pose (key := fun m : Meta => IndexMeta.Version (indexMeta m)).
  destruct (Slice_spec key data) as (Hsorted & Hlen & _).
  apply (sortedOn_StronglySorted key).
  change (sortSlice lessVersion data) with (sort.Slice (leKey key) data).
  rewrite Hlen. exact Hsorted.
Qed.

Lemma sortSlice_perm (data : list Meta) : sortSlice lessVersion data ≡ₚ data.
Proof.
  pose (key := fun m : Meta => IndexMeta.Version (indexMeta m)).
  by destruct (Slice_spec key data) as (_ & _ & Hperm & _).
Qed.

Lemma StronglySorted_lookup {A} (R : A -> A -> Prop) (l : list A) :
  StronglySorted R l ->
  forall (n1 n2 : nat) (a b : A),
    (n1 < n2)%nat -> l !! n1 = Some a -> l !! n2 = Some b -> R a b.
Proof.
  induction 1 as [|y l Hsorted IH Hall]; intros n1 n2 a b Hlt Ha Hb.
  - destruct n1; discriminate.
  - destruct n2 as [|n2]; [lia|]. simpl in Hb.
    destruct n1 as [|n1].
    + simpl in Ha. injection Ha as <-.
      rewrite Forall_forall in Hall. apply Hall.
      eapply list_elem_of_lookup_2. exact Hb.
    + simpl in Ha. eapply IH; [|exact Ha|exact Hb]. lia.
Qed.

Lemma assignTick_dispatched (env : Env) (i : IndexCoord) :
  exists k,
    dispatched (snd (assignTick env i))
    = createIndexRequest <$> take k (tickMetas env i).
Proof.
  unfold assignTick. destruct (_ <=? 0).
  - exists 0%nat. reflexivity.
  - apply assignLoop_dispatched.
Qed.

Lemma tickMetas_in_table (env : Env) (i : IndexCoord) (m : Meta) :
  m ∈ tickMetas env i -> exists k, metaTable_ i !! k = Some m.
Proof.
  unfold tickMetas. rewrite sortSlice_perm. intros Hin.
  apply list_elem_of_In in Hin. unfold metaTable.GetUnassignedTasks in Hin.
  apply filter_In in Hin as [Hin _]. by apply value_in_table.
Qed.

(** As long as no Version of the table is the int64 maximum, the Version
    fields of the requests of one tick are ascending as well. *)
Lemma dispatch_request_Version_ascending (env : Env) (i : IndexCoord) :
  map_Forall (fun _ m => - two63 <= IndexMeta.Version (indexMeta m) < two63 - 1)
             (metaTable_ i) ->
  forall (n1 n2 : nat) (r1 r2 : CreateIndexRequest.t),
    (n1 < n2)%nat ->
    dispatched (snd (assignTick env i)) !! n1 = Some r1 ->
    dispatched (snd (assignTick env i)) !! n2 = Some r2 ->
    CreateIndexRequest.Version r1 <= CreateIndexRequest.Version r2.
Proof.
  intros Hrange n1 n2 r1 r2 Hlt H1 H2.
  destruct (assignTick_dispatched env i) as [k Hk]. rewrite Hk in H1, H2.
  apply list_lookup_fmap_Some in H1 as (m1 & -> & H1).
  apply list_lookup_fmap_Some in H2 as (m2 & -> & H2).
  apply lookup_take_Some in H1 as [H1 _]. apply lookup_take_Some in H2 as [H2 _].
  pose proof (StronglySorted_lookup _ _ (sortSlice_ascending _) n1 n2 m1 m2 Hlt H1 H2)
    as Hle.
  destruct (tickMetas_in_table env i m1) as [k1 Hk1];
    [eapply list_elem_of_lookup_2; exact H1|].
  destruct (tickMetas_in_table env i m2) as [k2 Hk2];
    [eapply list_elem_of_lookup_2; exact H2|].
  apply Hrange in Hk1, Hk2. simpl in Hk1, Hk2. unfold versionLe in Hle.
  unfold createIndexRequest. simpl. rewrite !wrap64_succ by assumption. lia.
Qed.

(** C8. In one tick the requests go out, in order, for a leading segment
    of the sorted list of unassigned tasks, and that list is a
    rearrangement of what [GetUnassignedTasks] returned; of two tasks
    dispatched in the tick, the one dispatched earlier has a Version (the
    one the tick read, which the request carries plus one) less than or
    equal to that of the later. *)
Theorem dispatch_in_ascending_Version (env : Env) (i : IndexCoord) :
  exists ms : list Meta,
    dispatched (snd (assignTick env i)) = createIndexRequest <$> ms
    /\ ms `prefix_of` tickMetas env i
    /\ tickMetas env i
       ≡ₚ metaTable.GetUnassignedTasks (metaTable_ i)
            (ServerID <$> fst (GetSessions env))
    /\ forall (n1 n2 : nat) (m1 m2 : Meta),
         (n1 < n2)%nat -> ms !! n1 = Some m1 -> ms !! n2 = Some m2 ->
         IndexMeta.Version (indexMeta m1) <= IndexMeta.Version (indexMeta m2).
Proof.
  assert (Hsorted : StronglySorted versionLe (tickMetas env i))
    by apply sortSlice_ascending.
  assert (Hperm : tickMetas env i
                  ≡ₚ metaTable.GetUnassignedTasks (metaTable_ i)
                       (ServerID <$> fst (GetSessions env)))
    by apply sortSlice_perm.
  destruct (assignTick_dispatched env i) as [k Hk]. exists (take k (tickMetas env i)).
  repeat split; try assumption.
  - apply prefix_take.
  - intros n1 n2 m1 m2 Hlt H1 H2.
    apply lookup_take_Some in H1 as [H1 _]. apply lookup_take_Some in H2 as [H2 _].
    exact (StronglySorted_lookup _ _ Hsorted n1 n2 m1 m2 Hlt H1 H2).
Qed.

(** ** The recycle loop *)

Lemma Itoa_inj (a b : Z) : Itoa a = Itoa b -> a = b.
Proof.
  unfold Itoa. intros H.
  assert (Hnz : forall z, Z.to_int z <> Decimal.Pos Decimal.Nil
                          /\ Z.to_int z <> Decimal.Neg Decimal.Nil).
  { intros [|p|p]; simpl; split; try discriminate;
      intros [= Hp]; exact (DecimalPos.Unsigned.to_uint_nonnil p Hp). }
  apply (f_equal NilZero.int_of_string) in H.
  destruct (Hnz a) as [Ha1 Ha2]. destruct (Hnz b) as [Hb1 Hb2].
  rewrite !NilZero.isi in H by assumption.
  injection H as H. by apply DecimalZ.to_int_inj.
Qed.

Lemma removedPrefixes_app (t1 t2 : list Event) :
  removedPrefixes (t1 ++ t2) = removedPrefixes t1 ++ removedPrefixes t2.
Proof. apply omap_app. Qed.

Lemma removedPrefixes_removals (f : Z -> string) (g : string -> error) (js : list Z) :
  removedPrefixes ((fun j => EvRemoveWithPrefix (f j) (g (f j))) <$> js) = f <$> js.
Proof.
  unfold removedPrefixes.
  induction js as [|j js IH]; [reflexivity|].
  rewrite !fmap_cons. cbn [omap list_omap]. by rewrite IH.
Qed.

(** The prefix of one version of one task in the blob store. *)
Lemma versionPrefix_inj (id j1 j2 : Z) :
  Itoa id +:+ "/" +:+ Itoa j1 = Itoa id +:+ "/" +:+ Itoa j2 -> j1 = j2.
Proof.
  intros H. apply String.app_inj in H. apply String.app_inj in H.
  by apply Itoa_inj.
Qed.

(** The calls of one round of the recycle loop on a record that is not
    marked deleted, with Version V: the arguments handed to
    [RemoveWithPrefix] are str(IndexBuildID)/str(j) for j = 1, ..., V-1,
    in that order, and no other string (str(IndexBuildID)/str(V) is not
    among the arguments); after these calls, and whatever they returned,
    [UpdateRecycleState] is called once, and when it reports no error the
    record of the table has Recycled = true.  What a prefix-scoped delete
    removes for these arguments is the matter of the theorem that
    follows. *)
Lemma stale_versions_recycled (env : Env) (i : IndexCoord) (meta : Meta) :
  let id := IndexMeta.IndexBuildID (indexMeta meta) in
  let V := IndexMeta.Version (indexMeta meta) in
  let prefix := fun j : Z => Itoa id +:+ "/" +:+ Itoa j in
  IndexMeta.MarkDeleted (indexMeta meta) = false ->
  exists removals err,
    snd (recycleOne env i meta) = removals ++ [EvUpdateRecycleState id err]
    /\ removals
       = (fun j => EvRemoveWithPrefix (prefix j) (RemoveWithPrefix env (prefix j)))
           <$> seqZ 1 (V - 1)
    /\ removedPrefixes (snd (recycleOne env i meta)) = prefix <$> seqZ 1 (V - 1)
    /\ (forall p, p ∈ removedPrefixes (snd (recycleOne env i meta))
                  <-> exists j, 1 <= j <= V - 1 /\ p = prefix j)
    /\ (prefix V ∉ removedPrefixes (snd (recycleOne env i meta)))
    /\ err = snd (metaTable.UpdateRecycleState env (metaTable_ i) id)
    /\ match err with
       | None =>
           (IndexMeta.Recycled ∘ indexMeta)
             <$> (metaTable_ (fst (recycleOne env i meta)) !! id) = Some true
       | Some _ => metaTable_ (fst (recycleOne env i meta)) = metaTable_ i
       end.
Proof.
  intros id V prefix Hlive.
  assert (Hprefixes :
            removedPrefixes (snd (recycleOne env i meta)) = prefix <$> seqZ 1 (V - 1)).
  { unfold recycleOne. rewrite Hlive. fold id. fold V.
    destruct (metaTable.UpdateRecycleState env (metaTable_ i) id) as [mt err].
    simpl. rewrite removedPrefixes_app. simpl. rewrite app_nil_r.
    apply (removedPrefixes_removals prefix). }
  assert (Hmem : forall p, p ∈ removedPrefixes (snd (recycleOne env i meta))
                           <-> exists j, 1 <= j <= V - 1 /\ p = prefix j).
  { intros p. rewrite Hprefixes, list_elem_of_fmap. split.
    - intros (j & -> & Hj). apply elem_of_seqZ in Hj. exists j. split; [lia|done].
    - intros (j & Hj & ->). exists j. split; [done|]. apply elem_of_seqZ. lia. }
  unfold recycleOne in *. rewrite Hlive in *. fold id in Hprefixes, Hmem |- *.
  fold V in Hprefixes, Hmem |- *.
  unfold metaTable.UpdateRecycleState in *.
  destruct (metaTable_ i !! id) as [m|] eqn:Hm.
  - destruct (saveIndexMeta env _) as [e|] eqn:Hsave; simpl in *.
    + eexists _, _. repeat split; try eassumption; try apply Hmem.
      intros Hin. apply Hmem in Hin as (j & Hj & Heq).
      apply versionPrefix_inj in Heq. lia.
    + eexists _, _. repeat split; try eassumption; try apply Hmem.
      * intros Hin. apply Hmem in Hin as (j & Hj & Heq).
        apply versionPrefix_inj in Heq. lia.
      * by rewrite lookup_insert_eq.
  - simpl in *. eexists _, _. repeat split; try eassumption; try apply Hmem.
    intros Hin. apply Hmem in Hin as (j & Hj & Heq).
    apply versionPrefix_inj in Heq. lia.
Qed.

Lemma stale_versions_recycled_witness :
  let meta := Examples.task 5 commonpb.IndexState_Finished 3 false false in
  let i := Examples.coord internalpb.StateCode_Healthy {[ 5 := meta ]} in
  snd (recycleOne Examples.blobDown i meta)
  = [EvRemoveWithPrefix "5/1" (Some "blob store unavailable");
     EvRemoveWithPrefix "5/2" (Some "blob store unavailable");
     EvUpdateRecycleState 5 None]
  /\ ("5/3" ∉ removedPrefixes (snd (recycleOne Examples.blobDown i meta)))
  /\ (IndexMeta.Recycled ∘ indexMeta)
       <$> (metaTable_ (fst (recycleOne Examples.blobDown i meta)) !! 5) = Some true.
Proof.
  cbv zeta.
  destruct (stale_versions_recycled Examples.blobDown
              (Examples.coord internalpb.StateCode_Healthy
                 {[ 5 := Examples.task 5 commonpb.IndexState_Finished 3 false false ]})
              (Examples.task 5 commonpb.IndexState_Finished 3 false false))
    as (removals & err & Htrace & -> & _ & _ & Hcur & -> & Hrec).
  - reflexivity.
  - split; [exact Htrace|]. split; [exact Hcur|exact Hrec].
Defined.

(** C9. A live record with build id 5 and Version 12, and a store that
    holds, among others, a file of the current version 12.  One tick of
    the recycle loop asks the store to remove the prefixes 5/1, ..., 5/11
    and sets Recycled; 5/12 is not among them.  But the prefix 5/1 is
    built without a closing separator, so it is also the beginning of the
    keys under 5/12/: with the prefix-scoped delete of the store the file
    of the current version is gone after the tick, together with the stale
    ones, while the record still has Version 12. *)
Theorem stale_removal_deletes_current_version :
  let meta := Examples.task 5 commonpb.IndexState_Finished 12 false false in
  let i := Examples.coord internalpb.StateCode_Healthy {[ 5 := meta ]} in
  let trace := snd (recycleTick Examples.calm i) in
  let after := metaTable_ (fst (recycleTick Examples.calm i)) !! 5 in
  let store :=
    [blobKey 5 2 "index"; blobKey 5 11 "index"; blobKey 5 12 "index";
     blobKey 6 1 "index"] in
  removedPrefixes trace
  = ["5/1"; "5/2"; "5/3"; "5/4"; "5/5"; "5/6"; "5/7"; "5/8"; "5/9"; "5/10"; "5/11"]
  /\ blobKey 5 12 "index" = "5/12/index"
  /\ String.prefix "5/1" (blobKey 5 12 "index") = true
  /\ afterRemovals trace store = [blobKey 6 1 "index"]
  /\ (IndexMeta.Recycled ∘ indexMeta) <$> after = Some true
  /\ (IndexMeta.Version ∘ indexMeta) <$> after = Some 12.
Proof. cbv zeta. repeat split; vm_compute; reflexivity. Qed.

(** A record that still needs recycling after one round needed it
    before: a round deletes a record or sets its Recycled flag, and
    touches no other record. *)
Lemma recycleOne_unused_shrinks (env : Env) (i : IndexCoord) (meta : Meta)
    (k : UniqueID) (m' : Meta) :
  metaTable_ (fst (recycleOne env i meta)) !! k = Some m' ->
  metaTable.unused m' = true ->
  exists m, metaTable_ i !! k = Some m /\ metaTable.unused m = true.
Proof.
  unfold recycleOne.
  destruct (IndexMeta.MarkDeleted (indexMeta meta)); simpl.
  - unfold metaTable.DeleteIndex. intros Hk Hun.
    apply lookup_delete_Some in Hk as [_ Hk]. eauto.
  - unfold metaTable.UpdateRecycleState.
    set (id := IndexMeta.IndexBuildID (indexMeta meta)).
    destruct (metaTable_ i !! id) as [m|] eqn:Hm; [|simpl; eauto].
    destruct (saveIndexMeta env _) as [e|]; simpl; [eauto|].
    intros Hk Hun. destruct (decide (id = k)) as [<-|Hne].
    + rewrite lookup_insert_eq in Hk. injection Hk as <-.
      exists m. split; [exact Hm|].
      unfold metaTable.unused in *. simpl in Hun.
      rewrite andb_false_r, orb_false_r in Hun. by rewrite Hun.
    + rewrite lookup_insert_ne in Hk by assumption. eauto.
Qed.

Lemma recycleLoop_unused_shrinks (env : Env) (metas : list Meta) :
  forall (i : IndexCoord) (k : UniqueID) (m' : Meta),
    metaTable_ (fst (recycleLoop env i metas)) !! k = Some m' ->
    metaTable.unused m' = true ->
    exists m, metaTable_ i !! k = Some m /\ metaTable.unused m = true.
Proof.
  induction metas as [|meta rest IH]; intros i k m' Hk Hun.
  - simpl in Hk. eauto.
  - simpl in Hk.
    pose proof (recycleOne_unused_shrinks env i meta k) as Hone.
    destruct (recycleOne env i meta) as [i1 evs].
    specialize (IH i1 k m').
    destruct (recycleLoop env i1 rest) as [i2 evs'].
    simpl in *. destruct (IH Hk Hun) as (m1 & Hk1 & Hun1). eauto.
Qed.

(** C4, as the code has it.  One round of the recycle loop on a record
    marked deleted asks the blob store to remove the prefix
    str(IndexBuildID) and then deletes the record's metadata with
    [DeleteIndex], whatever the blob store answered: a failure is only
    logged and the record is not seen by a later tick.  A tick never adds
    to the records that need recycling: each one that is left was there,
    and needed recycling, before the tick. *)
Theorem deleted_record_recycled (env : Env) (i : IndexCoord) (meta : Meta) :
  let id := IndexMeta.IndexBuildID (indexMeta meta) in
  IndexMeta.MarkDeleted (indexMeta meta) = true ->
  recycleOne env i meta
  = (withMeta i (metaTable.DeleteIndex (metaTable_ i) id),
     [EvRemoveWithPrefix (Itoa id) (RemoveWithPrefix env (Itoa id));
      EvDeleteIndex id])
  /\ metaTable_ (fst (recycleOne env i meta)) !! id = None
  /\ forall (k : UniqueID) (m' : Meta),
       metaTable_ (fst (recycleTick env i)) !! k = Some m' ->
       metaTable.unused m' = true ->
       exists m, metaTable_ i !! k = Some m /\ metaTable.unused m = true.
Proof.
  intros id Hdel. unfold recycleOne. fold id. rewrite Hdel. simpl.
  repeat split.
  - apply lookup_delete_eq.
  - intros k m'. apply recycleLoop_unused_shrinks.
Qed.

Lemma deleted_record_recycled_witness :
  let meta := Examples.task 7 commonpb.IndexState_Finished 1 true false in
  let i := Examples.coord internalpb.StateCode_Healthy {[ 7 := meta ]} in
  recycleOne Examples.calm i meta
  = (withMeta i (metaTable.DeleteIndex (metaTable_ i) 7),
     [EvRemoveWithPrefix "7" None; EvDeleteIndex 7]).
Proof.
  cbv zeta.
  destruct (deleted_record_recycled Examples.calm
              (Examples.coord internalpb.StateCode_Healthy
                 {[ 7 := Examples.task 7 commonpb.IndexState_Finished 1 true false ]})
              (Examples.task 7 commonpb.IndexState_Finished 1 true false))
    as [Hstep _].
  - reflexivity.
  - exact Hstep.
Defined.

(** C4, as stated, fails.  The blob store refuses to remove the prefix of
    the deleted task 7; the tick deletes the record's metadata all the
    same, and the next tick finds nothing to retry. *)
Lemma metadata_deleted_after_blob_failure :
  let meta := Examples.task 7 commonpb.IndexState_Finished 1 true false in
  let i := Examples.coord internalpb.StateCode_Healthy {[ 7 := meta ]} in
  RemoveWithPrefix Examples.blobDown (Itoa 7) = Some "blob store unavailable"
  /\ metaTable_ i !! 7 = Some meta
  /\ snd (recycleTick Examples.blobDown i)
     = [EvRemoveWithPrefix "7" (Some "blob store unavailable"); EvDeleteIndex 7]
  /\ metaTable_ (fst (recycleTick Examples.blobDown i)) !! 7 = None
  /\ snd (recycleTick Examples.blobDown (fst (recycleTick Examples.blobDown i))) = [].
Proof. cbv zeta. repeat split; vm_compute; reflexivity. Qed.

(** * Further properties *)

(** ** datacoord: the RPC surface *)

Section DataCoord.

Context {W : Type}.
Variable c : datacoord.Collab W.

(** X1. A server that is not serving answers every gated RPC with
    UnexpectedError and the reason "server is not serving" ([GetMetrics]:
    the unhealthy message), an empty payload and a nil Go error, and
    leaves the state of its collaborators and [flushCh] as they were. *)
Theorem closed_server_refuses (env : Env) (s : datacoord.Server W)
    (flush : datacoord.FlushRequest.t) (reqs : list datacoord.SegmentIDRequest.t)
    (ids : list UniqueID) (id id' : UniqueID)
    (save : datacoord.SaveBinlogPathsRequest.t) (metric : string) :
  datacoord.isServing s <> datacoord.ServerStateHealthy c ->
  let refused := datacoord.unexpected datacoord.serverNotServingErrMsg in
  datacoord.Flush c s flush
  = (s, (Some {| datacoord.FlushResponse.Status := refused;
                 datacoord.FlushResponse.DbID := 0;
                 datacoord.FlushResponse.CollectionID := 0;
                 datacoord.FlushResponse.SegmentIDs := [] |}, None))
  /\ datacoord.AssignSegmentID c s reqs
     = (s, (Some {| datacoord.AssignSegmentIDResponse.Status := refused;
                    datacoord.AssignSegmentIDResponse.SegIDAssignments := [] |}, None))
  /\ datacoord.GetSegmentStates c s ids
     = (Some {| datacoord.GetSegmentStatesResponse.Status := refused;
                datacoord.GetSegmentStatesResponse.States := [] |}, None)
  /\ datacoord.GetInsertBinlogPaths c s id
     = (Some {| datacoord.GetInsertBinlogPathsResponse.Status := refused;
                datacoord.GetInsertBinlogPathsResponse.FieldIDs := [];
                datacoord.GetInsertBinlogPathsResponse.Paths := [] |}, None)
  /\ datacoord.GetCollectionStatistics c s id
     = (Some {| datacoord.StatisticsResponse.Status := refused;
                datacoord.StatisticsResponse.Stats := [] |}, None)
  /\ datacoord.GetPartitionStatistics c s id id'
     = (Some {| datacoord.StatisticsResponse.Status := refused;
                datacoord.StatisticsResponse.Stats := [] |}, None)
  /\ datacoord.GetSegmentInfo c s ids
     = (Some {| datacoord.GetSegmentInfoResponse.Status := refused;
                datacoord.GetSegmentInfoResponse.Infos := [] |}, None)
  /\ datacoord.SaveBinlogPaths c s save = (s, (Some refused, None))
  /\ datacoord.GetMetrics env c s metric
     = (Some (metricsFailure
                (datacoord.msgDataCoordIsUnhealthy c (datacoord.Params_NodeID c))),
        None).
Proof.
  intros Hclosed refused.
  assert (Hc : datacoord.isClosed c s = true).
  { unfold datacoord.isClosed. apply negb_true_iff, Z.eqb_neq, Hclosed. }
  unfold datacoord.Flush, datacoord.AssignSegmentID, datacoord.GetSegmentStates,
    datacoord.GetInsertBinlogPaths, datacoord.GetCollectionStatistics,
    datacoord.GetPartitionStatistics, datacoord.GetSegmentInfo,
    datacoord.SaveBinlogPaths, datacoord.GetMetrics.
  rewrite !Hc. repeat split.
Qed.

Lemma serving_not_closed (s : datacoord.Server W) :
  datacoord.isServing s = datacoord.ServerStateHealthy c ->
  datacoord.isClosed c s = false.
Proof.
  intros H. unfold datacoord.isClosed. rewrite H, Z.eqb_refl. reflexivity.
Qed.

Lemma collectStates_spec (w : W) (ids : list UniqueID) :
  forall acc,
    datacoord.collectStates c w ids acc
    = acc ++ (datacoord.segmentStateOf c w <$> ids).
Proof.
  induction ids as [|id ids IH]; intros acc; simpl.
  - by rewrite app_nil_r.
  - rewrite IH, <- app_assoc. reflexivity.
Qed.

(** X2. On a serving server [GetSegmentStates] answers Success whatever
    the ids are, with one entry per requested id, in the order of the
    request: the entry of a known segment has status Success and the
    segment's state and start position; the entry of an unknown segment
    has status UnexpectedError and the reason "failed to get segment
    <id>".  An unknown id never fails the call. *)
Theorem GetSegmentStates_entries (s : datacoord.Server W) (ids : list UniqueID) :
  datacoord.isServing s = datacoord.ServerStateHealthy c ->
  exists resp,
    datacoord.GetSegmentStates c s ids = (Some resp, None)
    /\ datacoord.GetSegmentStatesResponse.Status resp = success
    /\ length (datacoord.GetSegmentStatesResponse.States resp) = length ids
    /\ forall (n : nat) (id : UniqueID),
         ids !! n = Some id ->
         exists e,
           datacoord.GetSegmentStatesResponse.States resp !! n = Some e
           /\ datacoord.SegmentStateInfo.SegmentID e = id
           /\ match datacoord.GetSegment c (datacoord.world s) id with
              | Some seg =>
                  datacoord.SegmentStateInfo.Status e = success
                  /\ datacoord.SegmentStateInfo.State e
                     = datacoord.SegmentInfo.State seg
                  /\ datacoord.SegmentStateInfo.StartPosition e
                     = datacoord.SegmentInfo.StartPosition seg
              | None =>
                  datacoord.SegmentStateInfo.Status e
                  = datacoord.unexpected ("failed to get segment " +:+ Itoa id)
              end.
Proof.
  intros Hs. unfold datacoord.GetSegmentStates.
  rewrite (serving_not_closed s Hs), collectStates_spec. simpl.
  eexists. split; [reflexivity|]. simpl. split; [reflexivity|].
  split; [by rewrite length_fmap|].
  intros n id Hn. exists (datacoord.segmentStateOf c (datacoord.world s) id).
  split; [by rewrite list_lookup_fmap, Hn|].
  unfold datacoord.segmentStateOf.
  destruct (datacoord.GetSegment c (datacoord.world s) id); simpl; auto.
Qed.

Lemma collectInfos_ok (w : W) (ids : list UniqueID) :
  forall acc infos,
    datacoord.collectInfos c w ids acc = ok infos ->
    exists found,
      infos = acc ++ found
      /\ Forall2 (fun id info => datacoord.GetSegment c w id = Some info) ids found.
Proof.
  induction ids as [|id ids IH]; intros acc infos; simpl.
  - intros [= <-]. exists []. split; [by rewrite app_nil_r|constructor].
  - destruct (datacoord.GetSegment c w id) as [info|] eqn:Hid; [|discriminate].
    intros H. apply IH in H as (found & -> & Hall).
    exists (info :: found). split; [by rewrite <- app_assoc|].
    by constructor.
Qed.

Lemma collectInfos_fail (w : W) (ids : list UniqueID) :
  forall acc reason,
    datacoord.collectInfos c w ids acc = fail reason ->
    exists known id rest,
      ids = known ++ id :: rest
      /\ Forall (fun k => is_Some (datacoord.GetSegment c w k)) known
      /\ datacoord.GetSegment c w id = None
      /\ reason = "failed to get segment " +:+ Itoa id.
Proof.
  induction ids as [|id ids IH]; intros acc reason; simpl; [discriminate|].
  destruct (datacoord.GetSegment c w id) as [info|] eqn:Hid.
  - intros H. apply IH in H as (known & id' & rest & -> & Hknown & Hnone & ->).
    exists (id :: known), id', rest. repeat split; try assumption.
    constructor; [by rewrite Hid|assumption].
  - intros [= <-]. exists [], id, ids. repeat split; [constructor|assumption].
Qed.

(** X3. On a serving server [GetSegmentInfo] is all or nothing.  When
    every requested id is known it answers Success with the segments in
    the order of the request; otherwise it answers UnexpectedError with
    no segment at all, and the reason names the first unknown id of the
    request. *)
Theorem GetSegmentInfo_all_or_nothing (s : datacoord.Server W) (ids : list UniqueID) :
  datacoord.isServing s = datacoord.ServerStateHealthy c ->
  exists resp,
    datacoord.GetSegmentInfo c s ids = (Some resp, None)
    /\ ((datacoord.GetSegmentInfoResponse.Status resp = success
         /\ Forall2 (fun id info =>
                       datacoord.GetSegment c (datacoord.world s) id = Some info)
                    ids (datacoord.GetSegmentInfoResponse.Infos resp))
        \/ (exists known id rest,
              ids = known ++ id :: rest
              /\ Forall (fun k => is_Some (datacoord.GetSegment c (datacoord.world s) k))
                        known
              /\ datacoord.GetSegment c (datacoord.world s) id = None
              /\ datacoord.GetSegmentInfoResponse.Status resp
                 = datacoord.unexpected ("failed to get segment " +:+ Itoa id)
              /\ datacoord.GetSegmentInfoResponse.Infos resp = [])).
Proof.
  intros Hs. unfold datacoord.GetSegmentInfo. rewrite (serving_not_closed s Hs).
  destruct (datacoord.collectInfos c (datacoord.world s) ids []) as [infos|reason] eqn:Hc.
  - eexists. split; [reflexivity|]. left. simpl. split; [reflexivity|].
    apply collectInfos_ok in Hc as (found & -> & Hall). exact Hall.
  - eexists. split; [reflexivity|]. right.
    apply collectInfos_fail in Hc as (known & id & rest & -> & Hknown & Hnone & ->).
    exists known, id, rest. repeat split; assumption.
Qed.

Lemma collectBinlogs_spec (binlogs : list datacoord.FieldBinlog.t) :
  forall fids paths,
    datacoord.collectBinlogs binlogs fids paths
    = (fids ++ (datacoord.FieldBinlog.FieldID <$> binlogs),
       paths ++ (datacoord.FieldBinlog.Binlogs <$> binlogs)).
Proof.
  induction binlogs as [|f binlogs IH]; intros fids paths; simpl.
  - by rewrite !app_nil_r.
  - rewrite IH, <- !app_assoc. reflexivity.
Qed.

(** X4. On a serving server [GetInsertBinlogPaths] of a known segment
    answers Success with two parallel lists: they have the length of the
    segment's binlog list, and the n-th field id and the n-th path list
    are those of the segment's n-th binlog entry (entries with the same
    field id are not merged).  An unknown segment is answered with
    UnexpectedError "segment not found" and two empty lists. *)
Theorem GetInsertBinlogPaths_parallel (s : datacoord.Server W) (id : UniqueID) :
  datacoord.isServing s = datacoord.ServerStateHealthy c ->
  exists resp,
    datacoord.GetInsertBinlogPaths c s id = (Some resp, None)
    /\ length (datacoord.GetInsertBinlogPathsResponse.FieldIDs resp)
       = length (datacoord.GetInsertBinlogPathsResponse.Paths resp)
    /\ match datacoord.GetSegment c (datacoord.world s) id with
       | Some seg =>
           datacoord.GetInsertBinlogPathsResponse.Status resp = success
           /\ forall n : nat,
                (datacoord.GetInsertBinlogPathsResponse.FieldIDs resp !! n,
                 datacoord.GetInsertBinlogPathsResponse.Paths resp !! n)
                = (datacoord.FieldBinlog.FieldID
                     <$> datacoord.SegmentInfo.Binlogs seg !! n,
                   datacoord.FieldBinlog.Binlogs
                     <$> datacoord.SegmentInfo.Binlogs seg !! n)
       | None =>
           datacoord.GetInsertBinlogPathsResponse.Status resp
           = datacoord.unexpected "segment not found"
           /\ datacoord.GetInsertBinlogPathsResponse.FieldIDs resp = []
       end.
Proof.
  intros Hs. unfold datacoord.GetInsertBinlogPaths.
  rewrite (serving_not_closed s Hs).
  destruct (datacoord.GetSegment c (datacoord.world s) id) as [seg|].
  - rewrite collectBinlogs_spec. simpl.
    eexists. split; [reflexivity|]. simpl.
    split; [by rewrite !length_fmap|]. split; [reflexivity|].
    intros n. by rewrite !list_lookup_fmap.
  - eexists. split; [reflexivity|]. simpl. auto.
Qed.

Lemma List_filter_sublist {A} (f : A -> bool) (l : list A) :
  List.filter f l `sublist_of` l.
Proof.
  induction l as [|x l IH]; simpl; [constructor|].
  destruct (f x); by constructor.
Qed.

Lemma collectFlushed_spec (w : W) (ids : list UniqueID) :
  forall ret,
    datacoord.collectFlushed c w ids ret
    = ret ++ List.filter
               (fun id =>
                  match datacoord.GetSegment c w id with
                  | Some seg =>
                      datacoord.SegmentInfo.State seg
                      =? datacoord.SegmentState_Flushed c
                  | None => false
                  end) ids.
Proof.
  induction ids as [|id ids IH]; intros ret; simpl.
  - by rewrite app_nil_r.
  - destruct (datacoord.GetSegment c w id) as [seg|]; [|apply IH].
    destruct (datacoord.SegmentInfo.State seg =? datacoord.SegmentState_Flushed c);
      simpl; rewrite IH; [by rewrite <- app_assoc|reflexivity].
Qed.

(** X5. [GetFlushedSegments] is not gated by the serving flag: in every
    state of the server it answers Success.  It returns, in the order the
    metadata lists them, exactly the ids whose segment exists and is in
    state Flushed; a listed id without a segment is skipped silently.  A
    negative partition id selects the segments of the whole collection. *)
Theorem GetFlushedSegments_filter (s : datacoord.Server W)
    (CollectionID PartitionID : UniqueID) :
  let listed :=
    if PartitionID <? 0
    then datacoord.GetSegmentsOfCollection c (datacoord.world s) CollectionID
    else datacoord.GetSegmentsOfPartition c (datacoord.world s) CollectionID
             PartitionID in
  exists resp,
    datacoord.GetFlushedSegments c s CollectionID PartitionID = (Some resp, None)
    /\ datacoord.GetFlushedSegmentsResponse.Status resp = success
    /\ datacoord.GetFlushedSegmentsResponse.Segments resp `sublist_of` listed
    /\ forall id,
         id ∈ datacoord.GetFlushedSegmentsResponse.Segments resp
         <-> id ∈ listed
             /\ exists seg,
                  datacoord.GetSegment c (datacoord.world s) id = Some seg
                  /\ datacoord.SegmentInfo.State seg = datacoord.SegmentState_Flushed c.
Proof.
  intros listed. unfold datacoord.GetFlushedSegments. fold listed.
  rewrite collectFlushed_spec. simpl.
  eexists. split; [reflexivity|]. simpl. split; [reflexivity|]. split.
  - apply List_filter_sublist.
  - intros id. rewrite list_elem_of_In, filter_In, <- list_elem_of_In.
    split; intros [Hin H]; (split; [exact Hin|]).
    + destruct (datacoord.GetSegment c (datacoord.world s) id) as [seg|];
        [|discriminate].
      exists seg. split; [reflexivity|]. by apply Z.eqb_eq.
    + destruct H as (seg & -> & Hst). by apply Z.eqb_eq.
Qed.

(** X6. [GetComponentStates] always answers Success, and what it reports
    agrees with the gate of the other RPCs: the reported state code is
    Healthy exactly when [isClosed] is false, and Initializing exactly
    when the flag is [ServerStateInitializing]; every other value of the
    flag is reported as Abnormal.  (The two constants are distinct: they
    label two cases of one switch.) *)
Theorem GetComponentStates_agrees_with_gate (s : datacoord.Server W) :
  datacoord.ServerStateInitializing c <> datacoord.ServerStateHealthy c ->
  exists resp,
    datacoord.GetComponentStates c s = (Some resp, None)
    /\ internalpb.Status resp = success
    /\ internalpb.NodeID (internalpb.State resp) = datacoord.Params_NodeID c
    /\ (internalpb.StateCode_ (internalpb.State resp) = internalpb.StateCode_Healthy
        <-> datacoord.isClosed c s = false)
    /\ (internalpb.StateCode_ (internalpb.State resp) = internalpb.StateCode_Initializing
        <-> datacoord.isServing s = datacoord.ServerStateInitializing c)
    /\ (internalpb.StateCode_ (internalpb.State resp) = internalpb.StateCode_Abnormal
        <-> datacoord.isServing s <> datacoord.ServerStateInitializing c
            /\ datacoord.isServing s <> datacoord.ServerStateHealthy c).
Proof.
  intros Hdistinct. unfold datacoord.GetComponentStates, datacoord.isClosed.
  eexists. split; [reflexivity|]. simpl. split; [reflexivity|]. split; [reflexivity|].
  destruct (Z.eqb_spec (datacoord.isServing s) (datacoord.ServerStateInitializing c))
    as [Hi|Hi];
    destruct (Z.eqb_spec (datacoord.isServing s) (datacoord.ServerStateHealthy c))
      as [Hh|Hh]; simpl;
    repeat split; intros; try discriminate; try congruence; try tauto.
Qed.

Lemma appendAssignments_spec (r : datacoord.SegmentIDRequest.t)
    (allocations : list datacoord.Allocation.t) :
  forall assigns,
    datacoord.appendAssignments r allocations assigns
    = assigns ++ (datacoord.assignmentOf r <$> allocations).
Proof.
  induction allocations as [|a allocations IH]; intros assigns; simpl.
  - by rewrite app_nil_r.
  - rewrite IH, <- app_assoc. reflexivity.
Qed.

(** The assignments of one call come in groups, one group per request and
    in the order of the requests; a request that could not be served has
    the empty group. *)
Lemma assignSegments_groups (reqs : list datacoord.SegmentIDRequest.t) :
  forall (w : W) (assigns : list datacoord.SegmentIDAssignment.t),
    exists groups,
      snd (datacoord.assignSegments c w reqs assigns) = assigns ++ concat groups
      /\ Forall2 (fun r group =>
                    exists allocations,
                      group = datacoord.assignmentOf r <$> allocations)
                 reqs groups.
Proof.
  induction reqs as [|r reqs IH]; intros w assigns; simpl.
  - exists []. split; [by rewrite app_nil_r|constructor].
  - destruct (if datacoord.GetCollection c w _ then _ else _) as [w1 [e|]].
    + destruct (IH w1 assigns) as (groups & Heq & Hall).
      exists ([] :: groups). split; [exact Heq|].
      constructor; [by exists []|exact Hall].
    + destruct (datacoord.AllocSegment c _ _ _ _ _) as [w3 [allocations|e]].
      * rewrite appendAssignments_spec.
        destruct (IH w3 (assigns ++ (datacoord.assignmentOf r <$> allocations)))
          as (groups & Heq & Hall).
        exists ((datacoord.assignmentOf r <$> allocations) :: groups).
        split; [by rewrite Heq, <- app_assoc|].
        constructor; [by exists allocations|exact Hall].
      * destruct (IH w3 assigns) as (groups & Heq & Hall).
        exists ([] :: groups). split; [exact Heq|].
        constructor; [by exists []|exact Hall].
Qed.

(** The accumulator of the loop only ever grows at its end. *)
Lemma assignSegments_acc (reqs : list datacoord.SegmentIDRequest.t) :
  forall (w : W) (assigns : list datacoord.SegmentIDAssignment.t),
    datacoord.assignSegments c w reqs assigns
    = (fst (datacoord.assignSegments c w reqs []),
       assigns ++ snd (datacoord.assignSegments c w reqs [])).
Proof.
  induction reqs as [|r reqs IH]; intros w assigns; simpl.
  - by rewrite app_nil_r.
  - destruct (if datacoord.GetCollection c w _ then _ else _) as [w1 [e|]].
    + apply IH.
    + destruct (datacoord.AllocSegment c _ _ _ _ _) as [w3 [allocations|e]].
      * rewrite (IH w3 (datacoord.appendAssignments r allocations assigns)),
          (IH w3 (datacoord.appendAssignments r allocations [])).
        rewrite !appendAssignments_spec. simpl. by rewrite app_assoc.
      * apply IH.
Qed.

(** X7. [AssignSegmentID] on a serving server, request by request.  With
    no request it answers Success with no assignment.  The first request
    [r] is served from the answers of the collaborators: when its
    collection is not known and cannot be loaded, or when [AllocSegment]
    (asked, after [Watch], for the collection, partition, channel and
    count of [r]) fails, [r] is skipped and the call is the call for the
    remaining requests, made in the state the collaborators were left in;
    when [AllocSegment] grants allocations, the assignments of the call
    are one assignment per granted allocation, built from [r] and that
    allocation and in the order granted, followed by the assignments of
    the call for the remaining requests.  In every case the status is
    Success, the assignments come in groups, one (possibly empty) group
    per request in the order of the requests, each assignment has status
    Success, the channel, collection and partition of its request and a
    Count that is the row number of its allocation reduced to a uint32,
    and the serving flag and [flushCh] are not touched. *)
Theorem AssignSegmentID_groups (s : datacoord.Server W)
    (r : datacoord.SegmentIDRequest.t) (reqs : list datacoord.SegmentIDRequest.t) :
  datacoord.isServing s = datacoord.ServerStateHealthy c ->
  let answer := fun (s' : datacoord.Server W) assigns =>
    (s', (Some {| datacoord.AssignSegmentIDResponse.Status := success;
                  datacoord.AssignSegmentIDResponse.SegIDAssignments := assigns |},
          @None string)) in
  let coll := datacoord.SegmentIDRequest.CollectionID r in
  let ch := datacoord.SegmentIDRequest.ChannelName r in
  let loaded :=
    if datacoord.GetCollection c (datacoord.world s) coll
    then (datacoord.world s, None)
    else datacoord.loadCollectionFromRootCoord c (datacoord.world s) coll in
  let alloc := fun w1 : W =>
    datacoord.AllocSegment c (datacoord.Watch c w1 ch coll) coll
      (datacoord.SegmentIDRequest.PartitionID r) ch
      (datacoord.SegmentIDRequest.Count r) in
  datacoord.AssignSegmentID c s []
  = answer (datacoord.withWorld s (datacoord.world s)) []
  /\ (forall w1 e,
        loaded = (w1, Some e) ->
        datacoord.AssignSegmentID c s (r :: reqs)
        = datacoord.AssignSegmentID c (datacoord.withWorld s w1) reqs)
  /\ (forall w1 w3 e,
        loaded = (w1, None) -> alloc w1 = (w3, fail e) ->
        datacoord.AssignSegmentID c s (r :: reqs)
        = datacoord.AssignSegmentID c (datacoord.withWorld s w3) reqs)
  /\ (forall w1 w3 allocations,
        loaded = (w1, None) -> alloc w1 = (w3, ok allocations) ->
        exists s' rest,
          datacoord.AssignSegmentID c (datacoord.withWorld s w3) reqs = answer s' rest
          /\ datacoord.AssignSegmentID c s (r :: reqs)
             = answer s' ((datacoord.assignmentOf r <$> allocations) ++ rest))
  /\ exists s' groups,
       datacoord.AssignSegmentID c s reqs = answer s' (concat groups)
       /\ datacoord.isServing s' = datacoord.isServing s
       /\ datacoord.flushCh s' = datacoord.flushCh s
       /\ Forall2
            (fun r group =>
               (exists allocations, group = datacoord.assignmentOf r <$> allocations)
               /\ Forall
                 (fun a =>
                    datacoord.SegmentIDAssignment.Status a = success
                    /\ datacoord.SegmentIDAssignment.ChannelName a
                       = datacoord.SegmentIDRequest.ChannelName r
                    /\ datacoord.SegmentIDAssignment.CollectionID a
                       = datacoord.SegmentIDRequest.CollectionID r
                    /\ datacoord.SegmentIDAssignment.PartitionID a
                       = datacoord.SegmentIDRequest.PartitionID r
                    /\ 0 <= datacoord.SegmentIDAssignment.Count a < datacoord.two32)
                 group)
            reqs groups.
Proof.
  intros Hs answer coll ch loaded alloc.
  assert (Hopen : forall w, datacoord.isClosed c (datacoord.withWorld s w) = false).
  { intros w. apply (serving_not_closed (datacoord.withWorld s w)). exact Hs. }
  assert (Hcall : forall w reqs',
             datacoord.AssignSegmentID c (datacoord.withWorld s w) reqs'
             = answer (datacoord.withWorld s (fst (datacoord.assignSegments c w reqs' [])))
                      (snd (datacoord.assignSegments c w reqs' []))).
  { intros w reqs'. unfold datacoord.AssignSegmentID. rewrite Hopen. simpl.
    by destruct (datacoord.assignSegments c w reqs' []). }
  assert (Hcall0 : forall reqs',
             datacoord.AssignSegmentID c s reqs'
             = answer (datacoord.withWorld s
                         (fst (datacoord.assignSegments c (datacoord.world s) reqs' [])))
                      (snd (datacoord.assignSegments c (datacoord.world s) reqs' []))).
  { intros reqs'. unfold datacoord.AssignSegmentID.
    rewrite (serving_not_closed s Hs).
    by destruct (datacoord.assignSegments c (datacoord.world s) reqs' []). }
  split; [by rewrite Hcall0|].
  split.
  { intros w1 e Hload. rewrite Hcall0, Hcall. simpl. fold coll loaded.
    by rewrite Hload. }
  split.
  { intros w1 w3 e Hload Halloc. rewrite Hcall0, Hcall. simpl. fold coll loaded.
    rewrite Hload. fold ch. fold (alloc w1). by rewrite Halloc. }
  split.
  { intros w1 w3 allocations Hload Halloc. eexists _, _. split; [apply Hcall|].
    rewrite Hcall0. simpl. fold coll loaded. rewrite Hload. fold ch. fold (alloc w1).
    rewrite Halloc. rewrite assignSegments_acc, appendAssignments_spec. reflexivity. }
  rewrite Hcall0.
  destruct (assignSegments_groups reqs (datacoord.world s) []) as (groups & Heq & Hall).
  simpl in Heq. eexists _, groups. split; [by rewrite Heq|]. simpl.
  repeat split.
  eapply Forall2_impl; [exact Hall|].
  intros r' group [allocations ->]. split; [by exists allocations|].
  apply Forall_fmap, Forall_forall.
  intros a _. simpl. repeat split.
  - apply Z.mod_pos_bound. reflexivity.
  - apply Z.mod_pos_bound. reflexivity.
Qed.

(** X8. On a serving server [SaveBinlogPaths] answers Success exactly when
    [UpdateFlushSegmentsInfo] reports no error; otherwise the status
    carries that error.  A segment id is sent on [flushCh] exactly when
    the update succeeded and the request is flagged Flushed, and then it
    is the request's segment id, sent once, and the segment is dropped
    from the segment manager; in every other case [flushCh] is left as it
    was and nothing is dropped. *)
Theorem SaveBinlogPaths_flush_signal (s : datacoord.Server W)
    (req : datacoord.SaveBinlogPathsRequest.t) :
  datacoord.isServing s = datacoord.ServerStateHealthy c ->
  let id := datacoord.SaveBinlogPathsRequest.SegmentID req in
  let updated := datacoord.UpdateFlushSegmentsInfo c (datacoord.world s) req in
  exists s' st,
    datacoord.SaveBinlogPaths c s req = (s', (Some st, None))
    /\ datacoord.isServing s' = datacoord.isServing s
    /\ match snd updated with
       | Some err =>
           st = datacoord.unexpected err
           /\ datacoord.flushCh s' = datacoord.flushCh s
           /\ datacoord.world s' = fst updated
       | None =>
           st = success
           /\ if datacoord.SaveBinlogPathsRequest.Flushed req
              then datacoord.flushCh s' = datacoord.flushCh s ++ [id]
                   /\ datacoord.world s' = datacoord.DropSegment c (fst updated) id
              else datacoord.flushCh s' = datacoord.flushCh s
                   /\ datacoord.world s' = fst updated
       end.
Proof.
  intros Hs id updated. unfold datacoord.SaveBinlogPaths.
  rewrite (serving_not_closed s Hs). subst updated.
  destruct (datacoord.UpdateFlushSegmentsInfo c (datacoord.world s) req) as [w [err|]];
    simpl.
  - eexists _, _. split; [reflexivity|]. simpl. auto.
  - destruct (datacoord.SaveBinlogPathsRequest.Flushed req);
      eexists _, _; (split; [reflexivity|]); simpl; auto.
Qed.

Lemma parseDecimal_Itoa (z : Z) : parseDecimal (Itoa z) = Some z.
Proof.
  unfold parseDecimal, Itoa.
  rewrite NilZero.isi.
  - simpl. by rewrite DecimalZ.of_to.
  - destruct z; simpl; try discriminate.
    intros [= Hp]. exact (DecimalPos.Unsigned.to_uint_nonnil _ Hp).
  - destruct z; simpl; try discriminate.
    intros [= Hp]. exact (DecimalPos.Unsigned.to_uint_nonnil _ Hp).
Qed.

(** X9. On a serving server the two statistics RPCs answer Success with
    exactly one pair, whose key is "row_count" and whose value is the
    decimal numeral of the row number the metadata reports: read back as
    a decimal it gives that number again, also when it is zero or
    negative. *)
Theorem statistics_row_count (s : datacoord.Server W)
    (CollectionID PartitionID : UniqueID) :
  datacoord.isServing s = datacoord.ServerStateHealthy c ->
  (exists resp kv,
     datacoord.GetCollectionStatistics c s CollectionID = (Some resp, None)
     /\ datacoord.StatisticsResponse.Status resp = success
     /\ datacoord.StatisticsResponse.Stats resp = [kv]
     /\ commonpb.Key kv = "row_count"
     /\ parseDecimal (commonpb.Value kv)
        = Some (datacoord.GetNumRowsOfCollection c (datacoord.world s) CollectionID))
  /\ (exists resp kv,
        datacoord.GetPartitionStatistics c s CollectionID PartitionID = (Some resp, None)
        /\ datacoord.StatisticsResponse.Status resp = success
        /\ datacoord.StatisticsResponse.Stats resp = [kv]
        /\ commonpb.Key kv = "row_count"
        /\ parseDecimal (commonpb.Value kv)
           = Some (datacoord.GetNumRowsOfPartition c (datacoord.world s)
                     CollectionID PartitionID)).
Proof.
  intros Hs.
  unfold datacoord.GetCollectionStatistics, datacoord.GetPartitionStatistics.
  rewrite (serving_not_closed s Hs).
  split; eexists _, _; (split; [reflexivity|]); simpl;
    repeat split; apply parseDecimal_Itoa.
Qed.

End DataCoord.

(** ** indexcoord: metrics *)

Lemma getSystemInfoMetrics_marshals (env : Env) (req : string) (coord : IndexCoord) :
  getSystemInfoMetrics env req coord
  = let name :=
      ConstructComponentName env typeutil.IndexCoordRole (ServerID (session coord)) in
    match MarshalTopology env (coordTopology env req coord) with
    | fail e =>
        (Some {| GetMetricsResponse.Status := status commonpb.ErrorCode_UnexpectedError e;
                 GetMetricsResponse.Response := EmptyString;
                 GetMetricsResponse.ComponentName := name |}, None)
    | ok resp =>
        (Some {| GetMetricsResponse.Status := success;
                 GetMetricsResponse.Response := resp;
                 GetMetricsResponse.ComponentName := name |}, None)
    end.
Proof. reflexivity. Qed.

(** X10. [GetMetrics] of the index coordinator never returns a Go error.
    Its status is Success exactly when the coordinator is Healthy, the
    request parses to the system-info metric type and the topology
    document can be marshalled, and then the response is that document;
    in every other case the response text is empty. *)
Theorem GetMetrics_outcomes (env : Env) (i : IndexCoord) (Request : string) :
  exists resp,
    GetMetrics env i Request = (Some resp, None)
    /\ (commonpb.ErrorCode_ (GetMetricsResponse.Status resp) = commonpb.ErrorCode_Success
        <-> stateCode i = internalpb.StateCode_Healthy
            /\ ParseMetricType env Request = ok (SystemInfoMetrics env)
            /\ MarshalTopology env (coordTopology env Request i)
               = ok (GetMetricsResponse.Response resp))
    /\ (commonpb.ErrorCode_ (GetMetricsResponse.Status resp) <> commonpb.ErrorCode_Success
        -> GetMetricsResponse.Response resp = EmptyString).
Proof.
  unfold GetMetrics, isHealthy.
  case_bool_decide as Hh; simpl.
  2:{ eexists. split; [reflexivity|]. simpl. split; [|reflexivity].
      split; [discriminate|]. intros [? _]. contradiction. }
  destruct (ParseMetricType env Request) as [mty|e] eqn:Hparse.
  2:{ eexists. split; [reflexivity|]. simpl. split; [|reflexivity].
      split; [discriminate|]. intros (_ & ? & _). discriminate. }
  case_bool_decide as Hty.
  2:{ eexists. split; [reflexivity|]. simpl. split; [|reflexivity].
      split; [discriminate|]. intros (_ & [= ?] & _). contradiction. }
  subst mty. rewrite getSystemInfoMetrics_marshals. simpl.
  destruct (MarshalTopology env (coordTopology env Request i)) as [doc|e] eqn:Hm.
  - eexists. split; [reflexivity|]. simpl. split; [|intros H; by destruct H].
    split; auto.
  - eexists. split; [reflexivity|]. simpl. split; [|reflexivity].
    split; [discriminate|]. intros (_ & _ & ?). discriminate.
Qed.

(** X11. The topology document has one entry per worker answer, in the
    order of the answers.  The entry of a worker that answered Success
    with a document that can be decoded is the decoded document;
    every other answer (a transport error, a non-Success status, an
    undecodable document) gives an entry with HasError set, and never
    fails the call: the status of the response depends on the
    marshalling of the topology alone. *)
Theorem worker_failures_are_inlined (env : Env) (req : string) (coord : IndexCoord) :
  let answers := NodeManager.getMetrics env (nodeManager coord) req in
  let nodes :=
    metricsinfo.ConnectedNodes (metricsinfo.Cluster (coordTopology env req coord)) in
  let good (answer : nodeMetricsResult) (infos : metricsinfo.IndexNodeInfos) :=
    exists r,
      answer = ok r
      /\ commonpb.ErrorCode_ (GetMetricsResponse.Status r) = commonpb.ErrorCode_Success
      /\ UnmarshalComponentInfos env (GetMetricsResponse.Response r) = ok infos in
  length nodes = length answers
  /\ (forall (n : nat) (answer : nodeMetricsResult),
        answers !! n = Some answer ->
        exists entry,
          nodes !! n = Some entry
          /\ (forall infos, good answer infos -> entry = infos)
          /\ ((forall infos, ~ good answer infos) ->
              metricsinfo.HasError (metricsinfo.NodeBase entry) = true))
  /\ exists resp,
       getSystemInfoMetrics env req coord = (Some resp, None)
       /\ (commonpb.ErrorCode_ (GetMetricsResponse.Status resp)
           = commonpb.ErrorCode_Success
           <-> exists doc, MarshalTopology env (coordTopology env req coord) = ok doc).
Proof.
  intros answers nodes good. subst nodes. simpl. fold answers.
  split; [by rewrite length_fmap|]. split.
  - intros n answer Hn. exists (connectedNode env answer).
    split; [by rewrite list_lookup_fmap, Hn|].
    unfold connectedNode, good. split.
    + intros infos (r & -> & Hok & Hdec).
      rewrite bool_decide_eq_true_2 by assumption. by rewrite Hdec.
    + intros Hbad. destruct answer as [r|e]; [|reflexivity].
      case_bool_decide as Hok; [|reflexivity].
      destruct (UnmarshalComponentInfos env (GetMetricsResponse.Response r))
        as [infos|e] eqn:Hdec; [|reflexivity].
      exfalso. apply (Hbad infos). exists r. auto.
  - rewrite getSystemInfoMetrics_marshals. simpl.
    destruct (MarshalTopology env (coordTopology env req coord)) as [doc|e].
    + eexists. split; [reflexivity|]. simpl. split; eauto.
    + eexists. split; [reflexivity|]. simpl. split; [discriminate|].
      intros [doc ?]. discriminate.
Qed.

(** X12. What a worker's [getSystemInfoMetrics] answers and what the
    coordinator makes of it.  The worker never returns a Go error and
    always names itself in ComponentName.  If the worker could not
    marshal its document, its entry in the coordinator's topology has
    HasError set, the marshalling error as reason and the worker's
    component name.  If it could, and decoding gives back what was
    encoded, its entry is the worker's document: no error, named after the
    worker. *)
Theorem worker_document_round_trip (env : Env) (p : indexnode.Params) :
  let name := ConstructComponentName env typeutil.IndexNodeRole (indexnode.NodeID p) in
  let nodeInfos :=
    {| metricsinfo.NodeBase :=
         {| metricsinfo.HasError := false;
            metricsinfo.ErrorReason := EmptyString;
            metricsinfo.Name := name |} |} in
  (forall doc,
     indexnode.MarshalComponentInfos p nodeInfos = ok doc ->
     UnmarshalComponentInfos env doc = ok nodeInfos) ->
  exists resp,
    indexnode.getSystemInfoMetrics env p = (Some resp, None)
    /\ GetMetricsResponse.ComponentName resp = name
    /\ match indexnode.MarshalComponentInfos p nodeInfos with
       | fail e => connectedNode env (ok resp) = errorNode e name
       | ok _ => connectedNode env (ok resp) = nodeInfos
       end.
Proof.
  intros name nodeInfos Hcodec. unfold indexnode.getSystemInfoMetrics.
  fold name. fold nodeInfos.
  destruct (indexnode.MarshalComponentInfos p nodeInfos) as [doc|e] eqn:Hm.
  - eexists. split; [reflexivity|]. split; [reflexivity|].
    unfold connectedNode. simpl. by rewrite (Hcodec doc eq_refl).
  - eexists. split; [reflexivity|]. split; reflexivity.
Qed.

(** ** indexcoord: admission and paths *)

(** X13. [BuildIndex] under a context that is already done.  The request
    is still answered from the table when a live record carries its
    fingerprint; otherwise the call fails with UnexpectedError
    "IndexAddQueue enqueue timeout" and build id 0, without enqueuing or
    allocating anything.  In both cases the coordinator is left as it
    was and the Go error is nil. *)
Theorem BuildIndex_context_done (env : Env) (i : IndexCoord)
    (req : BuildIndexRequest.t) :
  ctxDone env = true ->
  exists resp,
    BuildIndex env i req = (i, (Some resp, None))
    /\ match metaTable.HasSameReq (metaTable_ i) req with
       | (true, id) =>
           resp = buildIndexResponse commonpb.ErrorCode_Success
                    "already have same index" id
       | (false, _) =>
           resp = buildIndexResponse commonpb.ErrorCode_UnexpectedError
                    "IndexAddQueue enqueue timeout" 0
       end.
Proof.
  intros Hdone. unfold BuildIndex. rewrite Hdone.
  destruct (metaTable.HasSameReq (metaTable_ i) req) as [[] id];
    eexists; split; reflexivity.
Qed.

Lemma collectIndexPaths_ok (mt : gmap UniqueID Meta) (ids : list UniqueID) :
  forall acc paths,
    collectIndexPaths mt ids acc = ok paths ->
    exists found,
      paths = acc ++ found
      /\ Forall2 (fun id info => metaTable.GetIndexFilePathInfo mt id = ok info)
                 ids found.
Proof.
  induction ids as [|id ids IH]; intros acc paths; simpl.
  - intros [= <-]. exists []. split; [by rewrite app_nil_r|constructor].
  - destruct (metaTable.GetIndexFilePathInfo mt id) as [info|e] eqn:Hid;
      [|discriminate].
    intros H. apply IH in H as (found & -> & Hall).
    exists (info :: found). split; [by rewrite <- app_assoc|by constructor].
Qed.

Lemma collectIndexPaths_first_failure (mt : gmap UniqueID Meta) (ids : list UniqueID) :
  forall acc e,
    collectIndexPaths mt ids acc = fail e ->
    exists served id rest,
      ids = served ++ id :: rest
      /\ Forall (fun k => exists info, metaTable.GetIndexFilePathInfo mt k = ok info)
                served
      /\ metaTable.GetIndexFilePathInfo mt id = fail e.
Proof.
  induction ids as [|id ids IH]; intros acc e; simpl; [discriminate|].
  destruct (metaTable.GetIndexFilePathInfo mt id) as [info|e0] eqn:Hid.
  - intros H. apply IH in H as (served & id' & rest & -> & Hserved & Hfail).
    exists (id :: served), id', rest. repeat split; try assumption.
    constructor; [eauto|assumption].
  - intros [= <-]. exists [], id, ids. repeat split; [constructor|assumption].
Qed.

(** X14. [GetIndexFilePaths] is all or nothing.  Either every requested id
    has its path information and the call returns Success with one entry
    per id, in the order of the request, and a nil Go error; or it returns
    no response, and the Go error is the failure of the first id of the
    request that has none (the ids after it are not looked at). *)
Theorem GetIndexFilePaths_all_or_nothing (i : IndexCoord) (ids : list UniqueID) :
  (exists resp,
     GetIndexFilePaths i ids = (Some resp, None)
     /\ GetIndexFilePathsResponse.Status resp = success
     /\ Forall2 (fun id info =>
                   metaTable.GetIndexFilePathInfo (metaTable_ i) id = ok info)
                ids (GetIndexFilePathsResponse.FilePaths resp))
  \/ (exists e served id rest,
        GetIndexFilePaths i ids = (None, Some e)
        /\ ids = served ++ id :: rest
        /\ Forall (fun k =>
                     exists info,
                       metaTable.GetIndexFilePathInfo (metaTable_ i) k = ok info)
                  served
        /\ metaTable.GetIndexFilePathInfo (metaTable_ i) id = fail e).
Proof.
  unfold GetIndexFilePaths.
  destruct (collectIndexPaths (metaTable_ i) ids []) as [paths|e] eqn:Hc.
  - left. eexists. split; [reflexivity|]. simpl. split; [reflexivity|].
    apply collectIndexPaths_ok in Hc as (found & -> & Hall). exact Hall.
  - right. apply collectIndexPaths_first_failure in Hc
      as (served & id & rest & -> & Hserved & Hfail).
    exists e, served, id, rest. auto.
Qed.

(** ** indexcoord: [Init] *)

(** X15. [Init] either returns nil and leaves the coordinator Healthy, or
    returns an error (when connecting to the registry, initialising the
    allocator, allocating the coordinator's id, the blob store or the
    scheduler fails) and leaves the state code as it was.  So a
    coordinator that was not Healthy is Healthy after [Init]
    exactly when [Init] returned nil, and after a failed [Init] it still
    refuses [GetMetrics].  When the registry cannot be reached nothing at
    all is changed. *)
Theorem Init_healthy_iff_nil (ienv : InitEnv) (i : IndexCoord) :
  stateCode i <> internalpb.StateCode_Healthy ->
  (snd (Init ienv i) = None
   <-> stateCode (fst (Init ienv i)) = internalpb.StateCode_Healthy)
  /\ (snd (Init ienv i) <> None -> stateCode (fst (Init ienv i)) = stateCode i)
  /\ (snd (Init ienv i) <> None ->
      forall env Request,
        GetMetrics env (fst (Init ienv i)) Request
        = (Some (metricsFailure (msgIndexCoordIsUnhealthy env (ID (fst (Init ienv i))))),
           None))
  /\ (forall e, connectEtcd ienv = fail e -> Init ienv i = (i, Some e))
  /\ session (fst (Init ienv i)) = session i.
Proof.
  intros Hne.
  assert (Hcases :
            (snd (Init ienv i) = None
             /\ stateCode (fst (Init ienv i)) = internalpb.StateCode_Healthy)
            \/ (snd (Init ienv i) <> None
                /\ stateCode (fst (Init ienv i)) = stateCode i)).
  { unfold Init.
    destruct (connectEtcd ienv) as [metakv|e]; [|right; by split].
    destruct (idAllocatorInitialize ienv) as [e|]; [right; by split|].
    destruct (idAllocatorAllocOne ienv) as [id [e|]]; [right; by split|].
    destruct (NewMinIOKV ienv) as [e|]; [right; by split|].
    destruct (NewTaskScheduler ienv) as [e|]; [right; by split|].
    left. by split. }
  repeat split.
  - intros Hnil. destruct Hcases as [[_ H]|[H _]]; [exact H|contradiction].
  - intros Hh. destruct Hcases as [[H _]|[_ H]]; [exact H|]. congruence.
  - intros Herr. destruct Hcases as [[H _]|[_ H]]; [contradiction|exact H].
  - intros Herr env Request. apply GetMetrics_unhealthy.
    destruct Hcases as [[H _]|[_ H]]; [contradiction|]. congruence.
  - intros e He. unfold Init. by rewrite He.
  - unfold Init.
    destruct (connectEtcd ienv) as [metakv|e]; [|reflexivity].
    destruct (idAllocatorInitialize ienv) as [e|]; [reflexivity|].
    destruct (idAllocatorAllocOne ienv) as [id [e|]]; [reflexivity|].
    destruct (NewMinIOKV ienv) as [e|]; [reflexivity|].
    destruct (NewTaskScheduler ienv) as [e|]; reflexivity.
Qed.

(** ** indexcoord: the assignment loop, further *)

Lemma acceptedBy_app (t1 t2 : list Event) :
  acceptedBy (t1 ++ t2) = acceptedBy t1 ++ acceptedBy t2.
Proof. apply omap_app. Qed.

Lemma recordedOn_app (t1 t2 : list Event) :
  recordedOn (t1 ++ t2) = recordedOn t1 ++ recordedOn t2.
Proof. apply omap_app. Qed.

Lemma priorityChanges_app (t1 t2 : list Event) :
  priorityChanges (t1 ++ t2) = priorityChanges t1 ++ priorityChanges t2.
Proof. apply omap_app. Qed.

(** What one round of the loop leaves of the coordinator and what it
    records: the fields outside the table and the priorities are kept, and
    an accepted request is recorded and counted once. *)
Lemma assignOne_frame (env : Env) (i : IndexCoord) (index : Z) (meta : Meta) :
  let '(i1, evs, _) := assignOne env i index meta in
  stateCode i1 = stateCode i
  /\ ID i1 = ID i
  /\ session i1 = session i
  /\ NodeManager.nodeClients (nodeManager i1) = NodeManager.nodeClients (nodeManager i)
  /\ recordedOn evs = acceptedBy evs
  /\ priorityChanges evs = (fun p => (fst p, 1)) <$> acceptedBy evs.
Proof.
  unfold assignOne.
  destruct (metaTable.UpdateVersion env (metaTable_ i) _) as [mt1 err].
  simpl. destruct (NodeManager.PeekClient (nodeManager i)) as [nodeID [client|]].
  - destruct (assignTask env client (createIndexRequest meta)); simpl.
    + destruct (metaTable.BuildIndex env mt1 _ nodeID) as [mt2 err2].
      simpl. repeat split.
    + repeat split.
  - repeat split.
Qed.

Lemma assignLoop_frame (env : Env) (metas : list Meta) :
  forall (i : IndexCoord) (index : Z),
    let '(i1, evs) := assignLoop env i index metas in
    stateCode i1 = stateCode i
    /\ ID i1 = ID i
    /\ session i1 = session i
    /\ NodeManager.nodeClients (nodeManager i1) = NodeManager.nodeClients (nodeManager i)
    /\ recordedOn evs = acceptedBy evs
    /\ priorityChanges evs = (fun p => (fst p, 1)) <$> acceptedBy evs.
Proof.
  induction metas as [|meta rest IH]; intros i index; simpl.
  - repeat split.
  - pose proof (assignOne_frame env i index meta) as Hone.
    destruct (assignOne env i index meta) as [[i1 evs] [|]].
    + specialize (IH i1 (index + 1)).
      destruct (assignLoop env i1 (index + 1) rest) as [i2 evs'].
      destruct Hone as (H1 & H2 & H3 & H4 & H5 & H6).
      destruct IH as (G1 & G2 & G3 & G4 & G5 & G6).
      repeat split; try congruence.
      * by rewrite recordedOn_app, acceptedBy_app, H5, G5.
      * by rewrite priorityChanges_app, acceptedBy_app, fmap_app, H6, G6.
    + exact Hone.
Qed.

(** X16. One tick of the assignment loop changes nothing of the coordinator
    but the table and the priorities: the state code, the coordinator's
    id, its session and the set of worker clients are as before.  In its
    trace the assignments recorded in the table are exactly the requests
    the workers accepted, worker by worker and task by task in the same
    order, and each of them raised the priority of its worker by one:
    also when writing the assignment to the table failed. *)
Theorem assignTick_ledger (env : Env) (i : IndexCoord) :
  stateCode (fst (assignTick env i)) = stateCode i
  /\ ID (fst (assignTick env i)) = ID i
  /\ session (fst (assignTick env i)) = session i
  /\ NodeManager.nodeClients (nodeManager (fst (assignTick env i)))
     = NodeManager.nodeClients (nodeManager i)
  /\ recordedOn (snd (assignTick env i)) = acceptedBy (snd (assignTick env i))
  /\ priorityChanges (snd (assignTick env i))
     = (fun p => (fst p, 1)) <$> acceptedBy (snd (assignTick env i)).
Proof.
  unfold assignTick. destruct (_ <=? 0); [repeat split|].
  pose proof (assignLoop_frame env (tickMetas env i) i 0) as H.
  destruct (assignLoop env i 0 (tickMetas env i)) as [i1 evs]. exact H.
Qed.

(** X17. A tick that finds worker clients registered but no client at the
    head of the priority queue still bumps the version of the first
    unassigned task before it gives up: the trace of the tick is that one
    [UpdateVersion] call, nothing is dispatched, and the table is the one
    [UpdateVersion] left. *)
Theorem tick_without_client_bumps_first (env : Env) (i : IndexCoord)
    (nodeID : UniqueID) (meta : Meta) (rest : list Meta) :
  (0 < size (NodeManager.nodeClients (nodeManager i)))%nat ->
  NodeManager.PeekClient (nodeManager i) = (nodeID, None) ->
  tickMetas env i = meta :: rest ->
  let id := IndexMeta.IndexBuildID (indexMeta meta) in
  assignTick env i
  = (withMeta i (fst (metaTable.UpdateVersion env (metaTable_ i) id)),
     [EvUpdateVersion id (snd (metaTable.UpdateVersion env (metaTable_ i) id))]).
Proof.
  intros Hsize Hpeek Hmetas id. unfold assignTick.
  destruct (Z.leb_spec (Z.of_nat (size (NodeManager.nodeClients (nodeManager i)))) 0);
    [lia|].
  rewrite Hmetas. simpl. unfold assignOne. fold id.
  destruct (metaTable.UpdateVersion env (metaTable_ i) id) as [mt1 err].
  simpl. rewrite Hpeek. reflexivity.
Qed.

Lemma MetaPath_inj (m1 m2 : Meta) :
  CreateIndexRequest.MetaPath (createIndexRequest m1)
  = CreateIndexRequest.MetaPath (createIndexRequest m2) ->
  IndexMeta.IndexBuildID (indexMeta m1) = IndexMeta.IndexBuildID (indexMeta m2).
Proof.
  unfold createIndexRequest. simpl. intros H.
  apply String.app_inj in H. by apply Itoa_inj.
Qed.

(** X18. Every request a tick sends to a worker is built from a task that
    [GetUnassignedTasks] returned for the live node ids: it carries that
    task's build id, index id, index name, data paths and parameters, and
    the meta path "/indexes/<build id>".  The meta path determines the
    build id: two requests with the same meta path are for the same build
    id. *)
Theorem dispatched_requests_origin (env : Env) (i : IndexCoord)
    (req : CreateIndexRequest.t) :
  req ∈ dispatched (snd (assignTick env i)) ->
  (exists meta,
     In meta (metaTable.GetUnassignedTasks (metaTable_ i)
                (ServerID <$> fst (GetSessions env)))
     /\ req = createIndexRequest meta
     /\ CreateIndexRequest.IndexBuildID req = IndexMeta.IndexBuildID (indexMeta meta)
     /\ CreateIndexRequest.IndexID req
        = BuildIndexRequest.IndexID (IndexMeta.Req (indexMeta meta))
     /\ CreateIndexRequest.DataPaths req
        = BuildIndexRequest.DataPaths (IndexMeta.Req (indexMeta meta))
     /\ CreateIndexRequest.MetaPath req
        = "/indexes/" +:+ Itoa (IndexMeta.IndexBuildID (indexMeta meta)))
  /\ forall req',
       req' ∈ dispatched (snd (assignTick env i)) ->
       CreateIndexRequest.MetaPath req = CreateIndexRequest.MetaPath req' ->
       CreateIndexRequest.IndexBuildID req = CreateIndexRequest.IndexBuildID req'.
Proof.
  intros Hin.
  destruct (assignTick_dispatched env i) as [k Hk]. rewrite Hk in *.
  apply list_elem_of_fmap in Hin as (meta & -> & Hmeta).
  split.
  - exists meta. repeat split.
    apply elem_of_take in Hmeta as (n & Hn & _).
    apply list_elem_of_lookup_2 in Hn.
    unfold tickMetas in Hn. rewrite sortSlice_perm in Hn.
    by apply list_elem_of_In.
  - intros req' Hin' Hpath.
    apply list_elem_of_fmap in Hin' as (meta' & -> & _).
    apply MetaPath_inj in Hpath. exact Hpath.
Qed.

(** ** indexcoord: the recycle loop, further *)

Lemma prefix_app_same (a b c : string) :
  String.prefix b c = true -> String.prefix (a +:+ b) (a +:+ c) = true.
Proof.
  intros H. induction a as [|x a IH]; simpl; [exact H|].
  destruct (Ascii.ascii_dec x x); [exact IH|contradiction].
Qed.

(** X19. The prefixes of two versions of one task can overlap.  For a
    record that is not marked deleted and whose Version is between 10 and
    19, the prefix handed to [RemoveWithPrefix] for version 1 is a string
    prefix of the prefix of the record's current version: a blob store
    that removes every key starting with the given string is thereby asked
    to remove the current version's keys as well. *)
Theorem stale_prefix_covers_current (env : Env) (i : IndexCoord) (meta : Meta) :
  let id := IndexMeta.IndexBuildID (indexMeta meta) in
  let V := IndexMeta.Version (indexMeta meta) in
  IndexMeta.MarkDeleted (indexMeta meta) = false ->
  10 <= V <= 19 ->
  exists p,
    p ∈ removedPrefixes (snd (recycleOne env i meta))
    /\ p = Itoa id +:+ "/" +:+ Itoa 1
    /\ String.prefix p (Itoa id +:+ "/" +:+ Itoa V) = true.
Proof.
  intros id V Hlive HV.
  exists (Itoa id +:+ "/" +:+ Itoa 1). split; [|split; [reflexivity|]].
  - unfold recycleOne. rewrite Hlive. fold id. fold V.
    destruct (metaTable.UpdateRecycleState env (metaTable_ i) id) as [mt err].
    simpl. rewrite removedPrefixes_app.
    rewrite (removedPrefixes_removals (fun j => Itoa id +:+ "/" +:+ Itoa j)).
    apply elem_of_app. left. apply list_elem_of_fmap. exists 1.
    split; [reflexivity|]. apply elem_of_seqZ. lia.
  - apply prefix_app_same.
    assert (HVs : V = 10 \/ V = 11 \/ V = 12 \/ V = 13 \/ V = 14 \/ V = 15
                  \/ V = 16 \/ V = 17 \/ V = 18 \/ V = 19) by lia.
    repeat (destruct HVs as [->|HVs]; [reflexivity|]). subst V. rewrite HVs.
    reflexivity.
Qed.

Lemma assigned_recordedOn_length (trace : list Event) :
  length (recordedOn trace) = length (assigned trace).
Proof.
  unfold recordedOn, assigned.
  induction trace as [|e trace IH]; [reflexivity|].
  destruct e; cbn in *; auto.
Qed.

(** X22. Whatever the registry and the workers answer, one tick of the
    assignment loop has at most [taskLimit + 2] = 22 requests accepted,
    records at most that many assignments and raises priorities at most
    that many times: a round that assigns a task at an index above
    [taskLimit] ends the loop, and only rounds that assign a task reach
    that test. *)
Theorem assignTick_work_bound (env : Env) (i : IndexCoord) :
  Z.of_nat (length (acceptedBy (snd (assignTick env i)))) <= taskLimit + 2
  /\ Z.of_nat (length (recordedOn (snd (assignTick env i)))) <= taskLimit + 2
  /\ Z.of_nat (length (priorityChanges (snd (assignTick env i)))) <= taskLimit + 2.
Proof.
  assert (Hledger :
            recordedOn (snd (assignTick env i)) = acceptedBy (snd (assignTick env i))
            /\ priorityChanges (snd (assignTick env i))
               = (fun p => (fst p, 1)) <$> acceptedBy (snd (assignTick env i))).
  { unfold assignTick. destruct (_ <=? 0); [split; reflexivity|].
    pose proof (assignLoop_frame env (tickMetas env i) i 0) as H.
    destruct (assignLoop env i 0 (tickMetas env i)) as [i1 evs].
    destruct H as (_ & _ & _ & _ & H5 & H6). by split. }
  destruct Hledger as [Hrec Hprio].
  pose proof (assignTick_assigned_bound env i) as Hbound.
  rewrite <- assigned_recordedOn_length in Hbound.
  rewrite Hprio, length_fmap, <- Hrec. auto.
Qed.

(** ** indexcoord: what the loops leave of the table *)

Lemma reassigned_refl (m : Meta) : reassigned m m.
Proof. repeat split. Qed.

Lemma reassigned_trans (m1 m2 m3 : Meta) :
  reassigned m1 m2 -> reassigned m2 m3 -> reassigned m1 m3.
Proof. unfold reassigned. intros H1 H2. intuition congruence. Qed.

Lemma UpdateVersion_reassigns (env : Env) (mt : gmap UniqueID Meta) (id k : UniqueID) :
  option_Forall2 reassigned (mt !! k) (fst (metaTable.UpdateVersion env mt id) !! k).
Proof.
  unfold metaTable.UpdateVersion.
  destruct (mt !! id) as [m|] eqn:Hm; simpl.
  2:{ destruct (mt !! k); constructor. apply reassigned_refl. }
  destruct (saveIndexMeta env _); simpl.
  { destruct (mt !! k); constructor. apply reassigned_refl. }
  destruct (decide (id = k)) as [<-|Hne].
  - rewrite lookup_insert_eq, Hm. constructor. repeat split.
  - rewrite lookup_insert_ne by assumption.
    destruct (mt !! k); constructor. apply reassigned_refl.
Qed.

Lemma BuildIndex_reassigns (env : Env) (mt : gmap UniqueID Meta)
    (id nodeID k : UniqueID) :
  option_Forall2 reassigned (mt !! k)
                 (fst (metaTable.BuildIndex env mt id nodeID) !! k).
Proof.
  unfold metaTable.BuildIndex.
  destruct (mt !! id) as [m|] eqn:Hm; simpl.
  2:{ destruct (mt !! k); constructor. apply reassigned_refl. }
  destruct (saveIndexMeta env _); simpl.
  { destruct (mt !! k); constructor. apply reassigned_refl. }
  destruct (decide (id = k)) as [<-|Hne].
  - rewrite lookup_insert_eq, Hm. constructor. repeat split.
  - rewrite lookup_insert_ne by assumption.
    destruct (mt !! k); constructor. apply reassigned_refl.
Qed.

Lemma option_reassigned_trans (a b d : option Meta) :
  option_Forall2 reassigned a b -> option_Forall2 reassigned b d ->
  option_Forall2 reassigned a d.
Proof.
  intros H1 H2. destruct H1; inversion H2; subst; constructor.
  eapply reassigned_trans; eassumption.
Qed.

Lemma assignOne_reassigns (env : Env) (i : IndexCoord) (index : Z) (meta : Meta)
    (k : UniqueID) :
  option_Forall2 reassigned (metaTable_ i !! k)
    (metaTable_ (fst (fst (assignOne env i index meta))) !! k).
Proof.
  unfold assignOne.
  pose proof (UpdateVersion_reassigns env (metaTable_ i)
                (IndexMeta.IndexBuildID (indexMeta meta)) k) as H1.
  destruct (metaTable.UpdateVersion env (metaTable_ i) _) as [mt1 err].
  simpl in *. destruct (NodeManager.PeekClient (nodeManager i)) as [nodeID [client|]];
    [|exact H1].
  destruct (assignTask env client (createIndexRequest meta)); simpl; [|exact H1].
  pose proof (BuildIndex_reassigns env mt1
                (IndexMeta.IndexBuildID (indexMeta meta)) nodeID k) as H2.
  destruct (metaTable.BuildIndex env mt1 _ nodeID) as [mt2 err2].
  simpl in *. eapply option_reassigned_trans; eassumption.
Qed.

Lemma assignLoop_reassigns (env : Env) (metas : list Meta) (k : UniqueID) :
  forall (i : IndexCoord) (index : Z),
    option_Forall2 reassigned (metaTable_ i !! k)
      (metaTable_ (fst (assignLoop env i index metas)) !! k).
Proof.
  induction metas as [|meta rest IH]; intros i index; simpl.
  - destruct (metaTable_ i !! k); constructor. apply reassigned_refl.
  - pose proof (assignOne_reassigns env i index meta k) as Hone.
    destruct (assignOne env i index meta) as [[i1 evs] [|]]; simpl in *.
    + specialize (IH i1 (index + 1)).
      destruct (assignLoop env i1 (index + 1) rest) as [i2 evs'].
      simpl in *. eapply option_reassigned_trans; eassumption.
    + exact Hone.
Qed.

(** X20. One tick of the assignment loop neither creates nor deletes a
    record of the table, and in the records it keeps it changes at most
    State, NodeID, Version and the revision: the build id, the request,
    the file paths and the MarkDeleted and Recycled flags of every record
    are as before. *)
Theorem assignTick_keeps_records (env : Env) (i : IndexCoord) (k : UniqueID) :
  option_Forall2 reassigned (metaTable_ i !! k)
                 (metaTable_ (fst (assignTick env i)) !! k).
Proof.
  unfold assignTick. destruct (_ <=? 0).
  - simpl. destruct (metaTable_ i !! k); constructor. apply reassigned_refl.
  - apply assignLoop_reassigns.
Qed.

Lemma recycleOne_touches (env : Env) (i : IndexCoord) (meta : Meta) (k : UniqueID) :
  let after := metaTable_ (fst (recycleOne env i meta)) !! k in
  (k <> IndexMeta.IndexBuildID (indexMeta meta) -> after = metaTable_ i !! k)
  /\ forall m', after = Some m' ->
       exists m, metaTable_ i !! k = Some m /\ recycledOnly m m'.
Proof.
  unfold recycleOne.
  destruct (IndexMeta.MarkDeleted (indexMeta meta)); simpl.
  - unfold metaTable.DeleteIndex. split.
    + intros Hne. by rewrite lookup_delete_ne.
    + intros m' Hk. apply lookup_delete_Some in Hk as [_ Hk].
      exists m'. split; [exact Hk|]. repeat split. auto.
  - unfold metaTable.UpdateRecycleState.
    set (id := IndexMeta.IndexBuildID (indexMeta meta)).
    destruct (metaTable_ i !! id) as [m|] eqn:Hm; simpl.
    2:{ split; [reflexivity|]. intros m' Hk. exists m'. repeat split; auto. }
    destruct (saveIndexMeta env _); simpl.
    { split; [reflexivity|]. intros m' Hk. exists m'. repeat split; auto. }
    split.
    + intros Hne. by rewrite lookup_insert_ne.
    + intros m' Hk. destruct (decide (id = k)) as [<-|Hne].
      * rewrite lookup_insert_eq in Hk. injection Hk as <-.
        exists m. split; [exact Hm|]. repeat split.
      * rewrite lookup_insert_ne in Hk by assumption.
        exists m'. repeat split; auto.
Qed.

Lemma recycledOnly_trans (m1 m2 m3 : Meta) :
  recycledOnly m1 m2 -> recycledOnly m2 m3 -> recycledOnly m1 m3.
Proof. unfold recycledOnly. intros H1 H2. intuition congruence. Qed.

Lemma recycleLoop_touches (env : Env) (metas : list Meta) (k : UniqueID) :
  forall i : IndexCoord,
    let after := metaTable_ (fst (recycleLoop env i metas)) !! k in
    (Forall (fun meta => k <> IndexMeta.IndexBuildID (indexMeta meta)) metas ->
     after = metaTable_ i !! k)
    /\ forall m', after = Some m' ->
         exists m, metaTable_ i !! k = Some m /\ recycledOnly m m'.
Proof.
  induction metas as [|meta rest IH]; intros i; simpl.
  - split; [reflexivity|]. intros m' Hk. exists m'. repeat split; auto.
  - pose proof (recycleOne_touches env i meta k) as [Hone1 Hone2].
    destruct (recycleOne env i meta) as [i1 evs].
    specialize (IH i1). destruct (recycleLoop env i1 rest) as [i2 evs'].
    simpl in *. destruct IH as [IH1 IH2]. split.
    + intros Hall. inversion Hall; subst. rewrite IH1 by assumption. auto.
    + intros m' Hk. destruct (IH2 m' Hk) as (m1 & Hk1 & H1).
      destruct (Hone2 m1 Hk1) as (m & Hk0 & H0).
      exists m. split; [exact Hk0|]. eapply recycledOnly_trans; eassumption.
Qed.

Lemma recycleLoop_frame (env : Env) (metas : list Meta) :
  forall i : IndexCoord,
    stateCode (fst (recycleLoop env i metas)) = stateCode i
    /\ nodeManager (fst (recycleLoop env i metas)) = nodeManager i.
Proof.
  induction metas as [|meta rest IH]; intros i; simpl; [split; reflexivity|].
  assert (Hone : stateCode (fst (recycleOne env i meta)) = stateCode i
                 /\ nodeManager (fst (recycleOne env i meta)) = nodeManager i).
  { unfold recycleOne. destruct (IndexMeta.MarkDeleted _); simpl; [split; reflexivity|].
    destruct (metaTable.UpdateRecycleState env _ _). split; reflexivity. }
  destruct (recycleOne env i meta) as [i1 evs]. specialize (IH i1).
  destruct (recycleLoop env i1 rest) as [i2 evs']. simpl in *.
  destruct IH, Hone. split; congruence.
Qed.

(** X21. One tick of the recycle loop creates no record, and a record it
    keeps is changed in nothing but the Recycled flag, which it only ever
    sets, and the revision.  A build id that none of the records selected
    for the tick carries is not touched at all: its record is neither
    deleted nor rewritten.  The state code and the worker pool are as
    before. *)
Theorem recycleTick_touches_only_selected (env : Env) (i : IndexCoord) (k : UniqueID) :
  let selected := metaTable.GetUnusedIndexFiles (metaTable_ i) taskLimit in
  let after := metaTable_ (fst (recycleTick env i)) !! k in
  (Forall (fun meta => k <> IndexMeta.IndexBuildID (indexMeta meta)) selected ->
   after = metaTable_ i !! k)
  /\ (forall m', after = Some m' ->
        exists m, metaTable_ i !! k = Some m /\ recycledOnly m m')
  /\ stateCode (fst (recycleTick env i)) = stateCode i
  /\ nodeManager (fst (recycleTick env i)) = nodeManager i.
Proof.
  intros selected after. subst after. unfold recycleTick. fold selected.
  destruct (recycleLoop_touches env selected k i) as [H1 H2].
  destruct (recycleLoop_frame env selected i) as [H3 H4].
  auto.
Qed.

(** ** Admission is idempotent, whatever the loops do in between *)

Lemma sameReq_true (req : BuildIndexRequest.t) (m : Meta) :
  metaTable.sameReq req m = true
  <-> metaTable.fingerprint (IndexMeta.Req (indexMeta m)) = metaTable.fingerprint req
      /\ IndexMeta.MarkDeleted (indexMeta m) = false.
Proof.
  unfold metaTable.sameReq.
  rewrite andb_true_iff, bool_decide_eq_true, negb_true_iff. reflexivity.
Qed.

(** On a well-formed table the scan finds the live record of the request,
    in whatever order it visits the entries. *)
Lemma wellFormed_scan (mt : gmap UniqueID Meta) (req : BuildIndexRequest.t)
    (id : UniqueID) :
  wellFormed mt -> liveRecord mt req id ->
  metaTable.HasSameReq mt req = (true, id).
Proof.
  intros [Hkey Hone] (m & Hm & Hid & Hfp & Hlive).
  rewrite <- Hid. apply (HasSameReq_unique mt req id m Hm).
  - apply sameReq_true. by split.
  - intros k' m' Hm' Hsame'. apply sameReq_true in Hsame' as [Hfp' Hlive'].
    rewrite (Hkey _ _ Hm'), Hid.
    apply (Hone k' id m' m Hm' Hm Hlive' Hlive). congruence.
Qed.

(** What one admission does to the table: nothing, or it adds, under an id
    that was free, a live record of a request no live record matched. *)
Lemma BuildIndex_table (env : Env) (i : IndexCoord) (req : BuildIndexRequest.t) :
  metaTable_ (fst (BuildIndex env i req)) = metaTable_ i
  \/ exists newID m,
       metaTable_ (fst (BuildIndex env i req)) = <[newID := m]> (metaTable_ i)
       /\ metaTable_ i !! newID = None
       /\ IndexMeta.IndexBuildID (indexMeta m) = newID
       /\ IndexMeta.Req (indexMeta m) = req
       /\ IndexMeta.MarkDeleted (indexMeta m) = false
       /\ forall k m', metaTable_ i !! k = Some m' -> metaTable.sameReq req m' = false.
Proof.
  unfold BuildIndex.
  destruct (metaTable.HasSameReq (metaTable_ i) req) as [[] id] eqn:Hscan;
    [by left|].
  destruct (if ctxDone env then _ else _) as [newID|e]; [|by left].
  unfold WaitToFinish, metaTable.AddIndex.
  destruct (metaTable_ i !! newID) as [old|] eqn:Hfree; [by left|].
  destruct (saveIndexMeta env _) as [e|]; [by left|].
  right. eexists newID, _. simpl. repeat split; try reflexivity; try assumption.
  exact (HasSameReq_miss _ _ _ Hscan).
Qed.

Lemma BuildIndex_wellFormed (env : Env) (i : IndexCoord) (req : BuildIndexRequest.t) :
  wellFormed (metaTable_ i) -> wellFormed (metaTable_ (fst (BuildIndex env i req))).
Proof.
  intros [Hkey Hone].
  destruct (BuildIndex_table env i req)
    as [->|(newID & m & -> & Hfree & Hid & Hreq & Hlive & Hmiss)]; [by split|].
  assert (Hother : forall k m', metaTable_ i !! k = Some m' ->
                     IndexMeta.MarkDeleted (indexMeta m') = false ->
                     metaTable.fingerprint (IndexMeta.Req (indexMeta m'))
                     <> metaTable.fingerprint req).
  { intros k m' Hk Hlive' Hfp. specialize (Hmiss k m' Hk).
    assert (metaTable.sameReq req m' = true) by (apply sameReq_true; by split).
    congruence. }
  split.
  - intros k m' Hk. destruct (decide (k = newID)) as [->|Hne].
    + rewrite lookup_insert_eq in Hk. by injection Hk as <-.
    + rewrite lookup_insert_ne in Hk by congruence. by apply Hkey.
  - intros k1 k2 m1 m2 H1 H2 Hl1 Hl2 Hfp.
    destruct (decide (k1 = newID)) as [->|Hne1];
      destruct (decide (k2 = newID)) as [->|Hne2]; try reflexivity.
    + rewrite lookup_insert_eq in H1. injection H1 as <-.
      rewrite lookup_insert_ne in H2 by congruence.
      exfalso. apply (Hother k2 m2 H2 Hl2). congruence.
    + rewrite lookup_insert_eq in H2. injection H2 as <-.
      rewrite lookup_insert_ne in H1 by congruence.
      exfalso. apply (Hother k1 m1 H1 Hl1). congruence.
    + rewrite lookup_insert_ne in H1, H2 by congruence.
      by apply (Hone k1 k2 m1 m2).
Qed.

Lemma BuildIndex_keeps_live (env : Env) (i : IndexCoord) (req req' : BuildIndexRequest.t)
    (id : UniqueID) :
  liveRecord (metaTable_ i) req id ->
  liveRecord (metaTable_ (fst (BuildIndex env i req'))) req id.
Proof.
  intros (m & Hm & Hrest).
  destruct (BuildIndex_table env i req')
    as [->|(newID & m' & -> & Hfree & _)]; [by exists m|].
  exists m. split; [|exact Hrest].
  rewrite lookup_insert_ne; [exact Hm|]. congruence.
Qed.

(** A table whose records were rewritten as records of the same tasks is
    as well-formed as before and keeps its live records. *)
Lemma sameTask_wellFormed (mt mt' : gmap UniqueID Meta) :
  (forall k, option_Forall2 sameTask (mt !! k) (mt' !! k)) ->
  wellFormed mt -> wellFormed mt'.
Proof.
  intros Hre [Hkey Hone]. split.
  - intros k m' Hk. specialize (Hre k). rewrite Hk in Hre.
    destruct (mt !! k) as [m|] eqn:Hm; inversion Hre as [? ? Hrel|]; subst.
    destruct Hrel as (Hid & _). rewrite Hid. by apply Hkey.
  - intros k1 k2 m1' m2' H1 H2 Hl1 Hl2 Hfp.
    pose proof (Hre k1) as Hre1. pose proof (Hre k2) as Hre2.
    rewrite H1 in Hre1. rewrite H2 in Hre2.
    destruct (mt !! k1) as [m1|] eqn:Hm1; inversion Hre1 as [? ? Hrel1|]; subst.
    destruct (mt !! k2) as [m2|] eqn:Hm2; inversion Hre2 as [? ? Hrel2|]; subst.
    destruct Hrel1 as (_ & Hreq1 & Hdel1).
    destruct Hrel2 as (_ & Hreq2 & Hdel2).
    apply (Hone k1 k2 m1 m2); congruence.
Qed.

Lemma sameTask_keeps_live (mt mt' : gmap UniqueID Meta) (req : BuildIndexRequest.t)
    (id : UniqueID) :
  (forall k, option_Forall2 sameTask (mt !! k) (mt' !! k)) ->
  liveRecord mt req id -> liveRecord mt' req id.
Proof.
  intros Hre (m & Hm & Hid & Hfp & Hlive).
  specialize (Hre id). rewrite Hm in Hre.
  destruct (mt' !! id) as [m'|] eqn:Hm'; inversion Hre as [? ? Hrel|]; subst.
  destruct Hrel as (Hid' & Hreq' & Hdel').
  exists m'. split; [exact Hm'|]. repeat split; congruence.
Qed.

Lemma reassigned_sameTask (a b : option Meta) :
  option_Forall2 reassigned a b -> option_Forall2 sameTask a b.
Proof.
  intros H. destruct H as [m m' (Hid & Hreq & _ & Hdel & _)|]; constructor.
  by repeat split.
Qed.

Lemma recycleOne_keeps (env : Env) (i : IndexCoord) (meta : Meta) (k : UniqueID)
    (m : Meta) :
  metaTable_ i !! k = Some m ->
  (IndexMeta.MarkDeleted (indexMeta meta) = true ->
   IndexMeta.IndexBuildID (indexMeta meta) <> k) ->
  exists m', metaTable_ (fst (recycleOne env i meta)) !! k = Some m'
             /\ recycledOnly m m'.
Proof.
  intros Hm Hother. unfold recycleOne.
  destruct (IndexMeta.MarkDeleted (indexMeta meta)); simpl.
  - exists m. split; [|repeat split; auto].
    unfold metaTable.DeleteIndex. rewrite lookup_delete_ne; [exact Hm|]. by apply Hother.
  - unfold metaTable.UpdateRecycleState.
    set (id := IndexMeta.IndexBuildID (indexMeta meta)).
    destruct (metaTable_ i !! id) as [m0|] eqn:Hm0; simpl.
    2:{ exists m. split; [exact Hm|repeat split; auto]. }
    destruct (saveIndexMeta env _); simpl.
    { exists m. split; [exact Hm|repeat split; auto]. }
    destruct (decide (id = k)) as [Heq|Hne].
    + rewrite Heq in *. rewrite Hm in Hm0. injection Hm0 as <-.
      eexists. rewrite lookup_insert_eq. split; [reflexivity|]. repeat split.
    + exists m. rewrite lookup_insert_ne by assumption.
      split; [exact Hm|repeat split; auto].
Qed.

Lemma recycleLoop_keeps (env : Env) (metas : list Meta) (k : UniqueID) :
  forall (i : IndexCoord) (m : Meta),
    metaTable_ i !! k = Some m ->
    Forall (fun meta => IndexMeta.MarkDeleted (indexMeta meta) = true ->
                        IndexMeta.IndexBuildID (indexMeta meta) <> k) metas ->
    exists m', metaTable_ (fst (recycleLoop env i metas)) !! k = Some m'
               /\ recycledOnly m m'.
Proof.
  induction metas as [|meta rest IH]; intros i m Hm Hall; simpl.
  - exists m. split; [exact Hm|repeat split; auto].
  - inversion Hall as [|? ? Hmeta Hrest]; subst.
    destruct (recycleOne_keeps env i meta k m Hm Hmeta) as (m1 & Hm1 & H1).
    destruct (recycleOne env i meta) as [i1 evs]. simpl in Hm1.
    destruct (IH i1 m1 Hm1 Hrest) as (m2 & Hm2 & H2).
    destruct (recycleLoop env i1 rest) as [i2 evs']. simpl in *.
    exists m2. split; [exact Hm2|]. eapply recycledOnly_trans; eassumption.
Qed.

Lemma List_filter_Forall {A} (P : A -> Prop) (f : A -> bool) (l : list A) :
  Forall P l -> Forall P (List.filter f l).
Proof.
  intros Hall. apply List.Forall_forall. intros x Hx.
  apply filter_In in Hx as [Hx _]. rewrite List.Forall_forall in Hall. by apply Hall.
Qed.

Lemma recycleTick_keeps_live (env : Env) (i : IndexCoord) (req : BuildIndexRequest.t)
    (id : UniqueID) :
  wellFormed (metaTable_ i) ->
  liveRecord (metaTable_ i) req id ->
  liveRecord (metaTable_ (fst (recycleTick env i))) req id.
Proof.
  intros [Hkey _] (m & Hm & Hid & Hfp & Hlive). unfold recycleTick.
  destruct (recycleLoop_keeps env (metaTable.GetUnusedIndexFiles (metaTable_ i) taskLimit)
              id i m Hm) as (m' & Hm' & Hre).
  { unfold metaTable.GetUnusedIndexFiles. apply Forall_take, List_filter_Forall.
    apply List.Forall_forall. intros meta Hin Hdel Heq.
    apply value_in_table in Hin as [k Hk].
    pose proof (Hkey _ _ Hk) as Hk'. rewrite Heq in Hk'. subst k.
    rewrite Hm in Hk. injection Hk as <-. congruence. }
  destruct Hre as (Hid' & _ & Hreq' & _ & Hdel' & _).
  exists m'. split; [exact Hm'|]. repeat split; congruence.
Qed.

Lemma recycleTick_wellFormed (env : Env) (i : IndexCoord) :
  wellFormed (metaTable_ i) -> wellFormed (metaTable_ (fst (recycleTick env i))).
Proof.
  intros [Hkey Hone]. unfold recycleTick.
  pose proof (fun k => proj2 (recycleLoop_touches env
                (metaTable.GetUnusedIndexFiles (metaTable_ i) taskLimit) k i)) as Hback.
  cbv zeta in Hback. split.
  - intros k m' Hk. destruct (Hback k m' Hk) as (m & Hm & Hid & _).
    rewrite Hid. by apply Hkey.
  - intros k1 k2 m1' m2' H1 H2 Hl1 Hl2 Hfp.
    destruct (Hback k1 m1' H1) as (m1 & Hm1 & _ & _ & Hreq1 & _ & Hdel1 & _).
    destruct (Hback k2 m2' H2) as (m2 & Hm2 & _ & _ & Hreq2 & _ & Hdel2 & _).
    apply (Hone k1 k2 m1 m2); congruence.
Qed.

Lemma tableStep_keeps (i i' : IndexCoord) (req : BuildIndexRequest.t) (id : UniqueID) :
  tableStep i i' ->
  wellFormed (metaTable_ i) /\ liveRecord (metaTable_ i) req id ->
  wellFormed (metaTable_ i') /\ liveRecord (metaTable_ i') req id.
Proof.
  intros Hstep [Hwf Hlive].
  destruct Hstep as [env i req'|env i|env i|i code|i mt Hsame].
  - split; [by apply BuildIndex_wellFormed|by apply BuildIndex_keeps_live].
  - assert (Hre : forall k, option_Forall2 sameTask (metaTable_ i !! k)
                     (metaTable_ (fst (assignLoop env i 0 (tickMetas env i))) !! k))
      by (intros k; apply reassigned_sameTask, assignLoop_reassigns).
    unfold assignTick. destruct (_ <=? 0); [by split|].
    split; [eapply sameTask_wellFormed|eapply sameTask_keeps_live]; eassumption.
  - split; [by apply recycleTick_wellFormed|by apply recycleTick_keeps_live].
  - by split.
  - simpl. split; [eapply sameTask_wellFormed|eapply sameTask_keeps_live]; eassumption.
Qed.

(** C1. On a well-formed table (every record under its own build id, at
    most one live record per fingerprint):
    - a request that a live record of the table matches is answered from
      the table, with Success and the IndexBuildID stored in that record,
      and the coordinator is left as it was: no id is allocated and no
      record is written, whatever the collaborators would do;
    - after a [BuildIndex] that succeeded, and after any number of further
      admissions, ticks of the assignment loop, ticks of the recycle loop,
      changes of the state code and rewrites of records that keep their
      task (anything but a [DropIndex]), the
      table still holds, under the id the first call returned, a live
      record with the fingerprint of the request, and a [BuildIndex] with
      a request of that fingerprint succeeds with that same id and leaves
      the coordinator as it was. *)
Theorem BuildIndex_idempotent (i : IndexCoord) :
  wellFormed (metaTable_ i) ->
  (forall (env : Env) (req : BuildIndexRequest.t) (k : UniqueID) (m : Meta),
      metaTable_ i !! k = Some m ->
      metaTable.sameReq req m = true ->
      BuildIndex env i req
      = (i, (Some (buildIndexResponse commonpb.ErrorCode_Success
                     "already have same index"
                     (IndexMeta.IndexBuildID (indexMeta m))), None)))
  /\ (forall (env1 env2 : Env) (req1 req2 : BuildIndexRequest.t)
             (i1 i2 : IndexCoord) (resp1 : BuildIndexResponse.t),
        metaTable.fingerprint req1 = metaTable.fingerprint req2 ->
        BuildIndex env1 i req1 = (i1, (Some resp1, None)) ->
        commonpb.ErrorCode_ (BuildIndexResponse.Status resp1)
        = commonpb.ErrorCode_Success ->
        rtc tableStep i1 i2 ->
        liveRecord (metaTable_ i2) req2 (BuildIndexResponse.IndexBuildID resp1)
        /\ BuildIndex env2 i2 req2
           = (i2, (Some (buildIndexResponse commonpb.ErrorCode_Success
                           "already have same index"
                           (BuildIndexResponse.IndexBuildID resp1)), None))).
Proof.
  intros Hwf. split.
  - intros env req k m Hm Hsame.
    assert (Hlive : liveRecord (metaTable_ i) req (IndexMeta.IndexBuildID (indexMeta m))).
    { apply sameReq_true in Hsame as [Hfp Hdel]. destruct Hwf as [Hkey _].
      rewrite (Hkey _ _ Hm). exists m. repeat split; try assumption. by apply Hkey. }
    unfold BuildIndex. rewrite (wellFormed_scan _ _ _ Hwf Hlive). reflexivity.
  - intros env1 env2 req1 req2 i1 i2 resp1 Hfp Hcall Hok Hsteps.
    set (id := BuildIndexResponse.IndexBuildID resp1).
    assert (Hwf1 : wellFormed (metaTable_ i1)).
    { replace i1 with (fst (BuildIndex env1 i req1)) by (by rewrite Hcall).
      by apply BuildIndex_wellFormed. }
    assert (Hlive1 : liveRecord (metaTable_ i1) req2 id).
    { pose proof (BuildIndex_success_inv _ _ _ _ _ Hcall Hok) as Hhit.
      destruct (HasSameReq_hit _ _ _ Hhit) as (k & m & Hm & Hsame & Hid).
      apply sameReq_true in Hsame as [Hfpm Hdel]. destruct Hwf1 as [Hkey _].
      pose proof (Hkey _ _ Hm) as Hk. fold id in Hid. rewrite Hid in Hk. subst k.
      exists m. repeat split; try assumption. congruence. }
    assert (Hinv : wellFormed (metaTable_ i2) /\ liveRecord (metaTable_ i2) req2 id).
    { clear Hcall. induction Hsteps as [i1|i1 i' i2 Hstep Hsteps IH]; [by split|].
      destruct (tableStep_keeps i1 i' req2 id Hstep) as [Hwf' Hlive']; [by split|].
      by apply IH. }
    destruct Hinv as [Hwf2 Hlive2]. split; [exact Hlive2|].
    unfold BuildIndex. rewrite (wellFormed_scan _ _ _ Hwf2 Hlive2). reflexivity.
Qed.

Lemma BuildIndex_idempotent_witness :
  let req := Examples.request 7 ["/a"; "/b"] in
  let i := Examples.coord internalpb.StateCode_Healthy ∅ in
  let i1 := fst (BuildIndex Examples.calm i req) in
  let i2 := fst (recycleTick Examples.blobDown (fst (assignTick Examples.workersDown i1))) in
  wellFormed (metaTable_ i)
  /\ liveRecord (metaTable_ i2) req 100
  /\ BuildIndex Examples.registryConflict i2 req
     = (i2, (Some (buildIndexResponse commonpb.ErrorCode_Success
                     "already have same index" 100), None)).
Proof.
  cbv zeta.
  assert (Hwf : wellFormed
                  (metaTable_ (Examples.coord internalpb.StateCode_Healthy ∅))).
  { split; intros; simplify_map_eq. }
  split; [exact Hwf|].
  destruct (BuildIndex_idempotent
              (Examples.coord internalpb.StateCode_Healthy ∅) Hwf) as [_ Hagain].
  apply (Hagain Examples.calm Examples.registryConflict
           (Examples.request 7 ["/a"; "/b"]) (Examples.request 7 ["/a"; "/b"])
           (fst (BuildIndex Examples.calm
                   (Examples.coord internalpb.StateCode_Healthy ∅)
                   (Examples.request 7 ["/a"; "/b"])))
           _ (buildIndexResponse commonpb.ErrorCode_Success EmptyString 100)).
  - reflexivity.
  - vm_compute. reflexivity.
  - reflexivity.
  - eapply rtc_l; [apply (step_assignTick Examples.workersDown)|].
    apply rtc_once. apply (step_recycleTick Examples.blobDown).
Defined.

(** ** The further properties at concrete inputs *)

Lemma closed_server_refuses_witness :
  datacoord.SaveBinlogPaths MoreExamples.collab (MoreExamples.server 1)
    {| datacoord.SaveBinlogPathsRequest.SegmentID := 1;
       datacoord.SaveBinlogPathsRequest.CollectionID := 1;
       datacoord.SaveBinlogPathsRequest.Flushed := true;
       datacoord.SaveBinlogPathsRequest.Field2BinlogPaths := [] |}
  = (MoreExamples.server 1,
     (Some (datacoord.unexpected datacoord.serverNotServingErrMsg), None)).
Proof.
  apply (closed_server_refuses MoreExamples.collab Examples.calm
           (MoreExamples.server 1)
           {| datacoord.FlushRequest.DbID := 0;
              datacoord.FlushRequest.CollectionID := 1 |}
           [] [] 1 1 _ "system_info").
  simpl. lia.
Defined.

Lemma GetSegmentStates_entries_witness :
  exists resp,
    datacoord.GetSegmentStates MoreExamples.collab (MoreExamples.server 2) [1; 9]
    = (Some resp, None)
    /\ length (datacoord.GetSegmentStatesResponse.States resp) = 2%nat.
Proof.
  destruct (GetSegmentStates_entries MoreExamples.collab (MoreExamples.server 2) [1; 9])
    as (resp & Hcall & _ & Hlen & _); [reflexivity|].
  exists resp. split; [exact Hcall|exact Hlen].
Defined.

Lemma GetSegmentInfo_all_or_nothing_witness :
  exists resp,
    datacoord.GetSegmentInfo MoreExamples.collab (MoreExamples.server 2) [1; 9; 2]
    = (Some resp, None).
Proof.
  destruct (GetSegmentInfo_all_or_nothing MoreExamples.collab (MoreExamples.server 2)
              [1; 9; 2]) as (resp & Hcall & _); [reflexivity|].
  exists resp. exact Hcall.
Defined.

Lemma GetInsertBinlogPaths_parallel_witness :
  exists resp,
    datacoord.GetInsertBinlogPaths MoreExamples.collab (MoreExamples.server 2) 1
    = (Some resp, None)
    /\ length (datacoord.GetInsertBinlogPathsResponse.FieldIDs resp)
       = length (datacoord.GetInsertBinlogPathsResponse.Paths resp).
Proof.
  destruct (GetInsertBinlogPaths_parallel MoreExamples.collab (MoreExamples.server 2) 1)
    as (resp & Hcall & Hlen & _); [reflexivity|].
  exists resp. split; [exact Hcall|exact Hlen].
Defined.

Lemma GetComponentStates_agrees_with_gate_witness :
  exists resp,
    datacoord.GetComponentStates MoreExamples.collab (MoreExamples.server 7)
    = (Some resp, None)
    /\ internalpb.Status resp = success.
Proof.
  destruct (GetComponentStates_agrees_with_gate MoreExamples.collab
              (MoreExamples.server 7)) as (resp & Hcall & Hok & _); [simpl; lia|].
  exists resp. split; [exact Hcall|exact Hok].
Defined.

Lemma AssignSegmentID_groups_witness :
  let r := {| datacoord.SegmentIDRequest.Count := 10;
              datacoord.SegmentIDRequest.ChannelName := "ch";
              datacoord.SegmentIDRequest.CollectionID := 1;
              datacoord.SegmentIDRequest.PartitionID := 1 |} in
  exists s' rest,
    datacoord.AssignSegmentID MoreExamples.collab (MoreExamples.server 2) [r]
    = (s', (Some {| datacoord.AssignSegmentIDResponse.Status := success;
                    datacoord.AssignSegmentIDResponse.SegIDAssignments :=
                      [ {| datacoord.SegmentIDAssignment.SegID := 7;
                           datacoord.SegmentIDAssignment.ChannelName := "ch";
                           datacoord.SegmentIDAssignment.Count := 10;
                           datacoord.SegmentIDAssignment.CollectionID := 1;
                           datacoord.SegmentIDAssignment.PartitionID := 1;
                           datacoord.SegmentIDAssignment.ExpireTime := 0;
                           datacoord.SegmentIDAssignment.Status := success |} ]
                      ++ rest |}, None)).
Proof.
  cbv zeta.
  destruct (AssignSegmentID_groups MoreExamples.collab (MoreExamples.server 2)
              {| datacoord.SegmentIDRequest.Count := 10;
                 datacoord.SegmentIDRequest.ChannelName := "ch";
                 datacoord.SegmentIDRequest.CollectionID := 1;
                 datacoord.SegmentIDRequest.PartitionID := 1 |} [])
    as (_ & _ & _ & Hgranted & _); [reflexivity|].
  destruct (Hgranted _ _ _ eq_refl eq_refl) as (s' & rest & _ & Hcall).
  exists s', rest. exact Hcall.
Defined.

Lemma SaveBinlogPaths_flush_signal_witness :
  exists s' st,
    datacoord.SaveBinlogPaths MoreExamples.collab (MoreExamples.server 2)
      {| datacoord.SaveBinlogPathsRequest.SegmentID := 1;
         datacoord.SaveBinlogPathsRequest.CollectionID := 1;
         datacoord.SaveBinlogPathsRequest.Flushed := true;
         datacoord.SaveBinlogPathsRequest.Field2BinlogPaths := [] |}
    = (s', (Some st, None))
    /\ datacoord.isServing s' = 2.
Proof.
  destruct (SaveBinlogPaths_flush_signal MoreExamples.collab (MoreExamples.server 2)
              {| datacoord.SaveBinlogPathsRequest.SegmentID := 1;
                 datacoord.SaveBinlogPathsRequest.CollectionID := 1;
                 datacoord.SaveBinlogPathsRequest.Flushed := true;
                 datacoord.SaveBinlogPathsRequest.Field2BinlogPaths := [] |})
    as (s' & st & Hcall & Hflag & _); [reflexivity|].
  exists s', st. split; [exact Hcall|exact Hflag].
Defined.

Lemma statistics_row_count_witness :
  exists resp kv,
    datacoord.GetCollectionStatistics MoreExamples.collab (MoreExamples.server 2) 1
    = (Some resp, None)
    /\ datacoord.StatisticsResponse.Stats resp = [kv]
    /\ parseDecimal (commonpb.Value kv) = Some 2.
Proof.
  destruct (statistics_row_count MoreExamples.collab (MoreExamples.server 2) 1 1)
    as [(resp & kv & Hcall & _ & Hstats & _ & Hparse) _]; [reflexivity|].
  exists resp, kv. repeat split; assumption.
Defined.

Lemma worker_document_round_trip_witness :
  exists resp,
    indexnode.getSystemInfoMetrics MoreExamples.codecEnv MoreExamples.worker
    = (Some resp, None)
    /\ GetMetricsResponse.ComponentName resp = "IndexNode3".
Proof.
  destruct (worker_document_round_trip MoreExamples.codecEnv MoreExamples.worker)
    as (resp & Hcall & Hname & _).
  - intros doc [= <-]. reflexivity.
  - exists resp. split; [exact Hcall|exact Hname].
Defined.

Lemma BuildIndex_context_done_witness :
  exists resp,
    BuildIndex MoreExamples.codecEnv (Examples.coord internalpb.StateCode_Healthy ∅)
      (Examples.request 7 ["/a"])
    = (Examples.coord internalpb.StateCode_Healthy ∅, (Some resp, None)).
Proof.
  destruct (BuildIndex_context_done MoreExamples.codecEnv
              (Examples.coord internalpb.StateCode_Healthy ∅)
              (Examples.request 7 ["/a"])) as (resp & Hcall & _); [reflexivity|].
  exists resp. exact Hcall.
Defined.

Lemma Init_healthy_iff_nil_witness :
  stateCode (fst (Init MoreExamples.allocatorDown NewIndexCoord))
  = internalpb.StateCode_Abnormal.
Proof.
  destruct (Init_healthy_iff_nil MoreExamples.allocatorDown NewIndexCoord)
    as (_ & Hkeep & _); [discriminate|].
  apply Hkeep. discriminate.
Defined.

Lemma tick_without_client_bumps_first_witness :
  snd (assignTick Examples.calm MoreExamples.noQueue)
  = [EvUpdateVersion 1 None].
Proof.
  rewrite (tick_without_client_bumps_first Examples.calm MoreExamples.noQueue 0
             (Examples.unissued 1) []).
  - reflexivity.
  - vm_compute. lia.
  - reflexivity.
  - vm_compute. reflexivity.
Defined.

Lemma dispatched_requests_origin_witness :
  exists meta,
    In meta (metaTable.GetUnassignedTasks {[ 1 := Examples.unissued 1 ]} [1])
    /\ createIndexRequest (Examples.unissued 1) = createIndexRequest meta.
Proof.
  destruct (dispatched_requests_origin Examples.calm
              (Examples.coord internalpb.StateCode_Healthy {[ 1 := Examples.unissued 1 ]})
              (createIndexRequest (Examples.unissued 1)))
    as [(meta & Hin & Heq & _) _].
  - vm_compute. constructor.
  - exists meta. split; [exact Hin|exact Heq].
Defined.

Lemma stale_prefix_covers_current_witness :
  String.prefix "5/1" "5/12" = true.
Proof.
  destruct (stale_prefix_covers_current Examples.calm
              (Examples.coord internalpb.StateCode_Healthy ∅)
              (Examples.task 5 commonpb.IndexState_Finished 12 false false))
    as (p & _ & -> & Hprefix).
  - reflexivity.
  - simpl. lia.
  - exact Hprefix.
Defined.
